(** * PMDtools (pmdtools.py, Python 3 rewrite): a shallow embedding

    The development follows [src/pmdtools.py] function by function: the
    probability functions, the damage tables, the MD decoder, the CIGAR
    scan, and the body of the loop over the input lines stage by stage
    (admission, alignment, filters, PMD score, output).

    Conventions of the embedding:
    - a Python [str] is a sequence of Unicode code points, modelled as
      [list Z]; literals are written [lit "..."];
    - a Python [int] is a [Z];
    - a Python [float] is idealised as a real number ([R]): rounding,
      overflow and NaN are outside the model; [float(s)] on a string and
      [str(round(x, 3))] are parameters;
    - a statement that can raise returns a [result]; the exception classes
      are those the program can meet ([IndexError], [ValueError], ...);
    - a name is looked up in the names the module binds: one that is bound
      nowhere raises [NameError];
    - SAM text is 7-bit ASCII: the character classes ([isdigit], [isalpha],
      [\d], white space) are the ASCII ones. *)

From Stdlib Require Import List ZArith Lia Bool String Ascii DecimalString.
From Stdlib Require Import Reals Lra.
Import ListNotations.

Open Scope Z_scope.

(* ================================================================= *)
(** ** Python values and exceptions *)

Definition char := Z.
Definition str := list char.

Definition ord_ascii (c : ascii) : char := Z.of_N (N_of_ascii c).

Definition lit (s : string) : str := map ord_ascii (list_ascii_of_string s).

Inductive exn : Type :=
| NameError (name : str)
| IndexError
| ValueError
| TypeError
| ZeroDivisionError.

Inductive result (A : Type) : Type :=
| Ok (a : A)
| Err (e : exn).
Arguments Ok {A} a.
Arguments Err {A} e.

Definition bind {A B} (m : result A) (k : A -> result B) : result B :=
  match m with
  | Ok a => k a
  | Err e => Err e
  end.

Notation "x <- m ;; k" := (bind m (fun x => k))
  (at level 61, m at next level, right associativity).
Notation "' pat <- m ;; k" := (bind m (fun x => match x with pat => k end))
  (at level 61, pat pattern, m at next level, right associativity).

(** How a block of statements inside a loop body ends. *)
Inductive flow (A : Type) : Type :=
| Next (a : A)        (* ran to its end: the next statement follows *)
| Continue (a : A)    (* [continue] *)
| Break (a : A).      (* [break] *)
Arguments Next {A} a.
Arguments Continue {A} a.
Arguments Break {A} a.

Definition andthen {A} (m : result (flow A)) (k : A -> result (flow A))
  : result (flow A) :=
  match m with
  | Ok (Next a) => k a
  | _ => m
  end.

Notation "x <~ m ;; k" := (andthen m (fun x => k))
  (at level 61, m at next level, right associativity).

Definition str_eqb (a b : str) : bool :=
  if list_eq_dec Z.eq_dec a b then true else false.

(** [len(s)] *)
Definition len {A} (s : list A) : Z := Z.of_nat (List.length s).

(** [s[i]]: a negative index counts from the end, out of range raises. *)
Definition getitem {A} (s : list A) (i : Z) : result A :=
  let j := if i <? 0 then i + len s else i in
  if j <? 0 then Err IndexError
  else match nth_error s (Z.to_nat j) with
       | Some a => Ok a
       | None => Err IndexError
       end.

(** [s[lo:hi]] and [s[lo:]]: indices are clamped, never raise. *)
Definition clamp_index {A} (s : list A) (i : Z) : nat :=
  let j := if i <? 0 then i + len s else i in
  Z.to_nat (Z.min (Z.max j 0) (len s)).

Definition slice {A} (s : list A) (lo hi : Z) : list A :=
  let l := clamp_index s lo in
  let h := clamp_index s hi in
  firstn (h - l) (skipn l s).

Definition slice_from {A} (s : list A) (lo : Z) : list A :=
  skipn (clamp_index s lo) s.

(** [c in s] for a one-character [c] *)
Definition has_char (c : char) (s : str) : bool := existsb (Z.eqb c) s.

(** [range(lo, hi)] *)
Definition py_range (lo hi : Z) : list Z :=
  map (fun k => lo + Z.of_nat k) (seq 0 (Z.to_nat (hi - lo))).

(* ================================================================= *)
(** ** Name resolution

    The names the module binds (lines 28-31, the [def]s, and [options]
    bound under [__main__]) and the builtins the program calls.  Any other
    name raises [NameError] when it is evaluated. *)

Definition module_globals : list str :=
  map lit ["argv"; "exit"; "stdin"; "stderr"; "argparse"; "math"; "re";
           "parse_args"; "revcomp"; "phred2prob"; "prob2phred"; "L_match";
           "L_mismatch"; "Newbaseq"; "geometric"; "main"; "options"]%string.

Definition python3_builtins : list str :=
  map lit ["print"; "range"; "zip"; "len"; "int"; "float"; "str"; "ord";
           "chr"; "round"]%string.

Definition resolve (name : string) : result unit :=
  if existsb (str_eqb (lit name)) (module_globals ++ python3_builtins)
  then Ok tt else Err (NameError (lit name)).

(* ================================================================= *)
(** ** [revcomp] (lines 154-164) *)

Definition chA : char := 65.
Definition chC : char := 67.
Definition chG : char := 71.
Definition chN : char := 78.
Definition chT : char := 84.
Definition chGap : char := 45.    (* '-' *)

Definition revcomp_base (newseq : str) (inbase : char) : str :=
  if inbase =? chA then newseq ++ [chT]
  else if inbase =? chT then newseq ++ [chA]
  else if inbase =? chG then newseq ++ [chC]
  else if inbase =? chC then newseq ++ [chG]
  else if inbase =? chN then newseq ++ [chN]
  else if inbase =? chGap then newseq ++ [chGap]
  else newseq.

Definition revcomp (inseq : str) : str :=
  let inseq := rev inseq in
  fold_left revcomp_base inseq [].

(** The alphabet of reconstructed alignments. *)
Definition in_alphabet (c : char) : Prop :=
  c = chA \/ c = chC \/ c = chG \/ c = chT \/ c = chN \/ c = chGap.

(* ================================================================= *)
(** ** Character classes and conversions *)

Definition is_digit (c : char) : bool := (48 <=? c) && (c <=? 57).
Definition is_upper (c : char) : bool := (65 <=? c) && (c <=? 90).
Definition is_lower (c : char) : bool := (97 <=? c) && (c <=? 122).
Definition is_alpha (c : char) : bool := is_upper c || is_lower c.
(** ASCII white space: tab, LF, VT, FF, CR, FS, GS, RS, US and space. *)
Definition is_space (c : char) : bool :=
  ((9 <=? c) && (c <=? 13)) || ((28 <=? c) && (c <=? 32)).

Definition chNL : char := 10.
Definition chTab : char := 9.
Definition chDot : char := 46.
Definition chCaret : char := 94.
Definition chAt : char := 64.

(** [s.isdigit()], [s.isalpha()]: false on the empty string. *)
Definition isdigit (s : str) : bool :=
  match s with [] => false | _ => forallb is_digit s end.
Definition isalpha (s : str) : bool :=
  match s with [] => false | _ => forallb is_alpha s end.

(** [s.lstrip(c)], [s.rstrip(c)] for a one-character argument. *)
Fixpoint lstrip (c : char) (s : str) : str :=
  match s with
  | d :: r => if d =? c then lstrip c r else s
  | [] => []
  end.
Definition rstrip (c : char) (s : str) : str := rev (lstrip c (rev s)).

(** Value of a run of decimal digits. *)
Definition digits_value (s : str) : Z :=
  fold_left (fun acc c => 10 * acc + (c - 48)) s 0.

(** [int(s)] on a string: surrounding white space, an optional sign, then
    digits, where single underscores may separate digits. *)
Fixpoint int_body (s : str) (after_digit : bool) : bool :=
  match s with
  | [] => after_digit
  | c :: r =>
      if is_digit c then int_body r true
      else if (c =? 95) && after_digit then int_body r false
      else false
  end.

Fixpoint lstrip_ws (s : str) : str :=
  match s with
  | d :: r => if is_space d then lstrip_ws r else s
  | [] => []
  end.
Definition strip_ws (s : str) : str := rev (lstrip_ws (rev (lstrip_ws s))).

Definition py_int (s : str) : result Z :=
  let t := strip_ws s in
  let '(sign, body) :=
    match t with
    | 43 :: r => (1, r)
    | 45 :: r => (-1, r)
    | _ => (1, t)
    end in
  if int_body body false
  then Ok (sign * digits_value (filter is_digit body))
  else Err ValueError.

(** [str(n)] for an [int]. *)
Definition py_str_int (n : Z) : str :=
  lit (NilZero.string_of_int (Z.to_int n)).

(** [chr(n)] *)
Definition py_chr (n : Z) : result char :=
  if (n <? 0) || (1114111 <? n) then Err ValueError else Ok n.

(* ================================================================= *)
(** ** Floats as reals *)

Definition Rltb (x y : R) : bool := if Rlt_dec x y then true else false.
Definition Rleb (x y : R) : bool := if Rle_dec x y then true else false.

(** [int(x)] for a float: truncation toward zero. *)
Definition py_int_of_float (x : R) : Z :=
  if Rle_dec 0 x then Int_part x else - Int_part (- x).

(** [math.log(x)], [math.log(x, 10)]: a domain error outside [x > 0]. *)
Definition math_log (x : R) : result R :=
  if Rlt_dec 0 x then Ok (ln x) else Err ValueError.
Definition math_log10 (x : R) : result R :=
  if Rlt_dec 0 x then Ok (ln x / ln 10)%R else Err ValueError.

(** [x / y] on floats *)
Definition fdiv (x y : R) : result R :=
  if Req_dec_T y 0 then Err ZeroDivisionError else Ok (x / y)%R.

(* ================================================================= *)
(** ** The probability functions (lines 167-200) *)

Definition phred2prob (Q : Z) : R := Rpower 10 (- IZR Q / 10).

Definition prob2phred (P : R) : result R :=
  l <- math_log10 P ;; Ok (-10 * l)%R.

Definition L_match (fposition : Z) (fmodel : list R) (fquals : str) (fpoly : R)
  : result R :=
  P_damage <- getitem fmodel fposition ;;
  q <- getitem fquals fposition ;;
  let P_error := (phred2prob (q - 33) / 3)%R in
  let P_poly := fpoly in
  let P_match := ((1 - P_damage) * (1 - P_error) * (1 - P_poly)
                  + (P_damage * P_error * (1 - P_poly))
                  + (P_error * P_poly * (1 - P_damage)))%R in
  Ok P_match.

Definition L_mismatch (fposition : Z) (fmodel : list R) (fquals : str) (fpoly : R)
  : result R :=
  P_damage <- getitem fmodel fposition ;;
  q <- getitem fquals fposition ;;
  let P_error := (phred2prob (q - 33) / 3)%R in
  let P_poly := fpoly in
  let P_match := ((1 - P_damage) * (1 - P_error) * (1 - P_poly)
                  + (P_damage * P_error * (1 - P_poly))
                  + (P_error * P_poly * (1 - P_damage)))%R in
  let P_mismatch := (1 - P_match)%R in
  Ok P_mismatch.

Definition Newbaseq (fposition : Z) (fmodel : list R) (fquals : str) : result R :=
  P_damage <- getitem fmodel fposition ;;
  q <- getitem fquals fposition ;;
  let P_error := (phred2prob (q - 33) / 3)%R in
  let NewErrorP := (1 - ((1 - P_damage) * (1 - P_error)))%R in
  Ok NewErrorP.

(** [kval] is an [int]: the power is an integer power. *)
Definition geometric (pval : R) (kval : Z) (constant : R) : R :=
  (powerRZ (1 - pval) (kval - 1) * pval + constant)%R.

(* ================================================================= *)
(** ** Options (lines 34-151, the [dest] of each argument) *)

Record options : Type := {
  maxreads : Z;
  chromosome : str;
  mapq : Z;
  baseq : Z;
  deamination : bool;
  cpg : bool;
  range : Z;
  polymorphism_ancient : R;
  polymorphism_contamination : R;
  PMDpparam : R;
  PMDconstant : R;
  maxlength : Z;
  noclips : bool;
  noindels : bool;
  onlyclips : bool;
  onlydeletions : bool;
  onlyinsertions : bool;
  nodeletions : bool;
  noinsertions : bool;
  notreverse : bool;
  printDS : bool;
  printalignments : bool;
  threshold : R;
  upperthreshold : R;
  perc_identity : R;
  adjustbaseq : bool;
  adjustbaseq_all : bool;
  dry : bool;
  header : bool;
  writesamfield : bool;
  basic : Z;
  stats : bool
}.

Definition default_options : options := {|
  maxreads := 10 ^ 20;
  chromosome := [];
  mapq := 0;
  baseq := 0;
  deamination := false;
  cpg := false;
  range := 30;
  polymorphism_ancient := 0.001;
  polymorphism_contamination := 0.001;
  PMDpparam := 0.3;
  PMDconstant := 0.01;
  maxlength := 200;
  noclips := false;
  noindels := false;
  onlyclips := false;
  onlydeletions := false;
  onlyinsertions := false;
  nodeletions := false;
  noinsertions := false;
  notreverse := false;
  printDS := false;
  printalignments := false;
  threshold := -20000;
  upperthreshold := 1000000;
  perc_identity := 0;
  adjustbaseq := false;
  adjustbaseq_all := false;
  dry := false;
  header := false;
  writesamfield := false;
  basic := 0;
  stats := false
|}.

(* ================================================================= *)
(** ** The damage models (lines 206-213) *)

Definition modern_model_deam : list R := repeat 0.001%R 1000.

Definition ancient_model_deam (o : options) : list R :=
  map (fun l => geometric (PMDpparam o) l (PMDconstant o)) (py_range 1 1000).

(** Bound only under [--adjustbaseq_all]; read only there. *)
Definition adjustment_model_deam (o : options) : list R :=
  map (fun l => geometric (PMDpparam o) l 0) (py_range 1 1000).

(* ================================================================= *)
(** ** String operations of the record parser *)

Fixpoint is_prefix (p s : str) : bool :=
  match p, s with
  | [], _ => true
  | a :: p', b :: s' => (a =? b) && is_prefix p' s'
  | _ :: _, [] => false
  end.

(** [sub in s] *)
Fixpoint contains (sub s : str) : bool :=
  is_prefix sub s ||
  match s with
  | [] => false
  | _ :: r => contains sub r
  end.

(** [s.split(sep)], [sep] not empty: [skip] counts the characters of a
    matched separator still to be dropped. *)
Fixpoint split_aux (sep s : str) (skip : nat) (cur : str) : list str :=
  match s with
  | [] => [cur]
  | c :: r =>
      match skip with
      | S k => split_aux sep r k cur
      | O => if is_prefix sep s
             then cur :: split_aux sep r (List.length sep - 1) []
             else split_aux sep r 0 (cur ++ [c])
      end
  end.
Definition split (sep s : str) : list str := split_aux sep s 0 [].

(** [s.split()]: runs of white space separate, empty pieces are dropped. *)
Fixpoint split_ws_aux (s cur : str) : list str :=
  match s with
  | [] => match cur with [] => [] | _ => [cur] end
  | c :: r =>
      if is_space c
      then match cur with
           | [] => split_ws_aux r []
           | _ => cur :: split_ws_aux r []
           end
      else split_ws_aux r (cur ++ [c])
  end.
Definition split_ws (s : str) : list str := split_ws_aux s [].

(** ['\t'.join(l)] *)
Fixpoint join_tab (l : list str) : str :=
  match l with
  | [] => []
  | [s] => s
  | s :: r => s ++ [chTab] ++ join_tab r
  end.

(* ================================================================= *)
(** ** MD decoder (lines 340-361) *)

(** [re.findall('(\d+|\D+)', MD)]: the maximal runs of digits and of
    non-digits, in order. *)
Fixpoint findall_runs (s cur : str) : list str :=
  match s with
  | [] => match cur with [] => [] | _ => [cur] end
  | c :: r =>
      match cur with
      | [] => findall_runs r [c]
      | d :: _ =>
          if Bool.eqb (is_digit c) (is_digit d)
          then findall_runs r (cur ++ [c])
          else cur :: findall_runs r [c]
      end
  end.
Definition MDlist (MD : str) : list str := findall_runs MD [].

Record md_state : Type := {
  MDcounter : Z;
  alignment : str;
  ref_seq : str;
  newread : str
}.

Definition md_init : md_state :=
  {| MDcounter := 0; alignment := []; ref_seq := []; newread := [] |}.

(** One pass through the body of [for e in MDlist]. [int(e)] cannot fail
    on a run of digits. *)
Definition md_step (read : str) (st : md_state) (e : str) : result md_state :=
  if isdigit e then
    let e := digits_value e in
    Ok {| alignment := alignment st ++ repeat chDot (Z.to_nat e);
          ref_seq := ref_seq st ++ slice read (MDcounter st) (MDcounter st + e);
          newread := newread st ++ slice read (MDcounter st) (MDcounter st + e);
          MDcounter := MDcounter st + e |}
  else if has_char chCaret e then
    let ef := lstrip chCaret e in
    Ok {| alignment := alignment st ++ ef;
          ref_seq := ref_seq st;
          newread := newread st;
          MDcounter := MDcounter st |}
  else if isalpha e then
    r <- getitem read (MDcounter st) ;;
    Ok {| alignment := alignment st ++ e;
          ref_seq := ref_seq st ++ e;
          newread := newread st ++ [r];
          MDcounter := MDcounter st + len e |}
  else Ok st.

Fixpoint md_loop (read : str) (st : md_state) (l : list str) : result md_state :=
  match l with
  | [] => Ok st
  | e :: l' => st' <- md_step read st e ;; md_loop read st' l'
  end.

Definition md_decode (read MD : str) : result md_state :=
  md_loop read md_init (MDlist MD).

(** What the tokens of an MD string account for. *)
Definition is_deletion_run (e : str) : bool :=
  negb (isdigit e) && has_char chCaret e.

Definition read_consumed (e : str) : Z :=
  if isdigit e then digits_value e
  else if has_char chCaret e then 0
  else if isalpha e then len e
  else 0.

Definition deleted_bases (e : str) : Z :=
  if is_deletion_run e then len (lstrip chCaret e) else 0.

Definition sumZ (l : list Z) : Z := fold_right Z.add 0 l.

(* ================================================================= *)
(** ** Insertions and clips from the CIGAR (lines 363-400) *)

(** [cigarparser.findall(cigar)] with the pattern of line 226: a run of
    digits 0-9, possibly empty, directly followed by a capital letter A-Z. *)
Fixpoint cigar_findall (s digits : str) : list (str * char) :=
  match s with
  | [] => []
  | c :: r =>
      if is_digit c then cigar_findall r (digits ++ [c])
      else if is_upper c then (digits, c) :: cigar_findall r []
      else cigar_findall r []
  end.

Definition chI : char := 73.
Definition chS : char := 83.
Definition chD : char := 68.
Definition chH : char := 72.
Definition chP : char := 80.

Record cigar_state : Type := {
  insertions : list Z;
  softclips : list Z;
  cigarcount : Z
}.

Definition cigar_step (st : cigar_state) (p : str * char) : result cigar_state :=
  cigaraddition <- py_int (fst p) ;;
  let span := py_range (cigarcount st) (cigarcount st + cigaraddition) in
  Ok {| insertions := if snd p =? chI then insertions st ++ span
                      else insertions st;
        softclips := if snd p =? chI then softclips st
                     else if snd p =? chS then softclips st ++ span
                     else softclips st;
        cigarcount := cigarcount st + cigaraddition |}.

Fixpoint cigar_loop (st : cigar_state) (l : list (str * char)) : result cigar_state :=
  match l with
  | [] => Ok st
  | p :: l' => st' <- cigar_step st p ;; cigar_loop st' l'
  end.

Definition in_list (x : Z) (l : list Z) : bool := existsb (Z.eqb x) l.

Record redo_state : Type := {
  r_ref_seq : str;
  r_newread : str;
  alignmentcounter : Z
}.

(** One pass through the body of the loop of lines 386-400. *)
Definition redo_step (read alignment : str) (ins clips : list Z)
    (st : redo_state) (x : Z) : result redo_state :=
  if in_list x ins || in_list x clips then
    rx <- getitem read x ;;
    Ok {| r_ref_seq := r_ref_seq st ++ [chGap];
          r_newread := r_newread st ++ [rx];
          alignmentcounter := alignmentcounter st |}
  else
    rx <- getitem read x ;;
    refbasealn <- getitem alignment (alignmentcounter st) ;;
    Ok {| r_ref_seq := r_ref_seq st ++
                       [if refbasealn =? chDot then rx else refbasealn];
          r_newread := r_newread st ++ [rx];
          alignmentcounter := alignmentcounter st + 1 |}.

Fixpoint redo_loop (read alignment : str) (ins clips : list Z)
    (st : redo_state) (xs : list Z) : result redo_state :=
  match xs with
  | [] => Ok st
  | x :: xs' =>
      st' <- redo_step read alignment ins clips st x ;;
      redo_loop read alignment ins clips st' xs'
  end.

(** Lines 363-400. [md] is the state the MD decoder left; [col9] is the
    sequence column.  The iterable of line 386 is [zip(xrange(..), read)]:
    its evaluation looks [xrange] up. *)
Definition reconstruct (cigar col9 read : str) (md : md_state)
  : result (str * str) :=
  if has_char chI cigar || has_char chS cigar then
    cs <- cigar_loop {| insertions := []; softclips := []; cigarcount := 0 |}
                     (cigar_findall cigar []) ;;
    _ <- resolve "xrange" ;;
    let xs := map fst (combine (py_range 0 (len col9)) read) in
    st <- redo_loop read (alignment md) (insertions cs) (softclips cs)
            {| r_ref_seq := []; r_newread := []; alignmentcounter := 0 |} xs ;;
    Ok (r_ref_seq st, r_newread st)
  else Ok (ref_seq md, newread md).

(* ================================================================= *)
(** ** The state of [main] across records (lines 215-247) *)

Inductive out : Type :=
| Print (s : str)                            (* [print(s)] *)
| PrintDS (l_d l_m ratio lr : R)             (* line 625 *)
| PrintErr (s : str)                         (* [print(s, file=stderr)] *)
| PrintStats (fields : list (str * Z)).      (* lines 671-690 *)

Definition dict := list (str * Z).

Record state : Type := {
  clipexcluded : Z;
  indelexcluded : Z;
  noMD : Z;
  noGCexcluded : Z;
  excluded_threshold : Z;
  passed : Z;
  noquals : Z;
  maskings : Z;
  line_counter : Z;
  mismatch_dict : dict;
  mismatch_dict_rev : dict;
  (* [L_D], [L_M] are locals of [main]: unbound until a record is scored,
     then they keep the value of the last scored record *)
  L_D : option R;
  L_M : option R;
  stdout : list out
}.

Definition initial_state : state := {|
  clipexcluded := 0; indelexcluded := 0; noMD := 0; noGCexcluded := 0;
  excluded_threshold := 0; passed := 0; noquals := 0; maskings := 0;
  line_counter := 0; mismatch_dict := []; mismatch_dict_rev := [];
  L_D := None; L_M := None; stdout := []
|}.

Definition set_clipexcluded (v : Z) (s : state) : state :=
  {| clipexcluded := v; indelexcluded := indelexcluded s; noMD := noMD s;
     noGCexcluded := noGCexcluded s; excluded_threshold := excluded_threshold s;
     passed := passed s; noquals := noquals s; maskings := maskings s;
     line_counter := line_counter s; mismatch_dict := mismatch_dict s;
     mismatch_dict_rev := mismatch_dict_rev s; L_D := L_D s; L_M := L_M s;
     stdout := stdout s |}.

Definition set_indelexcluded (v : Z) (s : state) : state :=
  {| clipexcluded := clipexcluded s; indelexcluded := v; noMD := noMD s;
     noGCexcluded := noGCexcluded s; excluded_threshold := excluded_threshold s;
     passed := passed s; noquals := noquals s; maskings := maskings s;
     line_counter := line_counter s; mismatch_dict := mismatch_dict s;
     mismatch_dict_rev := mismatch_dict_rev s; L_D := L_D s; L_M := L_M s;
     stdout := stdout s |}.

Definition set_noMD (v : Z) (s : state) : state :=
  {| clipexcluded := clipexcluded s; indelexcluded := indelexcluded s; noMD := v;
     noGCexcluded := noGCexcluded s; excluded_threshold := excluded_threshold s;
     passed := passed s; noquals := noquals s; maskings := maskings s;
     line_counter := line_counter s; mismatch_dict := mismatch_dict s;
     mismatch_dict_rev := mismatch_dict_rev s; L_D := L_D s; L_M := L_M s;
     stdout := stdout s |}.

Definition set_excluded_threshold (v : Z) (s : state) : state :=
  {| clipexcluded := clipexcluded s; indelexcluded := indelexcluded s;
     noMD := noMD s; noGCexcluded := noGCexcluded s; excluded_threshold := v;
     passed := passed s; noquals := noquals s; maskings := maskings s;
     line_counter := line_counter s; mismatch_dict := mismatch_dict s;
     mismatch_dict_rev := mismatch_dict_rev s; L_D := L_D s; L_M := L_M s;
     stdout := stdout s |}.

Definition set_passed (v : Z) (s : state) : state :=
  {| clipexcluded := clipexcluded s; indelexcluded := indelexcluded s;
     noMD := noMD s; noGCexcluded := noGCexcluded s;
     excluded_threshold := excluded_threshold s;
     passed := v; noquals := noquals s; maskings := maskings s;
     line_counter := line_counter s; mismatch_dict := mismatch_dict s;
     mismatch_dict_rev := mismatch_dict_rev s; L_D := L_D s; L_M := L_M s;
     stdout := stdout s |}.

Definition set_noquals (v : Z) (s : state) : state :=
  {| clipexcluded := clipexcluded s; indelexcluded := indelexcluded s;
     noMD := noMD s; noGCexcluded := noGCexcluded s;
     excluded_threshold := excluded_threshold s;
     passed := passed s; noquals := v; maskings := maskings s;
     line_counter := line_counter s; mismatch_dict := mismatch_dict s;
     mismatch_dict_rev := mismatch_dict_rev s; L_D := L_D s; L_M := L_M s;
     stdout := stdout s |}.

Definition set_line_counter (v : Z) (s : state) : state :=
  {| clipexcluded := clipexcluded s; indelexcluded := indelexcluded s;
     noMD := noMD s; noGCexcluded := noGCexcluded s;
     excluded_threshold := excluded_threshold s;
     passed := passed s; noquals := noquals s; maskings := maskings s;
     line_counter := v; mismatch_dict := mismatch_dict s;
     mismatch_dict_rev := mismatch_dict_rev s; L_D := L_D s; L_M := L_M s;
     stdout := stdout s |}.

(** The scoring block leaves its likelihoods and both tables in the state. *)
Definition set_scored (l_d l_m : R) (d d_rev : dict) (s : state) : state :=
  {| clipexcluded := clipexcluded s; indelexcluded := indelexcluded s;
     noMD := noMD s; noGCexcluded := noGCexcluded s;
     excluded_threshold := excluded_threshold s;
     passed := passed s; noquals := noquals s; maskings := maskings s;
     line_counter := line_counter s; mismatch_dict := d;
     mismatch_dict_rev := d_rev; L_D := Some l_d; L_M := Some l_m;
     stdout := stdout s |}.

(** [print(...)]: one more item on the output. *)
Definition emit (o : out) (s : state) : state :=
  {| clipexcluded := clipexcluded s; indelexcluded := indelexcluded s;
     noMD := noMD s; noGCexcluded := noGCexcluded s;
     excluded_threshold := excluded_threshold s;
     passed := passed s; noquals := noquals s; maskings := maskings s;
     line_counter := line_counter s; mismatch_dict := mismatch_dict s;
     mismatch_dict_rev := mismatch_dict_rev s; L_D := L_D s; L_M := L_M s;
     stdout := stdout s ++ [o] |}.

(** [d[thekey] += 1], the key created at 1 when absent
    (lines 520-525, 535-540). *)
Fixpoint dict_incr (thekey : str) (d : dict) : dict :=
  match d with
  | [] => [(thekey, 1)]
  | (k, v) :: r =>
      if str_eqb k thekey then (k, v + 1) :: r else (k, v) :: dict_incr thekey r
  end.

(* ================================================================= *)
(** ** PMD score computation (lines 468-599) *)

Record score_state : Type := {
  sc_L_D : R;
  sc_L_M : R;
  sc_quals : str;        (* [quals], what the likelihoods read *)
  sc_newquals : str;     (* [newquals], the copy for the output *)
  sc_dict : dict;
  sc_dict_rev : dict
}.

Definition set_L (l_d l_m : R) (s : score_state) : score_state :=
  {| sc_L_D := l_d; sc_L_M := l_m; sc_quals := sc_quals s;
     sc_newquals := sc_newquals s; sc_dict := sc_dict s;
     sc_dict_rev := sc_dict_rev s |}.

Definition set_quals (q : str) (s : score_state) : score_state :=
  {| sc_L_D := sc_L_D s; sc_L_M := sc_L_M s; sc_quals := q;
     sc_newquals := sc_newquals s; sc_dict := sc_dict s;
     sc_dict_rev := sc_dict_rev s |}.

Definition set_newquals (q : str) (s : score_state) : score_state :=
  {| sc_L_D := sc_L_D s; sc_L_M := sc_L_M s; sc_quals := sc_quals s;
     sc_newquals := q; sc_dict := sc_dict s;
     sc_dict_rev := sc_dict_rev s |}.

Definition set_dict (d : dict) (s : score_state) : score_state :=
  {| sc_L_D := sc_L_D s; sc_L_M := sc_L_M s; sc_quals := sc_quals s;
     sc_newquals := sc_newquals s; sc_dict := d;
     sc_dict_rev := sc_dict_rev s |}.

Definition set_dict_rev (d : dict) (s : score_state) : score_state :=
  {| sc_L_D := sc_L_D s; sc_L_M := sc_L_M s; sc_quals := sc_quals s;
     sc_newquals := sc_newquals s; sc_dict := sc_dict s;
     sc_dict_rev := d |}.

(** [newphred=int(prob2phred(newprob))], [newqual=chr(int(newphred)+33)]
    and [quals[0:i]+newqual+quals[(i+1):]]. *)
Definition rescale (quals : str) (i : Z) (newprob : R) : result str :=
  ph <- prob2phred newprob ;;
  let newphred := py_int_of_float ph in
  newqual <- py_chr (newphred + 33) ;;
  Ok (slice quals 0 i ++ [newqual] ++ slice_from quals (i + 1)).

(** [zip(real_read, real_ref_seq, range(0, len(real_ref_seq)))] *)
Definition zip3 (real_read real_ref_seq : str) : list (char * char * Z) :=
  combine (combine real_read real_ref_seq) (py_range 0 (len real_ref_seq)).

Section Scoring.

Variable o : options.
Variable readlen : Z.
Variable real_read : str.

(** The CpG test: [if i+1 >= readlen: break] then
    [if seq[i+1] != want: continue]. *)
Definition cpg_gate (seq : str) (i : Z) (want : char) (st : score_state)
  : result (flow score_state) :=
  if cpg o then
    if readlen <=? i + 1 then Ok (Break st)
    else c <- getitem seq (i + 1) ;;
         if c =? want then Ok (Next st) else Ok (Continue st)
  else Ok (Next st).

(** Lines 482-487. *)
Definition adjust_all (i z : Z) (st : score_state) : result (flow score_state) :=
  if adjustbaseq_all o then
    d_i <- getitem (adjustment_model_deam o) i ;;
    d_z <- getitem (adjustment_model_deam o) z ;;
    q <- getitem (sc_quals st) i ;;
    nq <- rescale (sc_quals st) i (d_i + d_z + phred2prob (q - 33))%R ;;
    Ok (Next (set_newquals nq st))
  else Ok (Next st).

(** Lines 489-511: a base below the quality threshold is not scored. *)
Definition low_quality (a b : char) (i z : Z) (qualsrev : str)
    (st : score_state) : result (flow score_state) :=
  q <- getitem (sc_quals st) i ;;
  if q - 33 <? baseq o then
    if adjustbaseq o then
      st1 <~ (if (b =? chC) && (a =? chT) then
                st' <~ cpg_gate real_read i chG st ;;
                newprob <- Newbaseq i (ancient_model_deam o) (sc_quals st') ;;
                nq <- rescale (sc_quals st') i newprob ;;
                Ok (Next (set_newquals nq st'))
              else Ok (Next st)) ;;
      st2 <~ (if (b =? chG) && (a =? chA) then
                st' <~ cpg_gate (rev real_read) i chC st1 ;;
                newprob <- Newbaseq z (ancient_model_deam o) qualsrev ;;
                nq <- rescale (sc_quals st') i newprob ;;
                Ok (Next (set_newquals nq st'))
              else Ok (Next st1)) ;;
      Ok (Continue st2)
    else Ok (Continue st)
  else Ok (Next st).

(** Lines 513-541.  Line 531 compares the list [[z+1]] with an [int]. *)
Definition count_deamination (a b : char) (i z : Z) (st : score_state)
  : result (flow score_state) :=
  if deamination o then
    st1 <~ (if b =? chC then
              st' <~ cpg_gate real_read i chG st ;;
              let thekey := [b] ++ [a] ++ py_str_int i in
              Ok (Next (set_dict (dict_incr thekey (sc_dict st')) st'))
            else Ok (Next st)) ;;
    st2 <~ (if b =? chG then
              st' <~ (if cpg o then
                        if readlen <=? i + 1 then Ok (Break st1)
                        else Err TypeError
                      else Ok (Next st1)) ;;
              let thekey := [b] ++ [a] ++ py_str_int z in
              Ok (Next (set_dict_rev (dict_incr thekey (sc_dict_rev st')) st'))
            else Ok (Next st1)) ;;
    Ok (Continue st2)
  else Ok (Next st).

(** Lines 547-596. *)
Definition score (a b : char) (i z : Z) (qualsrev : str) (st : score_state)
  : result (flow score_state) :=
  if readlen <=? i then Ok (Continue st) else
  st1 <~ (if b =? chC then
            st' <~ cpg_gate real_read i chG st ;;
            if a =? chT then
              m_d <- L_mismatch i (ancient_model_deam o) (sc_quals st')
                       (polymorphism_ancient o) ;;
              m_m <- L_mismatch i modern_model_deam (sc_quals st')
                       (polymorphism_contamination o) ;;
              let st'' := set_L (sc_L_D st' * m_d) (sc_L_M st' * m_m) st' in
              if adjustbaseq o then
                newprob <- Newbaseq i (ancient_model_deam o) (sc_quals st'') ;;
                nq <- rescale (sc_quals st'') i newprob ;;
                Ok (Next (set_quals nq st''))        (* line 561 *)
              else Ok (Next st'')
            else if a =? chC then
              m_d <- L_match i (ancient_model_deam o) (sc_quals st')
                       (polymorphism_ancient o) ;;
              m_m <- L_match i modern_model_deam (sc_quals st')
                       (polymorphism_contamination o) ;;
              Ok (Next (set_L (sc_L_D st' * m_d) (sc_L_M st' * m_m) st'))
            else Ok (Next st')
          else Ok (Next st)) ;;
  if b =? chG then
    st' <~ cpg_gate (rev real_read) i chC st1 ;;
    if a =? chA then
      m_d <- L_mismatch z (ancient_model_deam o) qualsrev
               (polymorphism_ancient o) ;;
      m_m <- L_mismatch z modern_model_deam qualsrev
               (polymorphism_contamination o) ;;
      let st'' := set_L (sc_L_D st' * m_d) (sc_L_M st' * m_m) st' in
      if adjustbaseq o then
        newprob <- Newbaseq z (ancient_model_deam o) qualsrev ;;
        nq <- rescale (sc_quals st'') i newprob ;;
        Ok (Next (set_newquals nq st''))             (* line 588 *)
      else Ok (Next st'')
    else if a =? chG then
      m_d <- L_match z (ancient_model_deam o) qualsrev
               (polymorphism_ancient o) ;;
      m_m <- L_match z modern_model_deam qualsrev
               (polymorphism_contamination o) ;;
      Ok (Next (set_L (sc_L_D st' * m_d) (sc_L_M st' * m_m) st'))
    else Ok (Next st')
  else Ok (Next st1).

(** One pass through the body of the loop of line 475. *)
Definition score_step (st : score_state) (abx : char * char * Z)
  : result (flow score_state) :=
  let '(a, b, x) := abx in
  if (a =? chN) || (b =? chN) then Ok (Continue st) else
  let start_position := 0 in
  let back_start_position := len real_read - 1 in
  let i := x - start_position in
  let z := back_start_position - x in
  let qualsrev := rev (sc_quals st) in
  if readlen <=? i then Ok (Break st) else
  st1 <~ adjust_all i z st ;;
  st2 <~ low_quality a b i z qualsrev st1 ;;
  st3 <~ count_deamination a b i z st2 ;;
  score a b i z qualsrev st3.

Fixpoint score_loop (st : score_state) (l : list (char * char * Z))
  : result score_state :=
  match l with
  | [] => Ok st
  | abx :: l' =>
      r <- score_step st abx ;;
      match r with
      | Break st' => Ok st'
      | Next st' | Continue st' => score_loop st' l'
      end
  end.

(** Lines 469-599: the final state of the loop, and [LR]. After the block
    [quals] is [newquals]. *)
Definition scoring_block (quals real_ref_seq : str) (d d_rev : dict)
  : result (score_state * R) :=
  st <- score_loop {| sc_L_D := 1; sc_L_M := 1; sc_quals := quals;
                      sc_newquals := quals; sc_dict := d; sc_dict_rev := d_rev |}
          (zip3 real_read real_ref_seq) ;;
  ratio <- fdiv (sc_L_D st) (sc_L_M st) ;;
  LR <- math_log ratio ;;
  Ok (st, LR).

End Scoring.

(* ================================================================= *)
(** ** One record (the body of the loop of line 248) *)

(** How a stage of the body hands the record on. *)
Inductive stage (A : Type) : Type :=
| Go (a : A)             (* the record goes on *)
| Skipped (s : state).   (* [continue]: on to the next line *)
Arguments Go {A} a.
Arguments Skipped {A} s.

Record sam : Type := {
  col : list str;
  read : str;
  readlen : Z;
  quals : str;
  cigar : str;
  reverse : bool
}.

Definition tag_DS : str := lit "DS:Z:".
Definition tag_MD : str := lit "MD:Z:".
Definition ch_r : char := 114.

Definition unsupported_cigar_message (cigar : str) : str :=
  lit "cigar found: " ++ cigar ++
  lit " PMDtools only supports cigar operations M, I, S and D. The alignment has been excluded".

(** [zip(real_read, real_ref_seq)] folded by the divergence filter
    (lines 438-452): [match], [mismatch], [mismatch_string]. *)
Definition pid_step (acc : Z * Z * str) (ab : char * char) : Z * Z * str :=
  let '(n_match, n_mismatch, mismatch_string) := acc in
  let '(a, b) := ab in
  if (a =? chGap) || (b =? chGap) then (n_match, n_mismatch, mismatch_string ++ [chGap])
  else if a =? chN then acc
  else if b =? chN then acc
  else if a =? b then (n_match + 1, n_mismatch, mismatch_string ++ lit "|")
  else if (b =? chC) && (a =? chT) then (n_match, n_mismatch, mismatch_string ++ lit "x")
  else if (b =? chG) && (a =? chA) then (n_match, n_mismatch, mismatch_string ++ lit "x")
  else (n_match, n_mismatch + 1, mismatch_string ++ lit "x").

Section PerRecord.

Variable o : options.
(** [float(s)] on a string and [str(round(x, 3))] belong to the Python
    runtime; they are parameters of the model. *)
Variable py_float : str -> result R.
Variable str_round3 : R -> str.

(** Lines 249-313: header lines, the columns, the admission filters. *)
Definition admission (st : state) (line : str) : result (stage (state * sam)) :=
  c0 <- getitem line 0 ;;
  if c0 =? chAt then
    Ok (Skipped (if header o then emit (Print (rstrip chNL line)) st else st))
  else
  let st := set_line_counter (line_counter st + 1) st in
  let col := split [chTab] line in
  readname <- getitem col 0 ;;
  c3 <- getitem col 3 ;;
  position <- py_int c3 ;;
  chrom <- getitem col 2 ;;
  if negb (str_eqb (chromosome o) []) && negb (str_eqb chrom (chromosome o))
  then Ok (Skipped st) else
  c4 <- getitem col 4 ;;
  MAPQ <- py_int c4 ;;
  read <- getitem col 9 ;;
  quals <- getitem col 10 ;;
  flag <- getitem col 1 ;;
  cigar <- getitem col 5 ;;
  if len quals <? 2 then Ok (Skipped (set_noquals (noquals st + 1) st)) else
  if noinsertions o && has_char chI cigar then Ok (Skipped st) else
  if nodeletions o && has_char chD cigar then Ok (Skipped st) else
  if onlyinsertions o && negb (has_char chI cigar) then Ok (Skipped st) else
  if onlydeletions o && negb (has_char chD cigar) then Ok (Skipped st) else
  if noindels o && (has_char chI cigar || has_char chD cigar)
  then Ok (Skipped (set_indelexcluded (indelexcluded st + 1) st)) else
  if noclips o && (has_char chS cigar || has_char chH cigar
                   || has_char chN cigar || has_char chP cigar)
  then Ok (Skipped (set_clipexcluded (clipexcluded st + 1) st)) else
  if onlyclips o && negb (has_char chS cigar) then Ok (Skipped st) else
  if has_char chH cigar || has_char chP cigar || has_char chN cigar then
    (* line 294 calls [prin] *)
    _ <- resolve "prin" ;;
    Ok (Skipped (emit (PrintErr (unsupported_cigar_message cigar)) st))
  else
  if MAPQ <? mapq o then Ok (Skipped st) else
  let reverse :=
    if isdigit flag then negb (Z.land (digits_value flag) 16 =? 0)
    else has_char ch_r flag in
  if notreverse o && reverse then Ok (Skipped st) else
  Ok (Go (st, {| col := col; read := read; readlen := len read;
                 quals := quals; cigar := cigar; reverse := reverse |})).

(** Lines 315-319: [PMDS], bound when the line carries a [DS:Z:] field. *)
Definition read_DS (line : str) : result (option R) :=
  if contains tag_DS line then
    rest <- getitem (split tag_DS line) 1 ;;
    tok <- getitem (split_ws (rstrip chNL rest)) 0 ;;
    PMDS <- py_float tok ;;
    Ok (Some PMDS)
  else Ok None.

Definition is_Some {A} (x : option A) : bool :=
  match x with Some _ => true | None => false end.

(** The condition of line 328. *)
Definition needs_alignment (DSfield : bool) : bool :=
  negb DSfield || writesamfield o || (0 <? basic o)
  || Rltb 0.01 (perc_identity o) || printalignments o || adjustbaseq o
  || adjustbaseq_all o || deamination o || dry o.

(** The condition of line 468. *)
Definition needs_score (DSfield : bool) : bool :=
  negb DSfield || (DSfield && writesamfield o) || (0 <? basic o)
  || adjustbaseq o || adjustbaseq_all o || deamination o || dry o.

(** Lines 334-338: the MD field, a missing one is counted. *)
Definition read_MD (st : state) (line : str) : stage str :=
  match getitem (split tag_MD line) 1 with
  | Err _ => Skipped (set_noMD (noMD st + 1) st)
  | Ok rest =>
      match getitem (split_ws rest) 0 with
      | Err _ => Skipped (set_noMD (noMD st + 1) st)
      | Ok tok => Go (rstrip chNL tok)
      end
  end.

(** What lines 330-407 bind: [real_read], [real_ref_seq], and [quals]
    in read orientation. *)
Record aligned : Type := {
  real_read : str;
  real_ref_seq : str;
  a_quals : str
}.

Definition align (st : state) (line : str) (r : sam)
  : result (stage aligned) :=
  match read_MD st line with
  | Skipped st' => Ok (Skipped st')
  | Go MD =>
      md <- md_decode (read r) MD ;;
      '(ref_seq, _) <- reconstruct (cigar r) (read r) (read r) md ;;
      if reverse r
      then Ok (Go {| real_read := revcomp (read r);
                     real_ref_seq := revcomp ref_seq;
                     a_quals := rev (quals r) |})
      else Ok (Go {| real_read := read r; real_ref_seq := ref_seq;
                     a_quals := quals r |})
  end.

(** Lines 414-428, the loop: does it print the line? *)
Fixpoint basic_loop (readlen start_position : Z) (quals : str)
    (l : list (char * char * Z)) : result bool :=
  match l with
  | [] => Ok false
  | (a, b, x) :: l' =>
      if a =? chN then basic_loop readlen start_position quals l'
      else if b =? chN then basic_loop readlen start_position quals l'
      else
        let i := x - start_position in
        if readlen <=? i then Ok false
        else if basic o <? i then Ok false
        else if (b =? chC) && (a =? chT) then
          q <- getitem quals i ;;
          if baseq o <? q - 33 then Ok true
          else basic_loop readlen start_position quals l'
        else basic_loop readlen start_position quals l'
  end.

Definition basic_filter (st : state) (line : str) (r : sam) (al : aligned)
  : result state :=
  let start_position :=
    len (real_read al) - len (lstrip chGap (real_read al)) in
  hit <- basic_loop (readlen r) start_position (a_quals al)
           (zip3 (real_read al) (real_ref_seq al)) ;;
  Ok (if hit then emit (Print (rstrip chNL line)) st else st).

(** Lines 431-458: [mismatch_string] when the record passes. *)
Definition divergence_filter (st : state) (al : aligned) : stage str :=
  let '(n_match, n_mismatch, mismatch_string) :=
    fold_left pid_step (combine (real_read al) (real_ref_seq al)) (0, 0, []) in
  if n_match + n_mismatch =? 0 then Skipped st      (* ZeroDivisionError *)
  else
    let perc := (1 * IZR n_match / IZR (n_match + n_mismatch))%R in
    if Rltb perc (perc_identity o) then Skipped st else Go mismatch_string.

(** Lines 601-606: under [--adjustbaseq] the quality column is replaced. *)
Definition rewrite_quals (line : str) (r : sam) (quals : str) : str :=
  if adjustbaseq o then
    let qualsp := if reverse r then rev quals else quals in
    join_tab (slice (col r) 0 10) ++ [chTab] ++ qualsp ++ [chTab]
      ++ join_tab (slice_from (col r) 11)
  else line.

(** Lines 611-622: the [DS:Z:] field is replaced or added. *)
Definition write_DS (line : str) (DSfield : bool) (LR : R) : str :=
  if writesamfield o then
    let line :=
      if DSfield then
        rstrip chTab
          (fold_left (fun newline c =>
                        if contains tag_DS c then newline
                        else newline ++ c ++ [chTab])
                     (split [chTab] line) [])
      else line in
    rstrip chNL line ++ [chTab] ++ tag_DS ++ str_round3 LR
  else line.

(** The condition of lines 631 and 639. *)
Definition threshold_given : bool :=
  Rltb (-10000) (threshold o) || Rltb (upperthreshold o) 1000000.

(** Lines 658-665. *)
Definition print_alignment (st : state) (al : option aligned)
    (mismatch_string : option str) (quals : str) : result (flow state) :=
  match al, mismatch_string with
  | Some a, Some ms =>
      Ok (Next (emit (Print [])
               (emit (Print quals)
               (emit (Print (real_ref_seq a))
               (emit (Print ms)
               (emit (Print (real_read a)) st))))))
  | _, _ => Err (NameError (lit "real_read"))
  end.

(** Lines 641-642: [LR] again, any exception is [continue]. *)
Definition LR_again (st : state) : option R :=
  match L_D st, L_M st with
  | Some l_d, Some l_m =>
      match fdiv l_d l_m with
      | Ok ratio => match math_log ratio with Ok v => Some v | Err _ => None end
      | Err _ => None
      end
  | _, _ => None
  end.

(** Lines 624-667: what is printed for a record that came this far. *)
Definition output_stage (st : state) (line : str) (LR : R)
    (al : option aligned) (mismatch_string : option str) (quals : str)
  : result (flow state) :=
  st1 <- (if printDS o then
            match L_D st, L_M st with
            | Some l_d, Some l_m =>
                ratio <- fdiv l_d l_m ;;
                Ok (emit (PrintDS l_d l_m ratio LR) st)
            | _, _ => Err (NameError (lit "L_D"))
            end
          else Ok st) ;;
  if dry o then Ok (Continue (emit (Print (rstrip chNL line)) st1)) else
  let st2 :=
    if threshold_given then
      if Rleb (threshold o) LR && Rltb LR (upperthreshold o)
      then emit (Print (rstrip chNL line)) st1
      else set_excluded_threshold (excluded_threshold st1 + 1) st1
    else st1 in
  st3 <~ (if printalignments o then
            if threshold_given then
              match LR_again st2 with
              | None => Ok (Continue st2)
              | Some LR =>
                  if Rltb LR (threshold o)
                     || (Rltb (upperthreshold o) LR
                         && Rltb (upperthreshold o) 1000000)
                  then Ok (Continue st2)
                  else print_alignment st2 al mismatch_string quals
              end
            else print_alignment st2 al mismatch_string quals
          else Ok (Next st2)) ;;
  let st4 := set_passed (passed st3 + 1) st3 in
  if maxreads o <=? passed st4 then Ok (Break st4) else Ok (Next st4).

(** The body of the loop of line 248.  [real_read], [real_ref_seq] are
    bound by the block of line 328; every later use sits under an option
    that opens that block too. *)
Definition process_line (st : state) (line : str) : result (flow state) :=
  adm <- admission st line ;;
  match adm with
  | Skipped st' => Ok (Continue st')
  | Go (st, r) =>
      PMDS <- read_DS line ;;
      let DSfield := is_Some PMDS in
      al <- (if needs_alignment DSfield then
               x <- align st line r ;;
               match x with
               | Skipped s => Ok (Skipped s)
               | Go a => Ok (Go (Some a))
               end
             else Ok (Go None)) ;;
      match al with
      | Skipped st' => Ok (Continue st')
      | Go al =>
          if 0 <? basic o then
            match al with
            | Some a => st' <- basic_filter st line r a ;; Ok (Continue st')
            | None => Err (NameError (lit "real_read"))
            end
          else
          let div :=
            if Rltb 0.01 (perc_identity o) || printalignments o then
              match al with
              | Some a =>
                  match divergence_filter st a with
                  | Skipped s => Ok (Skipped s)
                  | Go ms => Ok (Go (Some ms))
                  end
              | None => Err (NameError (lit "real_read"))
              end
            else Ok (Go None) in
          d <- div ;;
          match d with
          | Skipped st' => Ok (Continue st')
          | Go mismatch_string =>
              let quals0 := match al with
                            | Some a => a_quals a
                            | None => quals r
                            end in
              scored <-
                (if needs_score DSfield then
                   match al with
                   | Some a =>
                       '(sc, LR) <- scoring_block o (readlen r) (real_read a)
                                      (a_quals a) (real_ref_seq a)
                                      (mismatch_dict st) (mismatch_dict_rev st) ;;
                       Ok (set_scored (sc_L_D sc) (sc_L_M sc) (sc_dict sc)
                             (sc_dict_rev sc) st, LR, sc_newquals sc)
                   | None => Err (NameError (lit "real_read"))
                   end
                 else
                   match PMDS with
                   | Some LR => Ok (st, LR, quals0)
                   | None => Err (NameError (lit "LR"))
                   end) ;;
              let '(st, LR, quals) := scored in
              let line := rewrite_quals line r quals in
              let line := write_DS line DSfield LR in
              output_stage st line LR al mismatch_string quals
          end
      end
  end.

(** The loop of line 248 over the lines it is given. *)
Fixpoint main_loop (st : state) (lines : list str) : result state :=
  match lines with
  | [] => Ok st
  | line :: rest =>
      r <- process_line st line ;;
      match r with
      | Break st' => Ok st'
      | Next st' | Continue st' => main_loop st' rest
      end
  end.

(** The keyword arguments of the summary (lines 680-689), in order. *)
Definition stats_fields (st : state) : list (str * Z) :=
  [ (lit "clipexcluded", clipexcluded st);
    (lit "indelexcluded", indelexcluded st);
    (lit "noMD", noMD st);
    (lit "noGCexcluded", noGCexcluded st);
    (lit "passed", passed st);
    (lit "threshold", py_int_of_float (threshold o));
    (lit "excluded_threshold", excluded_threshold st);
    (lit "passed_seqs", passed st - excluded_threshold st) ].

(** [main] up to the summary (lines 203-690). The loop header of line 248
    reads [sys.stdin]; the frequency table of lines 693-734 is left out. *)
Definition main (lines : list str) : result state :=
  _ <- resolve "sys" ;;
  st <- main_loop initial_state lines ;;
  Ok (if stats o then emit (PrintStats (stats_fields st)) st else st).

End PerRecord.

(* ================================================================= *)
(** ** Notions used to state the properties *)

Definition flow_state {A} (f : flow A) : A :=
  match f with Next a | Continue a | Break a => a end.

(** The test a position of the scoring loop has to pass before its
    likelihoods are multiplied in: no [N], inside the read, base quality
    not below [--requirebaseq], and under [--CpG] the neighbour test. *)
Definition passes_filters (o : options) (readlen : Z) (real_read quals : str)
    (abx : char * char * Z) : bool :=
  let '(a, b, x) := abx in
  negb ((a =? chN) || (b =? chN))
  && (x <? readlen)
  && match getitem quals x with
     | Ok q => negb (q - 33 <? baseq o)
     | Err _ => false
     end
  && (negb (cpg o)
      || ((x + 1 <? readlen)
          && match getitem (if b =? chC then real_read else rev real_read)
                           (x + 1) with
             | Ok c => c =? (if b =? chC then chG else chC)
             | Err _ => false
             end)).

Definition is_CG (abx : char * char * Z) : bool :=
  let '(_, b, _) := abx in (b =? chC) || (b =? chG).

Definition scorable (o : options) (readlen : Z) (real_read quals : str)
    (abx : char * char * Z) : bool :=
  is_CG abx && passes_filters o readlen real_read quals abx.

(** The scoring loop leaves the likelihoods and the scored qualities alone. *)
Definition same_score (s s' : score_state) : Prop :=
  sc_L_D s' = sc_L_D s /\ sc_L_M s' = sc_L_M s /\ sc_quals s' = sc_quals s.

(** [--adjustbaseq] on top of other options. *)
Definition set_adjustbaseq (v : bool) (o : options) : options := {|
  maxreads := maxreads o; chromosome := chromosome o; mapq := mapq o;
  baseq := baseq o; deamination := deamination o; cpg := cpg o;
  range := range o; polymorphism_ancient := polymorphism_ancient o;
  polymorphism_contamination := polymorphism_contamination o;
  PMDpparam := PMDpparam o; PMDconstant := PMDconstant o;
  maxlength := maxlength o; noclips := noclips o; noindels := noindels o;
  onlyclips := onlyclips o; onlydeletions := onlydeletions o;
  onlyinsertions := onlyinsertions o; nodeletions := nodeletions o;
  noinsertions := noinsertions o; notreverse := notreverse o;
  printDS := printDS o; printalignments := printalignments o;
  threshold := threshold o; upperthreshold := upperthreshold o;
  perc_identity := perc_identity o; adjustbaseq := v;
  adjustbaseq_all := adjustbaseq_all o; dry := dry o; header := header o;
  writesamfield := writesamfield o; basic := basic o; stats := stats o
|}.

(** [--threshold] and [--printalignments] on top of other options. *)
Definition set_threshold (v : R) (o : options) : options := {|
  maxreads := maxreads o; chromosome := chromosome o; mapq := mapq o;
  baseq := baseq o; deamination := deamination o; cpg := cpg o;
  range := range o; polymorphism_ancient := polymorphism_ancient o;
  polymorphism_contamination := polymorphism_contamination o;
  PMDpparam := PMDpparam o; PMDconstant := PMDconstant o;
  maxlength := maxlength o; noclips := noclips o; noindels := noindels o;
  onlyclips := onlyclips o; onlydeletions := onlydeletions o;
  onlyinsertions := onlyinsertions o; nodeletions := nodeletions o;
  noinsertions := noinsertions o; notreverse := notreverse o;
  printDS := printDS o; printalignments := printalignments o;
  threshold := v; upperthreshold := upperthreshold o;
  perc_identity := perc_identity o; adjustbaseq := adjustbaseq o;
  adjustbaseq_all := adjustbaseq_all o; dry := dry o; header := header o;
  writesamfield := writesamfield o; basic := basic o; stats := stats o
|}.

Definition set_printalignments (v : bool) (o : options) : options := {|
  maxreads := maxreads o; chromosome := chromosome o; mapq := mapq o;
  baseq := baseq o; deamination := deamination o; cpg := cpg o;
  range := range o; polymorphism_ancient := polymorphism_ancient o;
  polymorphism_contamination := polymorphism_contamination o;
  PMDpparam := PMDpparam o; PMDconstant := PMDconstant o;
  maxlength := maxlength o; noclips := noclips o; noindels := noindels o;
  onlyclips := onlyclips o; onlydeletions := onlydeletions o;
  onlyinsertions := onlyinsertions o; nodeletions := nodeletions o;
  noinsertions := noinsertions o; notreverse := notreverse o;
  printDS := printDS o; printalignments := v;
  threshold := threshold o; upperthreshold := upperthreshold o;
  perc_identity := perc_identity o; adjustbaseq := adjustbaseq o;
  adjustbaseq_all := adjustbaseq_all o; dry := dry o; header := header o;
  writesamfield := writesamfield o; basic := basic o; stats := stats o
|}.

(** A SAM line from its columns. *)
Definition sam_line (cols : list string) : str :=
  join_tab (map lit cols) ++ [chNL].

(** The options under which no CIGAR filter and no chromosome filter can
    drop a record before line 293. *)
Definition cigar_filters_off (o : options) : bool :=
  str_eqb (chromosome o) [] && negb (noinsertions o) && negb (nodeletions o)
  && negb (onlyinsertions o) && negb (onlydeletions o) && negb (noindels o)
  && negb (noclips o) && negb (onlyclips o).

(** The chromosome filter of lines 260-261 lets the record through. *)
Definition chromosome_passes (o : options) (chrom : str) : bool :=
  str_eqb (chromosome o) [] || str_eqb chrom (chromosome o).

(** [match + mismatch] of the divergence filter (line 455). *)
Definition overlap (al : aligned) : Z :=
  let '(n_match, n_mismatch, _) :=
    fold_left pid_step (combine (real_read al) (real_ref_seq al)) (0, 0, []) in
  n_match + n_mismatch.

(** Stand-ins for [float(s)] and [str(round(x, 3))], for closed examples
    on lines that carry no [DS:Z:] field and options that write none. *)
Definition no_float : str -> result R := fun _ => Err ValueError.
Definition no_repr : R -> str := fun _ => [].

(** The alphabet of [revcomp], as a test. *)
Definition in_alphabetb (c : char) : bool :=
  (c =? chA) || (c =? chC) || (c =? chG) || (c =? chT) || (c =? chN)
  || (c =? chGap).

(** Every run of letters that the MD decoder treats as substituted bases
    holds one base. *)
Definition single_base_runs (l : list str) : bool :=
  forallb (fun e => isdigit e || has_char chCaret e || negb (isalpha e)
                    || (len e =? 1)) l.

(** No token of the MD string is a deletion run. *)
Definition no_deletion_runs (l : list str) : bool :=
  forallb (fun e => negb (is_deletion_run e)) l.

(** What lines 395-399 read from one entry of the trace and the read base
    under it. *)
Definition trace_base (tr : char * char) : char :=
  let '(refbasealn, r) := tr in if refbasealn =? chDot then r else refbasealn.

(** A token of one class: not empty, all digits or no digit. *)
Definition one_class (e : str) : Prop :=
  e <> [] /\ (forallb is_digit e = true \/ existsb is_digit e = false).

(** [--deamination] on top of other options. *)
Definition set_deamination (v : bool) (o : options) : options := {|
  maxreads := maxreads o; chromosome := chromosome o; mapq := mapq o;
  baseq := baseq o; deamination := v; cpg := cpg o; range := range o;
  polymorphism_ancient := polymorphism_ancient o;
  polymorphism_contamination := polymorphism_contamination o;
  PMDpparam := PMDpparam o; PMDconstant := PMDconstant o;
  maxlength := maxlength o; noclips := noclips o; noindels := noindels o;
  onlyclips := onlyclips o; onlydeletions := onlydeletions o;
  onlyinsertions := onlyinsertions o; nodeletions := nodeletions o;
  noinsertions := noinsertions o; notreverse := notreverse o;
  printDS := printDS o; printalignments := printalignments o;
  threshold := threshold o; upperthreshold := upperthreshold o;
  perc_identity := perc_identity o; adjustbaseq := adjustbaseq o;
  adjustbaseq_all := adjustbaseq_all o; dry := dry o; header := header o;
  writesamfield := writesamfield o; basic := basic o; stats := stats o
|}.

(** [--adjustbaseq_all] on top of other options. *)
Definition set_adjustbaseq_all (v : bool) (o : options) : options := {|
  maxreads := maxreads o; chromosome := chromosome o; mapq := mapq o;
  baseq := baseq o; deamination := deamination o; cpg := cpg o;
  range := range o; polymorphism_ancient := polymorphism_ancient o;
  polymorphism_contamination := polymorphism_contamination o;
  PMDpparam := PMDpparam o; PMDconstant := PMDconstant o;
  maxlength := maxlength o; noclips := noclips o; noindels := noindels o;
  onlyclips := onlyclips o; onlydeletions := onlydeletions o;
  onlyinsertions := onlyinsertions o; nodeletions := nodeletions o;
  noinsertions := noinsertions o; notreverse := notreverse o;
  printDS := printDS o; printalignments := printalignments o;
  threshold := threshold o; upperthreshold := upperthreshold o;
  perc_identity := perc_identity o; adjustbaseq := adjustbaseq o;
  adjustbaseq_all := v; dry := dry o; header := header o;
  writesamfield := writesamfield o; basic := basic o; stats := stats o
|}.

(** [s'] is [s] with at most the position [i] rewritten. *)
Definition differs_at (s s' : str) (i : Z) : Prop :=
  len s' = len s /\
  forall j, 0 <= j -> j <> i -> getitem s' j = getitem s j.

(** The scoring loop leaves both quality strings alone. *)
Definition same_quals (s s' : score_state) : Prop :=
  sc_quals s' = sc_quals s /\ sc_newquals s' = sc_newquals s.

(** [--perc_identity] on top of other options. *)
Definition set_perc_identity (v : R) (o : options) : options := {|
  maxreads := maxreads o; chromosome := chromosome o; mapq := mapq o;
  baseq := baseq o; deamination := deamination o; cpg := cpg o;
  range := range o; polymorphism_ancient := polymorphism_ancient o;
  polymorphism_contamination := polymorphism_contamination o;
  PMDpparam := PMDpparam o; PMDconstant := PMDconstant o;
  maxlength := maxlength o; noclips := noclips o; noindels := noindels o;
  onlyclips := onlyclips o; onlydeletions := onlydeletions o;
  onlyinsertions := onlyinsertions o; nodeletions := nodeletions o;
  noinsertions := noinsertions o; notreverse := notreverse o;
  printDS := printDS o; printalignments := printalignments o;
  threshold := threshold o; upperthreshold := upperthreshold o;
  perc_identity := v; adjustbaseq := adjustbaseq o;
  adjustbaseq_all := adjustbaseq_all o; dry := dry o; header := header o;
  writesamfield := writesamfield o; basic := basic o; stats := stats o
|}.


(** A pair of aligned bases that the divergence filter does not count as a
    mismatch: a gap, an [N], equal bases, or a C>T or G>A substitution. *)
Definition damage_or_match (ab : char * char) : bool :=
  let '(a, b) := ab in
  (a =? chGap) || (b =? chGap) || (a =? chN) || (b =? chN) || (a =? b)
  || ((b =? chC) && (a =? chT)) || ((b =? chG) && (a =? chA)).

(** A pair that lines 443-444 pass over: an [N] and no gap. *)
Definition skipped_N (ab : char * char) : bool :=
  let '(a, b) := ab in
  negb ((a =? chGap) || (b =? chGap)) && ((a =? chN) || (b =? chN)).

(** [--basic] on top of other options. *)
Definition set_basic (v : Z) (o : options) : options := {|
  maxreads := maxreads o; chromosome := chromosome o; mapq := mapq o;
  baseq := baseq o; deamination := deamination o; cpg := cpg o;
  range := range o; polymorphism_ancient := polymorphism_ancient o;
  polymorphism_contamination := polymorphism_contamination o;
  PMDpparam := PMDpparam o; PMDconstant := PMDconstant o;
  maxlength := maxlength o; noclips := noclips o; noindels := noindels o;
  onlyclips := onlyclips o; onlydeletions := onlydeletions o;
  onlyinsertions := onlyinsertions o; nodeletions := nodeletions o;
  noinsertions := noinsertions o; notreverse := notreverse o;
  printDS := printDS o; printalignments := printalignments o;
  threshold := threshold o; upperthreshold := upperthreshold o;
  perc_identity := perc_identity o; adjustbaseq := adjustbaseq o;
  adjustbaseq_all := adjustbaseq_all o; dry := dry o; header := header o;
  writesamfield := writesamfield o; basic := v; stats := stats o
|}.

(** The number of times [c] occurs in [s]. *)
Definition count_char (c : char) (s : str) : Z := len (filter (Z.eqb c) s).

(** [--number] on top of other options. *)
Definition set_maxreads (v : Z) (o : options) : options := {|
  maxreads := v; chromosome := chromosome o; mapq := mapq o; baseq := baseq o;
  deamination := deamination o; cpg := cpg o; range := range o;
  polymorphism_ancient := polymorphism_ancient o;
  polymorphism_contamination := polymorphism_contamination o;
  PMDpparam := PMDpparam o; PMDconstant := PMDconstant o;
  maxlength := maxlength o; noclips := noclips o; noindels := noindels o;
  onlyclips := onlyclips o; onlydeletions := onlydeletions o;
  onlyinsertions := onlyinsertions o; nodeletions := nodeletions o;
  noinsertions := noinsertions o; notreverse := notreverse o;
  printDS := printDS o; printalignments := printalignments o;
  threshold := threshold o; upperthreshold := upperthreshold o;
  perc_identity := perc_identity o; adjustbaseq := adjustbaseq o;
  adjustbaseq_all := adjustbaseq_all o; dry := dry o; header := header o;
  writesamfield := writesamfield o; basic := basic o; stats := stats o
|}.

(** Two states with the same [passed], [excluded_threshold] and output. *)
Definition same_output (s s' : state) : Prop :=
  passed s' = passed s /\ excluded_threshold s' = excluded_threshold s /\
  stdout s' = stdout s.

(** The lines written by [print(line.rstrip('\n'))] and the other plain
    [print] calls, as opposed to the diagnostics and the summary. *)
Definition is_Print (x : out) : bool :=
  match x with Print _ => true | _ => false end.

Definition printed_lines (st : state) : Z := len (filter is_Print (stdout st)).

(* ================================================================= *)
(** ** The frequency table of [--deamination] (lines 693-734) *)

Definition pairs : list str :=
  map lit ["CT"; "CA"; "CG"; "CC"; "GA"; "GT"; "GC"; "GG"]%string.

(** [d[thekey]], [None] for [KeyError]. *)
Fixpoint dict_get (thekey : str) (d : dict) : option Z :=
  match d with
  | [] => None
  | (k, v) :: r => if str_eqb k thekey then Some v else dict_get thekey r
  end.

(** Lines 698-709: [itotaldict[i]] from [mismatch_dict], [ztotaldict[i]]
    from [mismatch_dict_rev]. *)
Definition table_total (d : dict) (i : Z) : Z :=
  fold_left (fun total p =>
               match dict_get (p ++ py_str_int i) d with
               | Some v => total + v
               | None => total
               end) pairs 0.

(** What one pass of the loop of line 715 prints. *)
Inductive cell : Type :=
| NoCount                (* ['0.00000\t'] *)
| Fraction (frac : R).   (* [str(round(frac,5))+'\t'] *)

Definition cell_value (c : cell) : R :=
  match c with NoCount => 0%R | Fraction frac => frac end.

Section FrequencyTable.

Variable d d_rev : dict.

(** Lines 716-733.  [frac] is a local of [main]: it keeps its value from
    one pass to the next. *)
Definition table_cell (i : Z) (frac : option R) (p : str)
  : result (cell * option R) :=
  let thekey := p ++ py_str_int i in
  p0 <- getitem p 0 ;;
  r <- (frac1 <~ (if p0 =? chC then
                    match dict_get thekey d with
                    | None => Ok (Continue frac)
                    | Some thecount =>
                        f <- fdiv (1 * IZR thecount) (IZR (table_total d i)) ;;
                        Ok (Next (Some f))
                    end
                  else Ok (Next frac)) ;;
        if p0 =? chG then
          match dict_get thekey d_rev with
          | None => Ok (Continue frac1)
          | Some thecount =>
              f <- fdiv (1 * IZR thecount) (IZR (table_total d_rev i)) ;;
              Ok (Next (Some f))
          end
        else Ok (Next frac1)) ;;
  match r with
  | Next (Some f) => Ok (Fraction f, Some f)
  | Next None => Err (NameError (lit "frac"))
  | Continue fr | Break fr => Ok (NoCount, fr)
  end.

(** The loop of line 715 over [pairs]. *)
Fixpoint table_row (i : Z) (frac : option R) (ps : list str)
  : result (list cell * option R) :=
  match ps with
  | [] => Ok ([], frac)
  | p :: ps' =>
      '(c, frac1) <- table_cell i frac p ;;
      '(cs, frac2) <- table_row i frac1 ps' ;;
      Ok (c :: cs, frac2)
  end.

(** The loop of line 713: one row for each position. *)
Fixpoint table_rows (frac : option R) (l : list Z)
  : result (list (Z * list cell)) :=
  match l with
  | [] => Ok []
  | i :: l' =>
      '(cs, frac1) <- table_row i frac pairs ;;
      rows <- table_rows frac1 l' ;;
      Ok ((i, cs) :: rows)
  end.

End FrequencyTable.

(** Lines 693-734, without the heading of line 711. *)
Definition deamination_table (o : options) (st : state)
  : result (list (Z * list cell)) :=
  if deamination o
  then table_rows (mismatch_dict st) (mismatch_dict_rev st) None
         (py_range 0 (range o))
  else Ok [].

(** A table of counts whose keys all start with the reference base [c]. *)
Definition counts_from (c : char) (d : dict) : Prop :=
  Forall (fun kv : str * Z => 1 <= snd kv /\ exists rest, fst kv = c :: rest) d.

(** Both tables of a state are tables of counts. *)
Definition tables_wf (st : state) : Prop :=
  counts_from chC (mismatch_dict st) /\ counts_from chG (mismatch_dict_rev st).

(** The count a table holds under a key, 0 when it has none. *)
Definition count_of (d : dict) (thekey : str) : Z :=
  match dict_get thekey d with Some v => v | None => 0 end.

Definition sumR (l : list R) : R := fold_right Rplus 0%R l.

(** What the table is to hold in row [i] under the pair [p]: the count
    under that key over the total of the row, in the table of the
    reference base of [p]. *)
Definition cell_spec (d d_rev : dict) (i : Z) (p : str) (c : cell) : Prop :=
  (getitem p 0 = Ok chC ->
   cell_value c = (IZR (count_of d (p ++ py_str_int i))
                   / IZR (table_total d i))%R) /\
  (getitem p 0 = Ok chG ->
   cell_value c = (IZR (count_of d_rev (p ++ py_str_int i))
                   / IZR (table_total d_rev i))%R) /\
  (0 <= cell_value c <= 1)%R.

(** Parameters under which every entry of the damage tables and both
    polymorphism priors are probabilities, the entries strictly between 0
    and 1. *)
Definition model_in_range (o : options) : Prop :=
  (0 <= PMDpparam o <= 1)%R /\ (0 < PMDconstant o)%R /\
  (PMDpparam o + PMDconstant o < 1)%R /\
  (0 <= polymorphism_ancient o < 1)%R /\
  (0 <= polymorphism_contamination o < 1)%R.

(** The scoring loop with none of the options that rewrite qualities or
    count substitutions. *)
Definition plain_scoring (o : options) : Prop :=
  adjustbaseq o = false /\ adjustbaseq_all o = false /\ deamination o = false.

(** What the plain scoring loop keeps true: the qualities are the ones of
    the record, both likelihoods are positive and at most 1. *)
Definition scoring_inv (quals : str) (st : score_state) : Prop :=
  sc_quals st = quals /\ sc_newquals st = quals /\
  (0 < sc_L_D st <= 1)%R /\ (0 < sc_L_M st <= 1)%R.

(* ################################################################# *)
(** * Properties *)

(* ================================================================= *)
(** ** Sequences and indexing *)

Lemma len_nonneg {A} (s : list A) : 0 <= len s.
Proof. unfold len. lia. Qed.

Lemma len_app {A} (s t : list A) : len (s ++ t) = len s + len t.
Proof. unfold len. rewrite length_app. lia. Qed.

Lemma len_repeat {A} (a : A) (n : nat) : len (repeat a n) = Z.of_nat n.
Proof. unfold len. now rewrite repeat_length. Qed.

Lemma len_py_range lo hi : len (py_range lo hi) = Z.max 0 (hi - lo).
Proof. unfold len, py_range. rewrite length_map, length_seq. lia. Qed.

Lemma getitem_out_of_range {A} (s : list A) (i : Z) :
  len s <= i -> getitem s i = Err IndexError.
Proof.
  intros H. pose proof (len_nonneg s) as Hs. unfold getitem.
  destruct (i <? 0) eqn:Hi; [lia|].
  destruct (i <? 0) eqn:Hi'; [lia|].
  destruct (nth_error s (Z.to_nat i)) eqn:Hn; [|reflexivity].
  assert (nth_error s (Z.to_nat i) <> None) as Hne by congruence.
  apply nth_error_Some in Hne. unfold len in H. lia.
Qed.

Lemma getitem_nth {A} (s : list A) (i : Z) (a : A) :
  0 <= i -> nth_error s (Z.to_nat i) = Some a -> getitem s i = Ok a.
Proof.
  intros Hi Hn. unfold getitem.
  destruct (i <? 0) eqn:E; [lia|]. rewrite E. now rewrite Hn.
Qed.

Lemma getitem_map {A B} (f : A -> B) (s : list A) (i : Z) (a : A) :
  getitem s i = Ok a -> getitem (map f s) i = Ok (f a).
Proof.
  unfold getitem, len. rewrite length_map.
  destruct (_ <? 0); [discriminate|].
  rewrite nth_error_map.
  destruct (nth_error s _); [|discriminate].
  intros H; injection H as ->. reflexivity.
Qed.

Lemma getitem_py_range lo hi i :
  0 <= i < hi - lo -> getitem (py_range lo hi) i = Ok (lo + i).
Proof.
  intros H. apply getitem_nth; [lia|]. unfold py_range.
  rewrite nth_error_map, nth_error_seq.
  destruct (Nat.ltb_spec (Z.to_nat i) (Z.to_nat (hi - lo))); [|lia].
  simpl. f_equal. lia.
Qed.

Lemma getitem_repeat {A} (a : A) (n : nat) (i : Z) :
  0 <= i < Z.of_nat n -> getitem (repeat a n) i = Ok a.
Proof.
  intros H. apply getitem_nth; [lia|].
  apply nth_error_repeat. lia.
Qed.

(* ================================================================= *)
(** ** Checks on small inputs *)

Example revcomp_AACG : revcomp (lit "AACG") = lit "CGTT".
Proof. reflexivity. Qed.

Example revcomp_drops_other_letters : revcomp (lit "AxC") = lit "GT".
Proof. reflexivity. Qed.

Example MDlist_runs :
  MDlist (lit "10A5^AC6") = map lit ["10"; "A"; "5"; "^AC"; "6"]%string.
Proof. reflexivity. Qed.

Example md_decode_76 :
  let read := repeat chA 76 in
  md_decode read (lit "76")
  = Ok {| MDcounter := 76; alignment := repeat chDot 76;
          ref_seq := read; newread := read |}.
Proof. vm_compute. reflexivity. Qed.

Example md_decode_10A65 :
  let read := repeat chC 76 in
  md_decode read (lit "10A65")
  = Ok {| MDcounter := 76;
          alignment := repeat chDot 10 ++ [chA] ++ repeat chDot 65;
          ref_seq := repeat chC 10 ++ [chA] ++ repeat chC 65;
          newread := read |}.
Proof. vm_compute. reflexivity. Qed.

Example reconstruct_76M :
  let read := repeat chA 76 in
  (md <- md_decode read (lit "76") ;; reconstruct (lit "76M") read read md)
  = Ok (read, read).
Proof. vm_compute. reflexivity. Qed.

Example cigar_findall_10S66M :
  cigar_findall (lit "10S66M") [] = [(lit "10", chS); (lit "66", 77)].
Proof. reflexivity. Qed.

Example split_tags :
  split tag_DS (lit "a	DS:Z:1.5	b") = [lit "a	"; lit "1.5	b"].
Proof. reflexivity. Qed.

Example py_int_forms :
  py_int (lit " 42") = Ok 42 /\ py_int (lit "-7") = Ok (-7) /\
  py_int (lit "1_000") = Ok 1000 /\ py_int (lit "") = Err ValueError /\
  py_int (lit "4x") = Err ValueError.
Proof. repeat split. Qed.

Example getitem_negative_index :
  getitem (lit "abc") (-1) = Ok 99 /\ getitem (lit "abc") 3 = Err IndexError.
Proof. split; reflexivity. Qed.

Example thekey_C_T_12 : [chC] ++ [chT] ++ py_str_int 12 = lit "CT12".
Proof. reflexivity. Qed.

(* ================================================================= *)
(** ** Reverse complement *)

Lemma fold_revcomp_base_app (l acc : str) :
  fold_left revcomp_base l acc = acc ++ fold_left revcomp_base l [].
Proof.
  revert acc. induction l as [|c l IH]; intros acc; simpl.
  - now rewrite app_nil_r.
  - rewrite IH. rewrite (IH (revcomp_base [] c)).
    rewrite app_assoc. f_equal.
    unfold revcomp_base.
    repeat match goal with |- context [if ?b then _ else _] => destruct b end;
      simpl; now rewrite ?app_nil_r.
Qed.

Lemma revcomp_app (s t : str) : revcomp (s ++ t) = revcomp t ++ revcomp s.
Proof.
  unfold revcomp. rewrite rev_app_distr, fold_left_app.
  now rewrite fold_revcomp_base_app.
Qed.

Lemma revcomp_base_twice (c : char) :
  in_alphabet c -> revcomp (revcomp [c]) = [c].
Proof.
  unfold in_alphabet. intros [-> | [-> | [-> | [-> | [-> | ->]]]]]; reflexivity.
Qed.

(** C6. For every string over the alphabet A, C, G, T, N, gap, reverse
    complementing twice gives the string back. *)
Theorem revcomp_involutive (s : str) :
  Forall in_alphabet s -> revcomp (revcomp s) = s.
Proof.
  induction 1 as [|c s Hc _ IH]; [reflexivity|].
  change (c :: s) with ([c] ++ s).
  rewrite revcomp_app, revcomp_app, IH.
  now rewrite revcomp_base_twice.
Qed.

Lemma revcomp_involutive_witness :
  Forall in_alphabet (lit "ACGTN-") /\
  revcomp (revcomp (lit "ACGTN-")) = lit "ACGTN-".
Proof.
  assert (H : Forall in_alphabet (lit "ACGTN-")).
  { unfold in_alphabet. repeat constructor; vm_compute; tauto. }
  split; [exact H | exact (revcomp_involutive (lit "ACGTN-") H)].
Defined.

(* ================================================================= *)
(** ** Match and mismatch probabilities *)

(** C3. At a position where the damage model and the quality string are
    defined, the mismatch probability is one minus the bracketed sum with
    E = 10^(-phred/10)/3, and the match probability is one minus the
    mismatch probability. *)
Theorem L_mismatch_formula (fposition : Z) (fmodel : list R) (fquals : str)
    (fpoly D : R) (q : char) :
  getitem fmodel fposition = Ok D ->
  getitem fquals fposition = Ok q ->
  let phred := q - 33 in
  let E := (Rpower 10 (- IZR phred / 10) / 3)%R in
  let Q := fpoly in
  exists P_mismatch P_match : R,
    L_mismatch fposition fmodel fquals fpoly = Ok P_mismatch /\
    L_match fposition fmodel fquals fpoly = Ok P_match /\
    P_mismatch
    = (1 - ((1 - D) * (1 - E) * (1 - Q) + D * E * (1 - Q) + E * Q * (1 - D)))%R /\
    P_match = (1 - P_mismatch)%R.
Proof.
  intros HD Hq phred E Q.
  unfold L_mismatch, L_match. rewrite HD, Hq. simpl.
  eexists. eexists. split; [reflexivity|]. split; [reflexivity|].
  unfold phred2prob. fold phred. fold E. fold Q.
  split; [reflexivity | ring].
Qed.

Lemma L_mismatch_formula_witness :
  exists P_mismatch P_match : R,
    L_mismatch 0 [0.31%R] (lit "I") 0.001 = Ok P_mismatch /\
    L_match 0 [0.31%R] (lit "I") 0.001 = Ok P_match /\
    P_mismatch
    = (1 - ((1 - 0.31) * (1 - Rpower 10 (- IZR (73 - 33) / 10) / 3) * (1 - 0.001)
            + 0.31 * (Rpower 10 (- IZR (73 - 33) / 10) / 3) * (1 - 0.001)
            + Rpower 10 (- IZR (73 - 33) / 10) / 3 * 0.001 * (1 - 0.31)))%R /\
    P_match = (1 - P_mismatch)%R.
Proof.
  apply (L_mismatch_formula 0 [0.31%R] (lit "I") 0.001 0.31 73);
    reflexivity.
Defined.

(* ================================================================= *)
(** ** The damage tables *)

Lemma len_ancient_model_deam o : len (ancient_model_deam o) = 999.
Proof.
  unfold ancient_model_deam, len. rewrite length_map.
  fold (len (py_range 1 1000)). now rewrite len_py_range.
Qed.

Lemma len_adjustment_model_deam o : len (adjustment_model_deam o) = 999.
Proof.
  unfold adjustment_model_deam, len. rewrite length_map.
  fold (len (py_range 1 1000)). now rewrite len_py_range.
Qed.

Lemma len_modern_model_deam : len modern_model_deam = 1000.
Proof. unfold modern_model_deam. now rewrite len_repeat. Qed.

Lemma getitem_ancient o i :
  0 <= i < 999 ->
  getitem (ancient_model_deam o) i
  = Ok (geometric (PMDpparam o) (i + 1) (PMDconstant o)).
Proof.
  intros H. unfold ancient_model_deam.
  rewrite (getitem_map _ _ i (1 + i)).
  - now rewrite Z.add_comm.
  - apply getitem_py_range. lia.
Qed.

Lemma getitem_modern i :
  0 <= i < 1000 -> getitem modern_model_deam i = Ok 0.001%R.
Proof. intros H. apply getitem_repeat. lia. Qed.




(* ================================================================= *)
(** ** The MD decoder *)

Lemma digits_value_acc_nonneg (s : str) (acc : Z) :
  forallb is_digit s = true -> 0 <= acc ->
  0 <= fold_left (fun a c => 10 * a + (c - 48)) s acc.
Proof.
  revert acc. induction s as [|c s IH]; intros acc Hs Hacc;
    cbn [fold_left forallb] in *; [lia|].
  apply andb_prop in Hs as [Hc Hs]. apply IH; [exact Hs|].
  unfold is_digit in Hc. apply andb_prop in Hc as [H1 H2].
  apply Z.leb_le in H1, H2. lia.
Qed.

Lemma digits_value_nonneg (e : str) : isdigit e = true -> 0 <= digits_value e.
Proof.
  intros H. apply digits_value_acc_nonneg; [|lia].
  destruct e; [discriminate | exact H].
Qed.

Lemma md_step_counts (read : str) (st st' : md_state) (e : str) :
  md_step read st e = Ok st' ->
  MDcounter st' = MDcounter st + read_consumed e /\
  len (alignment st')
  = len (alignment st) + read_consumed e + deleted_bases e.
Proof.
  unfold md_step, read_consumed, deleted_bases, is_deletion_run.
  destruct (isdigit e) eqn:Hd; simpl.
  - intros H; injection H as <-; simpl.
    rewrite len_app, len_repeat.
    pose proof (digits_value_nonneg e Hd). lia.
  - destruct (has_char chCaret e) eqn:Hc; simpl.
    + intros H; injection H as <-; simpl. rewrite len_app. lia.
    + destruct (isalpha e) eqn:Ha.
      * destruct (getitem read (MDcounter st)); simpl; [|discriminate].
        intros H; injection H as <-; simpl. rewrite len_app. lia.
      * intros H; injection H as <-. lia.
Qed.

Lemma md_loop_counts (read : str) (l : list str) (st st' : md_state) :
  md_loop read st l = Ok st' ->
  MDcounter st' = MDcounter st + sumZ (map read_consumed l) /\
  len (alignment st')
  = len (alignment st) + sumZ (map read_consumed l)
    + sumZ (map deleted_bases l).
Proof.
  revert st. induction l as [|e l IH]; intros st; simpl.
  - intros H; injection H as <-. lia.
  - destruct (md_step read st e) as [st1|] eqn:Hstep; simpl; [|discriminate].
    intros H. apply IH in H. apply md_step_counts in Hstep. lia.
Qed.




(* ================================================================= *)
(** ** Insertions and soft clips *)

Lemma resolve_xrange : resolve "xrange" = Err (NameError (lit "xrange")).
Proof. reflexivity. Qed.

(** No record with an insertion or a soft clip gets its alignment. *)
Lemma reconstruct_insertion_or_clip (cigar col9 read : str) (md : md_state) :
  has_char chI cigar || has_char chS cigar = true ->
  forall r, reconstruct cigar col9 read md <> Ok r.
Proof.
  intros H r. unfold reconstruct. rewrite H.
  unfold bind at 1. destruct (cigar_loop _ _); [|discriminate].
  rewrite resolve_xrange. discriminate.
Qed.

(** What the loop of lines 386-400 does with the indices [0 .. 75]:
    ten gaps in front of the reference, the read as it is. *)
Lemma redo_loop_10S66M :
  let read := repeat chA 76 in
  redo_loop read (repeat chDot 66) [] (py_range 0 10)
    {| r_ref_seq := []; r_newread := []; alignmentcounter := 0 |}
    (py_range 0 76)
  = Ok {| r_ref_seq := repeat chGap 10 ++ repeat chA 66;
          r_newread := read;
          alignmentcounter := 66 |}.
Proof. vm_compute. reflexivity. Qed.

(** C2, at the input of the claim: CIGAR [10S66M], MD [66], a read of 76
    bases.  The reconstruction stops at the name [xrange]. *)
Theorem reconstruct_10S66M :
  let read := repeat chA 76 in
  (md <- md_decode read (lit "66") ;;
   reconstruct (lit "10S66M") read read md)
  = Err (NameError (lit "xrange")).
Proof. vm_compute. reflexivity. Qed.

(* ================================================================= *)
(** ** Unsupported CIGAR operations *)

Section Records.

Variable py_float : str -> result R.
Variable str_round3 : R -> str.

(** What [admission] does once the columns are known, up to line 272. *)
Lemma admission_columns (o : options) (st : state) (line : str) (c : char)
    (c0 c1 c2 c3 c4 c5 c6 c7 c8 c9 c10 : str) (rest : list str)
    (position MAPQ : Z) :
  getitem line 0 = Ok c -> c <> chAt ->
  split [chTab] line
  = c0 :: c1 :: c2 :: c3 :: c4 :: c5 :: c6 :: c7 :: c8 :: c9 :: c10 :: rest ->
  py_int c3 = Ok position -> py_int c4 = Ok MAPQ ->
  chromosome_passes o c2 = true ->
  len c10 < 2 ->
  admission o st line
  = Ok (Skipped (set_noquals (noquals st + 1)
                   (set_line_counter (line_counter st + 1) st))).
Proof.
  intros Hc Hat Hsplit H3 H4 Hchr Hq.
  unfold admission. rewrite Hc. simpl.
  destruct (c =? chAt) eqn:E; [apply Z.eqb_eq in E; contradiction|].
  rewrite Hsplit. cbn [getitem]. simpl. rewrite H3. simpl.
  rewrite <- negb_orb. fold (chromosome_passes o c2). rewrite Hchr.
  simpl. rewrite H4. simpl.
  destruct (len c10 <? 2) eqn:E2; [reflexivity | lia].
Qed.

(** C7. Under options that let the record reach the CIGAR check of line
    293, a record with H, P or N in its CIGAR raises [NameError] for the
    name [prin]: the loop over the lines ends there, nothing is printed and
    the lines that follow are not read. *)
Theorem unsupported_cigar_aborts (o : options) (st : state) (line : str)
    (lines : list str) (c : char)
    (c0 c1 c2 c3 c4 c5 c6 c7 c8 c9 c10 : str) (rest : list str)
    (position MAPQ : Z) :
  cigar_filters_off o = true ->
  getitem line 0 = Ok c -> c <> chAt ->
  split [chTab] line
  = c0 :: c1 :: c2 :: c3 :: c4 :: c5 :: c6 :: c7 :: c8 :: c9 :: c10 :: rest ->
  py_int c3 = Ok position -> py_int c4 = Ok MAPQ ->
  2 <= len c10 ->
  has_char chH c5 || has_char chP c5 || has_char chN c5 = true ->
  main_loop o py_float str_round3 st (line :: lines)
  = Err (NameError (lit "prin")).
Proof.
  intros Ho Hc Hat Hsplit H3 H4 Hq Hcig.
  unfold cigar_filters_off in Ho.
  repeat (apply andb_prop in Ho as [Ho ?]).
  repeat match goal with
         | H : negb ?b = true |- _ => apply negb_true_iff in H
         end.
  cbn [main_loop]. unfold process_line, admission. rewrite Hc. simpl.
  destruct (c =? chAt) eqn:E; [apply Z.eqb_eq in E; contradiction|].
  rewrite Hsplit. simpl. rewrite H3. simpl. rewrite Ho. simpl.
  rewrite H4. simpl.
  destruct (len c10 <? 2) eqn:E2; [lia|].
  repeat match goal with
         | H : ?f o = false |- _ => rewrite H
         end.
  simpl. rewrite Hcig. reflexivity.
Qed.

End Records.

Lemma unsupported_cigar_aborts_witness :
  let line := sam_line ["r1"; "0"; "chr1"; "100"; "30"; "5H10M"; "*"; "0"; "0";
                        "ACGTACGTAC"; "IIIIIIIIII"; "MD:Z:10"]%string in
  let next := sam_line ["r2"; "0"; "chr1"; "200"; "30"; "10M"; "*"; "0"; "0";
                        "ACGTACGTAC"; "IIIIIIIIII"; "MD:Z:10"]%string in
  main_loop default_options no_float no_repr initial_state [line; next]
  = Err (NameError (lit "prin")).
Proof.
  intros line next.
  eapply (unsupported_cigar_aborts no_float no_repr default_options
            initial_state line [next] 114
            (lit "r1") (lit "0") (lit "chr1") (lit "100") (lit "30")
            (lit "5H10M") (lit "*") (lit "0") (lit "0") (lit "ACGTACGTAC")
            (lit "IIIIIIIIII") [lit "MD:Z:10" ++ [chNL]] 100 30);
    try reflexivity.
  - discriminate.
  - vm_compute. discriminate.
Defined.

(* ================================================================= *)
(** ** Records that are skipped *)

Lemma Rltb_true (x y : R) : (x < y)%R -> Rltb x y = true.
Proof. intros H. unfold Rltb. destruct (Rlt_dec x y); [reflexivity | contradiction]. Qed.

Lemma Rleb_true (x y : R) : (x <= y)%R -> Rleb x y = true.
Proof. intros H. unfold Rleb. destruct (Rle_dec x y); [reflexivity | contradiction]. Qed.

Lemma split_aux_no_sep (sep s cur : str) :
  contains sep s = false -> split_aux sep s 0 cur = [cur ++ s].
Proof.
  revert cur. induction s as [|c s IH]; intros cur H.
  - simpl. now rewrite app_nil_r.
  - cbn [contains] in H. apply orb_false_iff in H as [Hp Hc].
    cbn [split_aux]. rewrite Hp, (IH _ Hc), <- app_assoc. reflexivity.
Qed.

Lemma read_MD_missing (st : state) (line : str) :
  contains tag_MD line = false ->
  read_MD st line = Skipped (set_noMD (noMD st + 1) st).
Proof.
  intros H. unfold read_MD, split. rewrite (split_aux_no_sep _ _ _ H).
  reflexivity.
Qed.

Section SkippedRecords.

Variable o : options.
Variable py_float : str -> result R.
Variable str_round3 : R -> str.

Lemma missing_MD_skip (st st1 : state) (line : str) (lines : list str)
    (r : sam) (PMDS : option R) :
  admission o st line = Ok (Go (st1, r)) ->
  read_DS py_float line = Ok PMDS ->
  needs_alignment o (is_Some PMDS) = true ->
  contains tag_MD line = false ->
  main_loop o py_float str_round3 st (line :: lines)
  = main_loop o py_float str_round3 (set_noMD (noMD st1 + 1) st1) lines.
Proof.
  intros Hadm HDS Hneed HMD.
  cbn [main_loop]. unfold process_line. rewrite Hadm. cbn [bind].
  rewrite HDS. cbn [bind]. rewrite Hneed.
  unfold align. rewrite (read_MD_missing _ _ HMD). reflexivity.
Qed.

Lemma short_quals_skip (st : state) (line : str) (lines : list str) (c : char)
    (c0 c1 c2 c3 c4 c5 c6 c7 c8 c9 c10 : str) (rest : list str)
    (position MAPQ : Z) :
  getitem line 0 = Ok c -> c <> chAt ->
  split [chTab] line
  = c0 :: c1 :: c2 :: c3 :: c4 :: c5 :: c6 :: c7 :: c8 :: c9 :: c10 :: rest ->
  py_int c3 = Ok position -> py_int c4 = Ok MAPQ ->
  chromosome_passes o c2 = true ->
  len c10 < 2 ->
  main_loop o py_float str_round3 st (line :: lines)
  = main_loop o py_float str_round3
      (set_noquals (noquals st + 1)
         (set_line_counter (line_counter st + 1) st)) lines.
Proof.
  intros Hc Hat Hsplit H3 H4 Hchr Hq.
  cbn [main_loop]. unfold process_line.
  rewrite (admission_columns o st line c c0 c1 c2 c3 c4 c5 c6 c7 c8 c9 c10 rest
             position MAPQ Hc Hat Hsplit H3 H4 Hchr Hq).
  reflexivity.
Qed.

Lemma zero_overlap_skip (st st1 : state) (line : str) (lines : list str)
    (r : sam) (PMDS : option R) (al : aligned) :
  admission o st line = Ok (Go (st1, r)) ->
  read_DS py_float line = Ok PMDS ->
  align st1 line r = Ok (Go al) ->
  basic o <= 0 ->
  Rltb 0.01 (perc_identity o) || printalignments o = true ->
  overlap al = 0 ->
  main_loop o py_float str_round3 st (line :: lines)
  = main_loop o py_float str_round3 st1 lines.
Proof.
  intros Hadm HDS Hal Hbasic Hpid Hov.
  assert (Hneed : needs_alignment o (is_Some PMDS) = true).
  { unfold needs_alignment. apply orb_true_iff in Hpid as [H | H]; rewrite H;
      now rewrite ?orb_true_r. }
  cbn [main_loop]. unfold process_line. rewrite Hadm. cbn [bind].
  rewrite HDS. cbn [bind]. rewrite Hneed, Hal. cbn [bind].
  destruct (0 <? basic o) eqn:E; [lia|].
  rewrite Hpid. unfold divergence_filter. unfold overlap in Hov.
  destruct (fold_left pid_step _ _) as [[n_match n_mismatch] ms].
  rewrite Hov. reflexivity.
Qed.

Lemma stats_reports_noMD (st : state) :
  In (lit "noMD", noMD st) (stats_fields o st).
Proof. unfold stats_fields. simpl. tauto. Qed.

Lemma stats_ignores_noquals (st : state) (v : Z) :
  stats_fields o (set_noquals v st) = stats_fields o st.
Proof. reflexivity. Qed.

End SkippedRecords.

(** C10, the claim at a concrete input: under [--printalignments] a record
    whose read is all [N] has no overlap to compute the identity on; it is
    dropped and the state is the one admission left, no counter of skipped
    records has moved. *)
Lemma skip_counters_counterexample :
  let o := set_printalignments true default_options in
  let line := sam_line ["r1"; "0"; "chr1"; "100"; "30"; "2M"; "*"; "0"; "0";
                        "NN"; "II"; "MD:Z:2"]%string in
  main_loop o no_float no_repr initial_state [line]
  = Ok (set_line_counter 1 initial_state)
  /\ stats_fields o (set_line_counter 1 initial_state)
     = stats_fields o initial_state.
Proof.
  intros o line. split; [|reflexivity].
  change (Ok (set_line_counter 1 initial_state))
    with (main_loop o no_float no_repr (set_line_counter 1 initial_state) []).
  eapply (zero_overlap_skip o no_float no_repr initial_state _ line []
            _ None {| real_read := lit "NN"; real_ref_seq := lit "NN";
                      a_quals := lit "II" |}).
  - vm_compute. reflexivity.
  - reflexivity.
  - vm_compute. reflexivity.
  - vm_compute. discriminate.
  - apply orb_true_r.
  - reflexivity.
Qed.

(** C10, amended. A record without an MD field is dropped and counted in
    [noMD], which the summary reports; a record whose quality string has
    fewer than two characters is dropped and counted in [noquals], which
    the summary does not report; a record with no overlap for the percent
    identity is dropped and no counter moves.  In each case the loop goes on
    with the lines that follow. *)
Theorem recoverable_skips (o : options) (py_float : str -> result R)
    (str_round3 : R -> str) :
  (forall (st st1 : state) (line : str) (lines : list str) (r : sam)
          (PMDS : option R),
     admission o st line = Ok (Go (st1, r)) ->
     read_DS py_float line = Ok PMDS ->
     needs_alignment o (is_Some PMDS) = true ->
     contains tag_MD line = false ->
     main_loop o py_float str_round3 st (line :: lines)
     = main_loop o py_float str_round3 (set_noMD (noMD st1 + 1) st1) lines) /\
  (forall st : state, In (lit "noMD", noMD st) (stats_fields o st)) /\
  (forall (st : state) (line : str) (lines : list str) (c : char)
          (c0 c1 c2 c3 c4 c5 c6 c7 c8 c9 c10 : str) (rest : list str)
          (position MAPQ : Z),
     getitem line 0 = Ok c -> c <> chAt ->
     split [chTab] line
     = c0 :: c1 :: c2 :: c3 :: c4 :: c5 :: c6 :: c7 :: c8 :: c9 :: c10 :: rest ->
     py_int c3 = Ok position -> py_int c4 = Ok MAPQ ->
     chromosome_passes o c2 = true ->
     len c10 < 2 ->
     main_loop o py_float str_round3 st (line :: lines)
     = main_loop o py_float str_round3
         (set_noquals (noquals st + 1)
            (set_line_counter (line_counter st + 1) st)) lines) /\
  (forall (st : state) (v : Z),
     stats_fields o (set_noquals v st) = stats_fields o st) /\
  (forall (st st1 : state) (line : str) (lines : list str) (r : sam)
          (PMDS : option R) (al : aligned),
     admission o st line = Ok (Go (st1, r)) ->
     read_DS py_float line = Ok PMDS ->
     align st1 line r = Ok (Go al) ->
     basic o <= 0 ->
     Rltb 0.01 (perc_identity o) || printalignments o = true ->
     overlap al = 0 ->
     main_loop o py_float str_round3 st (line :: lines)
     = main_loop o py_float str_round3 st1 lines).
Proof.
  split; [|split; [|split; [|split]]].
  - intros; eapply missing_MD_skip; eassumption.
  - apply stats_reports_noMD.
  - intros; eapply short_quals_skip; eassumption.
  - apply stats_ignores_noquals.
  - intros; eapply zero_overlap_skip; eassumption.
Qed.

Lemma recoverable_skips_witness :
  let no_md := sam_line ["r1"; "0"; "chr1"; "100"; "30"; "2M"; "*"; "0"; "0";
                         "AC"; "II"; "NM:i:0"]%string in
  let no_qual := sam_line ["r2"; "0"; "chr1"; "100"; "30"; "2M"; "*"; "0"; "0";
                           "AC"; "*"; "MD:Z:2"]%string in
  let all_n := sam_line ["r3"; "0"; "chr1"; "100"; "30"; "2M"; "*"; "0"; "0";
                         "NN"; "II"; "MD:Z:2"]%string in
  main_loop default_options no_float no_repr initial_state [no_md]
  = Ok (set_noMD 1 (set_line_counter 1 initial_state)) /\
  main_loop default_options no_float no_repr initial_state [no_qual]
  = Ok (set_noquals 1 (set_line_counter 1 initial_state)) /\
  main_loop (set_printalignments true default_options) no_float no_repr
    initial_state [all_n]
  = Ok (set_line_counter 1 initial_state).
Proof.
  intros no_md no_qual all_n.
  destruct (recoverable_skips default_options no_float no_repr)
    as (Hmd & _ & Hq & _ & _).
  destruct (recoverable_skips (set_printalignments true default_options)
              no_float no_repr) as (_ & _ & _ & _ & Hov).
  split; [|split].
  - rewrite (Hmd initial_state (set_line_counter 1 initial_state) no_md []
               {| col := split [chTab] no_md; read := lit "AC"; readlen := 2;
                  quals := lit "II"; cigar := lit "2M"; reverse := false |}
               None); reflexivity.
  - rewrite (Hq initial_state no_qual [] 114
               (lit "r2") (lit "0") (lit "chr1") (lit "100") (lit "30")
               (lit "2M") (lit "*") (lit "0") (lit "0") (lit "AC") (lit "*")
               [lit "MD:Z:2" ++ [chNL]] 100 30);
      try reflexivity.
    discriminate.
  - rewrite (Hov initial_state (set_line_counter 1 initial_state) all_n []
               {| col := split [chTab] all_n; read := lit "NN"; readlen := 2;
                  quals := lit "II"; cigar := lit "2M"; reverse := false |}
               None {| real_read := lit "NN"; real_ref_seq := lit "NN";
                       a_quals := lit "II" |});
      try reflexivity.
    apply orb_true_r.
Defined.

(* ================================================================= *)
(** ** The score filter *)

Lemma Rleb_true_iff (x y : R) : Rleb x y = true <-> (x <= y)%R.
Proof.
  unfold Rleb. destruct (Rle_dec x y); split; intros; try easy.
Qed.

Lemma Rltb_true_iff (x y : R) : Rltb x y = true <-> (x < y)%R.
Proof.
  unfold Rltb. destruct (Rlt_dec x y); split; intros; try easy.
Qed.

Lemma in_interval_iff (o : options) (LR : R) :
  Rleb (threshold o) LR && Rltb LR (upperthreshold o) = true
  <-> (threshold o <= LR < upperthreshold o)%R.
Proof.
  rewrite andb_true_iff, Rleb_true_iff, Rltb_true_iff. tauto.
Qed.

(** C8. When a score threshold is given (and neither [--dry] nor
    [--printalignments]), a record that reaches the output stage has its
    line printed exactly when [threshold <= LR < upperthreshold]; otherwise
    nothing of it is printed and [excluded_threshold] counts it. *)
Theorem threshold_filter (o : options) (st : state) (line : str) (LR : R)
    (al : option aligned) (mismatch_string : option str) (quals : str)
    (f : flow state) :
  dry o = false ->
  printalignments o = false ->
  threshold_given o = true ->
  output_stage o st line LR al mismatch_string quals = Ok f ->
  exists printed : list out,
    stdout (flow_state f) = stdout st ++ printed /\
    (In (Print (rstrip chNL line)) printed
     <-> (threshold o <= LR < upperthreshold o)%R) /\
    ((threshold o <= LR < upperthreshold o)%R ->
     excluded_threshold (flow_state f) = excluded_threshold st) /\
    (~ (threshold o <= LR < upperthreshold o)%R ->
     excluded_threshold (flow_state f) = excluded_threshold st + 1).
Proof.
  intros Hdry Hpa Hth Hout. unfold output_stage in Hout.
  rewrite Hdry, Hpa, Hth in Hout.
  pose proof (in_interval_iff o LR) as Hint.
  assert (Hst1 : exists st1 ds,
             stdout st1 = stdout st ++ ds /\
             excluded_threshold st1 = excluded_threshold st /\
             ~ In (Print (rstrip chNL line)) ds /\
             (let st2 :=
                if Rleb (threshold o) LR && Rltb LR (upperthreshold o)
                then emit (Print (rstrip chNL line)) st1
                else set_excluded_threshold (excluded_threshold st1 + 1) st1 in
              st3 <~ Ok (Next st2) ;;
              (let st4 := set_passed (passed st3 + 1) st3 in
               if maxreads o <=? passed st4 then Ok (Break st4)
               else Ok (Next st4))) = Ok f).
  { destruct (printDS o).
    - destruct (L_D st) as [l_d|]; [|discriminate].
      destruct (L_M st) as [l_m|]; [|discriminate].
      destruct (fdiv l_d l_m) as [ratio|]; [|discriminate].
      exists (emit (PrintDS l_d l_m ratio LR) st), [PrintDS l_d l_m ratio LR].
      repeat split; try exact Hout.
      intros [H|[]]; discriminate.
    - exists st, []. rewrite app_nil_r. repeat split; try exact Hout.
      intros []. }
  destruct Hst1 as (st1 & ds & Hds & Hex & Hnot & Hf). cbn [andthen] in Hf.
  destruct (Rleb (threshold o) LR && Rltb LR (upperthreshold o)) eqn:E.
  - exists (ds ++ [Print (rstrip chNL line)]).
    assert (Hin : (threshold o <= LR < upperthreshold o)%R) by now apply Hint.
    destruct (maxreads o <=? _) in Hf; injection Hf as <-; simpl;
      rewrite Hds, Hex, app_assoc;
      (split; [reflexivity|]; split; [|split]);
      [ split; [intros _; exact Hin
               | intros _; apply in_or_app; right; now left]
      | reflexivity
      | intros H; contradiction
      | split; [intros _; exact Hin
               | intros _; apply in_or_app; right; now left]
      | reflexivity
      | intros H; contradiction ].
  - exists ds.
    assert (Hout' : ~ (threshold o <= LR < upperthreshold o)%R).
    { intros H. apply Hint in H. discriminate. }
    destruct (maxreads o <=? _) in Hf; injection Hf as <-; simpl;
      rewrite Hds, Hex;
      (split; [reflexivity|]; split; [|split]);
      [ split; intros H; contradiction
      | intros H; contradiction
      | reflexivity
      | split; intros H; contradiction
      | intros H; contradiction
      | reflexivity ].
Qed.

Lemma threshold_filter_witness :
  let o := set_threshold 3 default_options in
  let line := lit "r1" in
  let f := Next (set_passed 1 (emit (Print line) initial_state)) in
  dry o = false /\
  printalignments o = false /\
  threshold_given o = true /\
  output_stage o initial_state line 5 None None [] = Ok f /\
  exists printed : list out,
    stdout (flow_state f) = stdout initial_state ++ printed /\
    (In (Print (rstrip chNL line)) printed
     <-> (threshold o <= 5 < upperthreshold o)%R) /\
    ((threshold o <= 5 < upperthreshold o)%R ->
     excluded_threshold (flow_state f) = excluded_threshold initial_state) /\
    (~ (threshold o <= 5 < upperthreshold o)%R ->
     excluded_threshold (flow_state f)
     = excluded_threshold initial_state + 1).
Proof.
  intros o line f.
  assert (H1 : dry o = false) by reflexivity.
  assert (H2 : printalignments o = false) by reflexivity.
  assert (H3 : threshold_given o = true).
  { unfold threshold_given, o.
    cbn [threshold upperthreshold set_threshold default_options].
    rewrite Rltb_true; [reflexivity | lra]. }
  assert (H4 : output_stage o initial_state line 5 None None [] = Ok f).
  { unfold output_stage. rewrite H3.
    unfold o. cbn [printDS dry printalignments threshold upperthreshold
                   maxreads set_threshold default_options bind].
    rewrite Rleb_true by lra. rewrite Rltb_true by lra. reflexivity. }
  split; [exact H1|]. split; [exact H2|]. split; [exact H3|].
  split; [exact H4|].
  exact (threshold_filter o initial_state line 5 None None [] f H1 H2 H3 H4).
Defined.

(* ================================================================= *)
(** ** The scoring loop: what leaves the likelihoods alone *)

Lemma same_score_refl (s : score_state) : same_score s s.
Proof. now repeat split. Qed.

Lemma same_score_trans (s1 s2 s3 : score_state) :
  same_score s1 s2 -> same_score s2 s3 -> same_score s1 s3.
Proof.
  unfold same_score. intros (A & B & C) (D & E & F).
  repeat split; congruence.
Qed.

Ltac solve_same :=
  solve [unfold same_score; simpl; repeat split; reflexivity].

Section ScoringLoop.

Variable o : options.
Variable readlen : Z.
Variable real_read : str.

Lemma cpg_gate_state (seq : str) (i : Z) (want : char) (st : score_state)
    (f : flow score_state) :
  cpg_gate o readlen seq i want st = Ok f -> flow_state f = st.
Proof.
  unfold cpg_gate. destruct (cpg o).
  - destruct (readlen <=? i + 1).
    + intros H; injection H as <-. reflexivity.
    + destruct (getitem seq (i + 1)) as [c|]; simpl; [|discriminate].
      destruct (c =? want); intros H; injection H as <-; reflexivity.
  - intros H; injection H as <-. reflexivity.
Qed.

Lemma cpg_gate_next (seq : str) (i : Z) (want : char) (st st' : score_state) :
  cpg_gate o readlen seq i want st = Ok (Next st') ->
  st' = st /\
  (cpg o = false \/
   (i + 1 <? readlen) = true /\ getitem seq (i + 1) = Ok want).
Proof.
  unfold cpg_gate. destruct (cpg o).
  - destruct (readlen <=? i + 1) eqn:E; [discriminate|].
    destruct (getitem seq (i + 1)) as [c|]; simpl; [|discriminate].
    destruct (c =? want) eqn:Ec; [|discriminate].
    intros H; injection H as <-. apply Z.eqb_eq in Ec as ->.
    split; [reflexivity|]. right. split; [|reflexivity].
    apply Z.ltb_lt. apply Z.leb_gt in E. lia.
  - intros H; injection H as <-. now split; [|left].
Qed.

Lemma adjust_all_same (i z : Z) (st : score_state) (f : flow score_state) :
  adjust_all o i z st = Ok f -> same_score st (flow_state f).
Proof.
  unfold adjust_all. destruct (adjustbaseq_all o).
  - destruct (getitem (adjustment_model_deam o) i); simpl; [|discriminate].
    destruct (getitem (adjustment_model_deam o) z); simpl; [|discriminate].
    destruct (getitem (sc_quals st) i); simpl; [|discriminate].
    destruct (rescale _ _ _); simpl; [|discriminate].
    intros H; injection H as <-. simpl. solve_same.
  - intros H; injection H as <-. simpl. solve_same.
Qed.

(** The rescaling blocks of the low-quality branch. *)
Lemma rescale_block_same (seq : str) (i pos : Z) (want : char)
    (qs : score_state -> str) (st : score_state) (f : flow score_state) :
  (st' <~ cpg_gate o readlen seq i want st ;;
   newprob <- Newbaseq pos (ancient_model_deam o) (qs st') ;;
   nq <- rescale (sc_quals st') i newprob ;;
   Ok (Next (set_newquals nq st'))) = Ok f ->
  same_score st (flow_state f).
Proof.
  destruct (cpg_gate o readlen seq i want st) as [g|] eqn:Hg; [|discriminate].
  pose proof (cpg_gate_state _ _ _ _ _ Hg) as Hs.
  destruct g as [s|s|s]; simpl in Hs; subst s; cbn [andthen].
  - destruct (Newbaseq _ _ _); simpl; [|discriminate].
    destruct (rescale _ _ _); simpl; [|discriminate].
    intros H; injection H as <-. simpl. solve_same.
  - intros H; injection H as <-. simpl. solve_same.
  - intros H; injection H as <-. simpl. solve_same.
Qed.

Lemma low_quality_same (a b : char) (i z : Z) (qualsrev : str)
    (st : score_state) (f : flow score_state) :
  low_quality o readlen real_read a b i z qualsrev st = Ok f ->
  same_score st (flow_state f) /\
  (forall st', f = Next st' ->
     st' = st /\
     exists q, getitem (sc_quals st) i = Ok q /\ (q - 33 <? baseq o) = false).
Proof.
  unfold low_quality.
  destruct (getitem (sc_quals st) i) as [q|] eqn:Hq; simpl; [|discriminate].
  destruct (q - 33 <? baseq o) eqn:Hlow.
  - destruct (adjustbaseq o).
    + intros H.
      assert (H1 : forall g,
                 (if (b =? chC) && (a =? chT)
                  then st' <~ cpg_gate o readlen real_read i chG st ;;
                       newprob <- Newbaseq i (ancient_model_deam o) (sc_quals st') ;;
                       nq <- rescale (sc_quals st') i newprob ;;
                       Ok (Next (set_newquals nq st'))
                  else Ok (Next st)) = Ok g -> same_score st (flow_state g)).
      { intros g. destruct ((b =? chC) && (a =? chT)).
        - apply (rescale_block_same real_read i i chG sc_quals).
        - intros E; injection E as <-. simpl. solve_same. }
      destruct (if (b =? chC) && (a =? chT) then _ else _) as [g1|];
        [|discriminate].
      specialize (H1 g1 eq_refl).
      destruct g1 as [s1|s1|s1]; cbn [andthen] in H; simpl in H1.
      * assert (H2 : forall g,
                   (if (b =? chG) && (a =? chA)
                    then st' <~ cpg_gate o readlen (rev real_read) i chC s1 ;;
                         newprob <- Newbaseq z (ancient_model_deam o) qualsrev ;;
                         nq <- rescale (sc_quals st') i newprob ;;
                         Ok (Next (set_newquals nq st'))
                    else Ok (Next s1)) = Ok g -> same_score s1 (flow_state g)).
        { intros g. destruct ((b =? chG) && (a =? chA)).
          - apply (rescale_block_same (rev real_read) i z chC
                     (fun _ => qualsrev)).
          - intros E; injection E as <-. simpl. solve_same. }
        destruct (if (b =? chG) && (a =? chA) then _ else _) as [g2|];
          [|discriminate].
        specialize (H2 g2 eq_refl).
        destruct g2 as [s2|s2|s2]; cbn [andthen] in H; simpl in H2;
          injection H as <-; simpl;
          (split; [eapply same_score_trans; eassumption | discriminate]).
      * injection H as <-. simpl. split; [assumption | discriminate].
      * injection H as <-. simpl. split; [assumption | discriminate].
    + intros H; injection H as <-. simpl.
      split; [solve_same | discriminate].
  - intros H; injection H as <-. simpl. split; [solve_same|].
    intros st' E; injection E as <-. split; [reflexivity|].
    exists q. now split.
Qed.

Lemma count_deamination_same (a b : char) (i z : Z) (st : score_state)
    (f : flow score_state) :
  count_deamination o readlen real_read a b i z st = Ok f ->
  same_score st (flow_state f) /\ (forall st', f = Next st' -> st' = st).
Proof.
  unfold count_deamination. destruct (deamination o).
  - intros H.
    assert (H1 : forall g,
               (if b =? chC
                then st' <~ cpg_gate o readlen real_read i chG st ;;
                     (let thekey := [b] ++ [a] ++ py_str_int i in
                      Ok (Next (set_dict (dict_incr thekey (sc_dict st')) st')))
                else Ok (Next st)) = Ok g -> same_score st (flow_state g)).
    { intros g. destruct (b =? chC).
      - destruct (cpg_gate _ _ _ _ _ _) as [g0|] eqn:Hg; [|discriminate].
        pose proof (cpg_gate_state _ _ _ _ _ Hg) as Hs.
        destruct g0 as [s|s|s]; simpl in Hs; subst s; cbn [andthen];
          intros E; injection E as <-; simpl; solve_same.
      - intros E; injection E as <-. simpl. solve_same. }
    destruct (if b =? chC then _ else _) as [g1|]; [|discriminate].
    specialize (H1 g1 eq_refl).
    destruct g1 as [s1|s1|s1]; cbn [andthen] in H; simpl in H1.
    + destruct (b =? chG).
      * destruct (cpg o).
        -- destruct (readlen <=? i + 1); cbn [andthen] in H; [|discriminate].
           injection H as <-. simpl. split; [assumption | discriminate].
        -- cbn [andthen] in H. injection H as <-. simpl.
           split; [|discriminate].
           eapply same_score_trans; [eassumption | solve_same].
      * cbn [andthen] in H. injection H as <-. simpl.
        split; [assumption | discriminate].
    + injection H as <-. simpl. split; [assumption | discriminate].
    + injection H as <-. simpl. split; [assumption | discriminate].
  - intros H; injection H as <-. simpl. split; [solve_same|].
    intros st' E; now injection E as <-.
Qed.

Lemma scorable_false (a b : char) (i : Z) (quals : str) (q : char) :
  scorable o readlen real_read quals (a, b, i) = false ->
  (a =? chN) || (b =? chN) = false ->
  (readlen <=? i) = false ->
  getitem quals i = Ok q -> (q - 33 <? baseq o) = false ->
  (b =? chC) || (b =? chG) = true ->
  (cpg o = false \/
   (i + 1 <? readlen) = true /\
   getitem (if b =? chC then real_read else rev real_read) (i + 1)
   = Ok (if b =? chC then chG else chC)) ->
  False.
Proof.
  intros Hs HN Hlen Hq Hlow HCG Hcpg.
  unfold scorable, is_CG, passes_filters in Hs.
  rewrite HCG, HN, Hq, Hlow in Hs.
  assert (Hi : (i <? readlen) = true).
  { apply Z.ltb_lt. apply Z.leb_gt in Hlen. lia. }
  rewrite Hi in Hs. simpl in Hs.
  destruct Hcpg as [Hc | [H1 H2]].
  - rewrite Hc in Hs. discriminate.
  - rewrite H1, H2, Z.eqb_refl in Hs. simpl in Hs.
    now rewrite orb_true_r in Hs.
Qed.

Lemma score_same (a b : char) (i z : Z) (qualsrev : str) (st : score_state)
    (f : flow score_state) (q : char) :
  score o readlen real_read a b i z qualsrev st = Ok f ->
  (a =? chN) || (b =? chN) = false ->
  (readlen <=? i) = false ->
  getitem (sc_quals st) i = Ok q -> (q - 33 <? baseq o) = false ->
  scorable o readlen real_read (sc_quals st) (a, b, i) = false ->
  same_score st (flow_state f).
Proof.
  intros H HN Hlen Hq Hlow Hs.
  pose proof (scorable_false a b i (sc_quals st) q Hs HN Hlen Hq Hlow) as Hno.
  unfold score in H. rewrite Hlen in H.
  destruct (b =? chC) eqn:Eb.
  - destruct (cpg_gate o readlen real_read i chG st) as [g|] eqn:Hg;
      [|discriminate].
    destruct g as [s|s|s]; cbn [andthen] in H.
    + exfalso. apply cpg_gate_next in Hg as [_ Hg].
      apply Hno; [reflexivity | exact Hg].
    + apply cpg_gate_state in Hg. simpl in Hg. subst s.
      injection H as <-. apply same_score_refl.
    + apply cpg_gate_state in Hg. simpl in Hg. subst s.
      injection H as <-. apply same_score_refl.
  - cbn [andthen] in H. destruct (b =? chG) eqn:Eg.
    + destruct (cpg_gate o readlen (rev real_read) i chC st) as [g|] eqn:Hg;
        [|discriminate].
      destruct g as [s|s|s]; cbn [andthen] in H.
      * exfalso. apply cpg_gate_next in Hg as [_ Hg].
        apply Hno; [reflexivity | exact Hg].
      * apply cpg_gate_state in Hg. simpl in Hg. subst s.
        injection H as <-. apply same_score_refl.
      * apply cpg_gate_state in Hg. simpl in Hg. subst s.
        injection H as <-. apply same_score_refl.
    + injection H as <-. apply same_score_refl.
Qed.

Lemma score_step_same (st : score_state) (abx : char * char * Z)
    (f : flow score_state) :
  score_step o readlen real_read st abx = Ok f ->
  scorable o readlen real_read (sc_quals st) abx = false ->
  same_score st (flow_state f).
Proof.
  destruct abx as [[a b] x]. unfold score_step.
  destruct ((a =? chN) || (b =? chN)) eqn:HN.
  { intros H _; injection H as <-. apply same_score_refl. }
  rewrite Z.sub_0_r.
  destruct (readlen <=? x) eqn:Hlen.
  { intros H _; injection H as <-. apply same_score_refl. }
  intros H Hs.
  destruct (adjust_all o x (len real_read - 1 - x) st) as [g1|] eqn:H1;
    [|discriminate].
  pose proof (adjust_all_same _ _ _ _ H1) as S1.
  destruct g1 as [s1|s1|s1]; cbn [andthen] in H;
    try (injection H as <-; exact S1).
  destruct (low_quality o readlen real_read a b x _ _ s1) as [g2|] eqn:H2;
    [|discriminate].
  apply low_quality_same in H2 as [S2 N2].
  destruct g2 as [s2|s2|s2]; cbn [andthen] in H;
    try (injection H as <-; eapply same_score_trans; eassumption).
  destruct (N2 s2 eq_refl) as (-> & q & Hq & Hlow).
  destruct (count_deamination o readlen real_read a b x _ s1) as [g3|] eqn:H3;
    [|discriminate].
  apply count_deamination_same in H3 as [S3 N3].
  destruct g3 as [s3|s3|s3]; cbn [andthen] in H;
    try (injection H as <-; eapply same_score_trans; eassumption).
  rewrite (N3 s3 eq_refl) in H.
  destruct S1 as (_ & _ & Q1). cbn [flow_state] in Q1.
  eapply same_score_trans; [exact (adjust_all_same _ _ _ _ H1)|].
  eapply score_same; try eassumption.
  cbn [flow_state]. now rewrite Q1.
Qed.

Lemma score_loop_same (l : list (char * char * Z)) (st st' : score_state) :
  score_loop o readlen real_read st l = Ok st' ->
  forallb (fun abx => negb (scorable o readlen real_read (sc_quals st) abx)) l
  = true ->
  same_score st st'.
Proof.
  revert st. induction l as [|abx l IH]; intros st H Hall.
  - injection H as <-. apply same_score_refl.
  - cbn [score_loop] in H. cbn [forallb] in Hall.
    apply andb_prop in Hall as [Hs Hall]. apply negb_true_iff in Hs.
    destruct (score_step o readlen real_read st abx) as [g|] eqn:Hg;
      [|discriminate].
    cbn [bind] in H. apply score_step_same in Hg; [|exact Hs].
    assert (Hq : sc_quals (flow_state g) = sc_quals st) by apply Hg.
    destruct g as [s|s|s]; simpl in Hg, Hq.
    + eapply same_score_trans; [exact Hg|]. apply IH; [exact H|].
      now rewrite Hq.
    + eapply same_score_trans; [exact Hg|]. apply IH; [exact H|].
      now rewrite Hq.
    + now injection H as <-.
Qed.

End ScoringLoop.

(** C5. When no C or G position of the reference passes the filters of
    the scoring loop (no N, inside the read, base quality, CpG context),
    the block ends with [L_D = 1], [L_M = 1] and [LR = 0]. *)
Theorem no_scorable_position (o : options) (readlen : Z)
    (real_read quals real_ref_seq : str) (d d_rev : dict)
    (st : score_state) (LR : R) :
  scoring_block o readlen real_read quals real_ref_seq d d_rev = Ok (st, LR) ->
  forallb (fun abx => negb (scorable o readlen real_read quals abx))
          (zip3 real_read real_ref_seq) = true ->
  sc_L_D st = 1%R /\ sc_L_M st = 1%R /\ LR = 0%R.
Proof.
  unfold scoring_block. intros H Hall.
  destruct (score_loop _ _ _ _ _) as [s|] eqn:Hloop; [|discriminate].
  cbn [bind] in H.
  apply score_loop_same in Hloop; [|exact Hall].
  destruct Hloop as (HD & HM & _). simpl in HD, HM.
  rewrite HD, HM in H. unfold fdiv in H.
  destruct (Req_dec_T 1 0) as [E|_]; [lra|].
  cbn [bind] in H. unfold math_log in H.
  replace (1 / 1)%R with 1%R in H by lra.
  destruct (Rlt_dec 0 1) as [_|E]; [|lra].
  cbn [bind] in H. injection H as <- <-.
  repeat split; [exact HD | exact HM | exact ln_1].
Qed.

Lemma no_scorable_position_witness :
  let st := {| sc_L_D := 1; sc_L_M := 1; sc_quals := lit "II";
               sc_newquals := lit "II"; sc_dict := []; sc_dict_rev := [] |} in
  scoring_block default_options 2 (lit "NA") (lit "II") (lit "CA") [] []
  = Ok (st, ln (1 / 1)) /\
  forallb (fun abx => negb (scorable default_options 2 (lit "NA") (lit "II") abx))
          (zip3 (lit "NA") (lit "CA")) = true /\
  sc_L_D st = 1%R /\ sc_L_M st = 1%R /\ ln (1 / 1) = 0%R.
Proof.
  intros st.
  assert (Hloop : score_loop default_options 2 (lit "NA")
                    {| sc_L_D := 1; sc_L_M := 1; sc_quals := lit "II";
                       sc_newquals := lit "II"; sc_dict := [];
                       sc_dict_rev := [] |}
                    (zip3 (lit "NA") (lit "CA")) = Ok st) by reflexivity.
  assert (H : scoring_block default_options 2 (lit "NA") (lit "II") (lit "CA")
                [] [] = Ok (st, ln (1 / 1))).
  { unfold scoring_block. rewrite Hloop. cbn [bind]. unfold fdiv, st.
    cbn [sc_L_D sc_L_M].
    destruct (Req_dec_T 1 0) as [E|_]; [lra|]. cbn [bind].
    unfold math_log. destruct (Rlt_dec 0 (1 / 1)) as [_|E]; [|lra].
    reflexivity. }
  assert (Hall : forallb (fun abx => negb (scorable default_options 2
                                             (lit "NA") (lit "II") abx))
                   (zip3 (lit "NA") (lit "CA")) = true) by reflexivity.
  split; [exact H|]. split; [exact Hall|].
  exact (no_scorable_position default_options 2 (lit "NA") (lit "II")
           (lit "CA") [] [] st (ln (1 / 1)) H Hall).
Defined.

(* ================================================================= *)
(** ** Rescaling under [--adjustbaseq] *)

Lemma Int_part_bounds (x : R) (a b : Z) :
  (IZR a <= x < IZR b)%R -> a <= Int_part x < b.
Proof.
  intros [Ha Hb]. destruct (base_Int_part x) as [H1 H2]. split.
  - assert (H : (IZR a < IZR (Int_part x + 1))%R) by (rewrite plus_IZR; lra).
    apply lt_IZR in H. lia.
  - apply lt_IZR. lra.
Qed.

Lemma phred2prob_bounds (Q : Z) :
  0 < Q -> (0 < phred2prob Q < 1)%R.
Proof.
  intros HQ. unfold phred2prob. split.
  - unfold Rpower. apply exp_pos.
  - rewrite <- (Rpower_O 10) by lra.
    apply Rpower_lt; [lra|].
    assert (0 < IZR Q)%R by (apply IZR_lt; lia). lra.
Qed.

Lemma ln_10_pos : (0 < ln 10)%R.
Proof. rewrite <- ln_1. apply ln_increasing; lra. Qed.

(** A probability between 1/10000 and 1 has a Phred value in [0, 40). *)
Lemma prob2phred_bounds (P : R) :
  (/ 10000 < P <= 1)%R ->
  exists ph, prob2phred P = Ok ph /\ (0 <= ph < 40)%R.
Proof.
  intros [Hlo Hhi].
  assert (HP : (0 < P)%R) by lra.
  unfold prob2phred, math_log10.
  destruct (Rlt_dec 0 P) as [_|C]; [|contradiction]. cbn [bind].
  eexists. split; [reflexivity|].
  pose proof ln_10_pos as H10.
  assert (Hle : (ln P <= 0)%R).
  { rewrite <- ln_1. destruct (Req_dec P 1) as [->|Hne]; [lra|].
    left. apply ln_increasing; lra. }
  assert (Hgt : (- (4 * ln 10) < ln P)%R).
  { replace (- (4 * ln 10))%R with (ln (/ 10000)).
    - apply ln_increasing; lra.
    - rewrite ln_Rinv by lra. f_equal.
      replace 10000%R with (10 ^ 4)%R by lra.
      rewrite ln_pow by lra. simpl. lra. }
  split.
  - assert (ln P / ln 10 <= 0)%R.
    { apply Rmult_le_reg_r with (ln 10); [exact H10|].
      unfold Rdiv. rewrite Rmult_assoc, Rinv_l by lra. lra. }
    lra.
  - assert (- 4 < ln P / ln 10)%R.
    { apply Rmult_lt_reg_r with (ln 10); [exact H10|].
      unfold Rdiv. rewrite Rmult_assoc, Rinv_l by lra. lra. }
    lra.
Qed.

Lemma rescale_bounds (quals : str) (i : Z) (P : R) :
  (/ 10000 < P <= 1)%R ->
  exists newqual,
    rescale quals i P
    = Ok (slice quals 0 i ++ [newqual] ++ slice_from quals (i + 1)) /\
    33 <= newqual < 73.
Proof.
  intros HP. destruct (prob2phred_bounds P HP) as (ph & Hph & Hb).
  unfold rescale. rewrite Hph. cbn [bind].
  assert (Hi : 0 <= py_int_of_float ph < 40).
  { unfold py_int_of_float. destruct (Rle_dec 0 ph) as [_|C]; [|lra].
    apply Int_part_bounds. simpl. lra. }
  exists (py_int_of_float ph + 33). split; [|lia].
  unfold py_chr.
  destruct ((py_int_of_float ph + 33 <? 0) || (1114111 <? py_int_of_float ph + 33))
    eqn:E; [|reflexivity].
  apply orb_true_iff in E as [E|E]; [apply Z.ltb_lt in E | apply Z.ltb_lt in E];
    lia.
Qed.

Lemma L_mismatch_eq (p : Z) (fmodel : list R) (fquals : str) (fpoly D : R)
    (q : char) :
  getitem fmodel p = Ok D -> getitem fquals p = Ok q ->
  L_mismatch p fmodel fquals fpoly
  = Ok (1 - ((1 - D) * (1 - phred2prob (q - 33) / 3) * (1 - fpoly)
             + D * (phred2prob (q - 33) / 3) * (1 - fpoly)
             + phred2prob (q - 33) / 3 * fpoly * (1 - D)))%R.
Proof. intros HD Hq. unfold L_mismatch. now rewrite HD, Hq. Qed.

Lemma Newbaseq_eq (p : Z) (fmodel : list R) (fquals : str) (D : R) (q : char) :
  getitem fmodel p = Ok D -> getitem fquals p = Ok q ->
  Newbaseq p fmodel fquals
  = Ok (1 - (1 - D) * (1 - phred2prob (q - 33) / 3))%R.
Proof. intros HD Hq. unfold Newbaseq. now rewrite HD, Hq. Qed.

(** C4, at a concrete input: [--adjustbaseq], read [TA] on reference [CA],
    qualities [II].  The rescaled quality of the C>T position is written
    into [quals], the string the likelihoods read (line 561), and the copy
    for the output, [newquals], still holds the original qualities when
    line 599 makes it the quality string of the record. *)
Theorem adjustbaseq_overwrites_scored_quals :
  let o := set_adjustbaseq true default_options in
  exists (st : score_state) (LR : R) (newqual : char),
    scoring_block o 2 (lit "TA") (lit "II") (lit "CA") [] [] = Ok (st, LR) /\
    sc_quals st = newqual :: lit "I" /\
    newqual <> 73 /\
    sc_newquals st = lit "II".
Proof.
  intros o.
  set (E := (phred2prob (73 - 33) / 3)%R).
  assert (HE : (0 < E < / 3)%R).
  { destruct (phred2prob_bounds (73 - 33)) as [H1 H2]; [lia|]. unfold E. lra. }
  assert (HD : getitem (ancient_model_deam o) 0 = Ok 0.31%R).
  { rewrite getitem_ancient by lia. f_equal.
    unfold geometric, o. cbn [PMDpparam PMDconstant set_adjustbaseq default_options].
    change (0 + 1 - 1) with 0. cbn [powerRZ]. lra. }
  assert (HM : getitem modern_model_deam 0 = Ok 0.001%R)
    by (apply getitem_modern; lia).
  assert (Hq : getitem (lit "II") 0 = Ok 73) by reflexivity.
  pose proof (L_mismatch_eq 0 _ _ (polymorphism_ancient o) _ _ HD Hq) as Hmd.
  pose proof (L_mismatch_eq 0 _ _ (polymorphism_contamination o) _ _ HM Hq) as Hmm.
  pose proof (Newbaseq_eq 0 _ _ _ _ HD Hq) as Hnb.
  fold E in Hmd, Hmm, Hnb.
  change (polymorphism_ancient o) with 0.001%R in Hmd.
  change (polymorphism_contamination o) with 0.001%R in Hmm.
  set (m_d := (1 - ((1 - 0.31) * (1 - E) * (1 - 0.001) + 0.31 * E * (1 - 0.001)
                    + E * 0.001 * (1 - 0.31)))%R) in Hmd.
  set (m_m := (1 - ((1 - 0.001) * (1 - E) * (1 - 0.001) + 0.001 * E * (1 - 0.001)
                    + E * 0.001 * (1 - 0.001)))%R) in Hmm.
  set (newprob := (1 - (1 - 0.31) * (1 - E))%R) in Hnb.
  assert (Hmd_pos : (0 < m_d)%R) by (unfold m_d; nra).
  assert (Hmm_pos : (0 < m_m)%R) by (unfold m_m; nra).
  assert (Hnp : (/ 10000 < newprob <= 1)%R) by (unfold newprob; nra).
  destruct (rescale_bounds (lit "II") 0 newprob Hnp) as (nq & Hres & Hnq).
  change (slice (lit "II") 0 0 ++ [nq] ++ slice_from (lit "II") (0 + 1))
    with (nq :: lit "I") in Hres.
  exists {| sc_L_D := 1 * m_d; sc_L_M := 1 * m_m; sc_quals := nq :: lit "I";
            sc_newquals := lit "II"; sc_dict := []; sc_dict_rev := [] |}.
  exists (ln (1 * m_d / (1 * m_m))), nq.
  split; [|split; [reflexivity | split; [lia | reflexivity]]].
  unfold scoring_block.
  assert (Hloop :
    score_loop o 2 (lit "TA")
      {| sc_L_D := 1; sc_L_M := 1; sc_quals := lit "II";
         sc_newquals := lit "II"; sc_dict := []; sc_dict_rev := [] |}
      (zip3 (lit "TA") (lit "CA"))
    = Ok {| sc_L_D := 1 * m_d; sc_L_M := 1 * m_m; sc_quals := nq :: lit "I";
            sc_newquals := lit "II"; sc_dict := []; sc_dict_rev := [] |}).
  { change (zip3 (lit "TA") (lit "CA")) with [(chT, chC, 0); (chA, chA, 1)].
    cbn [score_loop].
    assert (Hstep0 :
      score_step o 2 (lit "TA")
        {| sc_L_D := 1; sc_L_M := 1; sc_quals := lit "II";
           sc_newquals := lit "II"; sc_dict := []; sc_dict_rev := [] |}
        (chT, chC, 0)
      = Ok (Next {| sc_L_D := 1 * m_d; sc_L_M := 1 * m_m;
                    sc_quals := nq :: lit "I"; sc_newquals := lit "II";
                    sc_dict := []; sc_dict_rev := [] |})).
    { unfold score_step, adjust_all, low_quality, count_deamination, score,
        cpg_gate.
      cbv [lit list_ascii_of_string map ord_ascii N_of_ascii N_of_digits
           Z.of_N N.add N.mul Pos.add Pos.mul Pos.succ] in *.
      cbn -[L_mismatch L_match Newbaseq rescale ancient_model_deam
            modern_model_deam Rmult].
      rewrite Hmd, Hmm. cbn [bind]. rewrite Hnb. cbn [bind].
      rewrite Hres. reflexivity. }
    rewrite Hstep0. cbn [bind].
    unfold score_step, adjust_all, low_quality, count_deamination, score,
      cpg_gate.
    cbv [lit list_ascii_of_string map ord_ascii N_of_ascii N_of_digits
         Z.of_N N.add N.mul Pos.add Pos.mul Pos.succ].
    cbn -[L_mismatch L_match Newbaseq rescale ancient_model_deam
          modern_model_deam Rmult].
    reflexivity. }
  rewrite Hloop. cbn [bind sc_L_D sc_L_M]. unfold fdiv.
  destruct (Req_dec_T (1 * m_m) 0) as [C|_]; [lra|]. cbn [bind].
  unfold math_log.
  destruct (Rlt_dec 0 (1 * m_d / (1 * m_m))) as [_|C]; [reflexivity|].
  exfalso. apply C. apply Rdiv_lt_0_compat; lra.
Qed.

Lemma L_match_eq (p : Z) (fmodel : list R) (fquals : str) (fpoly D : R)
    (q : char) :
  getitem fmodel p = Ok D -> getitem fquals p = Ok q ->
  L_match p fmodel fquals fpoly
  = Ok ((1 - D) * (1 - phred2prob (q - 33) / 3) * (1 - fpoly)
        + D * (phred2prob (q - 33) / 3) * (1 - fpoly)
        + phred2prob (q - 33) / 3 * fpoly * (1 - D))%R.
Proof. intros HD Hq. unfold L_match. now rewrite HD, Hq. Qed.

Lemma phred2prob_decreasing (Q Q' : Z) :
  Q < Q' -> (phred2prob Q' < phred2prob Q)%R.
Proof.
  intros H. unfold phred2prob. apply Rpower_lt; [lra|].
  assert (IZR Q < IZR Q')%R by now apply IZR_lt. lra.
Qed.

Lemma phred2prob_le_1 (Q : Z) : 0 <= Q -> (0 < phred2prob Q <= 1)%R.
Proof.
  intros H. destruct (Z.eq_dec Q 0) as [->|Hne].
  - unfold phred2prob. replace (- 0 / 10)%R with 0%R by lra.
    rewrite Rpower_O by lra. lra.
  - destruct (phred2prob_bounds Q); [lia | lra].
Qed.

Ltac eval_score_step :=
  unfold score_step, adjust_all, low_quality, count_deamination, score,
    cpg_gate;
  cbv [lit list_ascii_of_string map ord_ascii N_of_ascii N_of_digits
       Z.of_N N.add N.mul Pos.add Pos.mul Pos.succ] in *;
  cbn -[L_mismatch L_match Newbaseq rescale ancient_model_deam
        modern_model_deam Rmult].

(** Rewriting with a fact about one of the probability functions, up to
    the form of the numerals. *)
Ltac conv_rewrite H :=
  match type of H with
  | _ = ?rhs =>
      match goal with
      | |- context [L_mismatch ?a ?b ?c ?d] =>
          replace (L_mismatch a b c d) with rhs by (symmetry; exact H)
      | |- context [L_match ?a ?b ?c ?d] =>
          replace (L_match a b c d) with rhs by (symmetry; exact H)
      | |- context [Newbaseq ?a ?b ?c] =>
          replace (Newbaseq a b c) with rhs by (symmetry; exact H)
      | |- context [rescale ?a ?b ?c] =>
          replace (rescale a b c) with rhs by (symmetry; exact H)
      end
  end.

(** What line 561 does to the score when the quality string is shorter
    than the read: read [TGN] on reference [CGN] with qualities [II].  The
    G at position 1 is scored at distance 1 from the 3' end on the reversed
    qualities, that is on the quality of position 0, which [--adjustbaseq]
    has overwritten by then. *)
Lemma adjustbaseq_changes_score :
  let o := set_adjustbaseq true default_options in
  exists (st st' : score_state) (LR LR' : R),
    scoring_block default_options 3 (lit "TGN") (lit "II") (lit "CGN") [] []
    = Ok (st, LR) /\
    scoring_block o 3 (lit "TGN") (lit "II") (lit "CGN") [] [] = Ok (st', LR') /\
    LR' <> LR.
Proof.
  intros o.
  set (E := (phred2prob (73 - 33) / 3)%R).
  assert (HE : (0 < E < / 3)%R).
  { destruct (phred2prob_bounds (73 - 33)) as [H1 H2]; [lia|]. unfold E. lra. }
  assert (HD0 : getitem (ancient_model_deam default_options) 0 = Ok 0.31%R).
  { rewrite getitem_ancient by lia. f_equal.
    unfold geometric. cbn [PMDpparam PMDconstant default_options].
    change (0 + 1 - 1) with 0. cbn [powerRZ]. lra. }
  assert (HD1 : getitem (ancient_model_deam default_options) 1 = Ok 0.22%R).
  { rewrite getitem_ancient by lia. f_equal.
    unfold geometric. cbn [PMDpparam PMDconstant default_options].
    change (1 + 1 - 1) with 1. rewrite powerRZ_1. lra. }
  assert (HM0 : getitem modern_model_deam 0 = Ok 0.001%R)
    by (apply getitem_modern; lia).
  assert (HM1 : getitem modern_model_deam 1 = Ok 0.001%R)
    by (apply getitem_modern; lia).
  change (ancient_model_deam default_options)
    with (ancient_model_deam o) in HD0, HD1.
  assert (Hq0 : getitem [73; 73] 0 = Ok 73) by reflexivity.
  assert (Hq1 : getitem [73; 73] 1 = Ok 73) by reflexivity.
  pose proof (L_mismatch_eq 0 _ _ 0.001 _ _ HD0 Hq0) as Hmd.
  pose proof (L_mismatch_eq 0 _ _ 0.001 _ _ HM0 Hq0) as Hmm.
  pose proof (Newbaseq_eq 0 _ _ _ _ HD0 Hq0) as Hnb.
  pose proof (L_match_eq 1 _ _ 0.001 _ _ HD1 Hq1) as Had.
  pose proof (L_match_eq 1 _ _ 0.001 _ _ HM1 Hq1) as Ham.
  fold E in Hmd, Hmm, Hnb, Had, Ham.
  set (m_d := (1 - ((1 - 0.31) * (1 - E) * (1 - 0.001) + 0.31 * E * (1 - 0.001)
                    + E * 0.001 * (1 - 0.31)))%R) in Hmd.
  set (m_m := (1 - ((1 - 0.001) * (1 - E) * (1 - 0.001) + 0.001 * E * (1 - 0.001)
                    + E * 0.001 * (1 - 0.001)))%R) in Hmm.
  set (newprob := (1 - (1 - 0.31) * (1 - E))%R) in Hnb.
  set (a_d := ((1 - 0.22) * (1 - E) * (1 - 0.001) + 0.22 * E * (1 - 0.001)
               + E * 0.001 * (1 - 0.22))%R) in Had.
  set (a_m := ((1 - 0.001) * (1 - E) * (1 - 0.001) + 0.001 * E * (1 - 0.001)
               + E * 0.001 * (1 - 0.001))%R) in Ham.
  assert (Hmd_pos : (0 < m_d)%R) by (unfold m_d; nra).
  assert (Hmm_pos : (0 < m_m)%R) by (unfold m_m; nra).
  assert (Had_pos : (0 < a_d)%R) by (unfold a_d; nra).
  assert (Ham_pos : (0 < a_m)%R) by (unfold a_m; nra).
  assert (Hnp : (/ 10000 < newprob <= 1)%R) by (unfold newprob; nra).
  destruct (rescale_bounds [73; 73] 0 newprob Hnp) as (nq & Hres & Hnq).
  change (slice [73; 73] 0 0 ++ [nq] ++ slice_from [73; 73] (0 + 1))
    with [nq; 73] in Hres.
  (* the likelihoods of the G position on the overwritten quality *)
  set (E' := (phred2prob (nq - 33) / 3)%R).
  assert (HE' : (E < E' <= / 3)%R).
  { pose proof (phred2prob_decreasing (nq - 33) (73 - 33) ltac:(lia)).
    pose proof (phred2prob_le_1 (nq - 33) ltac:(lia)).
    unfold E, E'. lra. }
  assert (Hq1' : getitem [73; nq] 1 = Ok nq) by reflexivity.
  pose proof (L_match_eq 1 _ _ 0.001 _ _ HD1 Hq1') as Had'.
  pose proof (L_match_eq 1 _ _ 0.001 _ _ HM1 Hq1') as Ham'.
  fold E' in Had', Ham'.
  set (b_d := ((1 - 0.22) * (1 - E') * (1 - 0.001) + 0.22 * E' * (1 - 0.001)
               + E' * 0.001 * (1 - 0.22))%R) in Had'.
  set (b_m := ((1 - 0.001) * (1 - E') * (1 - 0.001) + 0.001 * E' * (1 - 0.001)
               + E' * 0.001 * (1 - 0.001))%R) in Ham'.
  assert (Hbd_pos : (0 < b_d)%R) by (unfold b_d; nra).
  assert (Hbm_pos : (0 < b_m)%R) by (unfold b_m; nra).
  exists {| sc_L_D := 1 * m_d * a_d; sc_L_M := 1 * m_m * a_m;
            sc_quals := [73; 73]; sc_newquals := [73; 73];
            sc_dict := []; sc_dict_rev := [] |},
         {| sc_L_D := 1 * m_d * b_d; sc_L_M := 1 * m_m * b_m;
            sc_quals := [nq; 73]; sc_newquals := [73; 73];
            sc_dict := []; sc_dict_rev := [] |},
         (ln (1 * m_d * a_d / (1 * m_m * a_m))),
         (ln (1 * m_d * b_d / (1 * m_m * b_m))).
  assert (Hpos : forall x y, (0 < x)%R -> (0 < y)%R ->
            (r <- fdiv x y ;; LR <- math_log r ;; Ok LR) = Ok (ln (x / y))).
  { intros x y Hx Hy. unfold fdiv.
    destruct (Req_dec_T y 0) as [C|_]; [lra|]. cbn [bind]. unfold math_log.
    destruct (Rlt_dec 0 (x / y)) as [_|C]; [reflexivity|].
    exfalso. apply C. now apply Rdiv_lt_0_compat. }
  split; [|split].
  - unfold scoring_block.
    change (zip3 (lit "TGN") (lit "CGN"))
      with [(chT, chC, 0); (chG, chG, 1); (chN, chN, 2)].
    change (ancient_model_deam o)
      with (ancient_model_deam default_options) in *.
    cbn [score_loop].
    replace (score_step default_options 3 (lit "TGN") _ (chT, chC, 0))
      with (Ok (Next {| sc_L_D := 1 * m_d; sc_L_M := 1 * m_m;
                        sc_quals := [73; 73]; sc_newquals := [73; 73];
                        sc_dict := []; sc_dict_rev := [] |})).
    2:{ symmetry. eval_score_step. conv_rewrite Hmd. conv_rewrite Hmm.
        reflexivity. }
    cbn [bind].
    replace (score_step default_options 3 (lit "TGN") _ (chG, chG, 1))
      with (Ok (Next {| sc_L_D := 1 * m_d * a_d; sc_L_M := 1 * m_m * a_m;
                        sc_quals := [73; 73]; sc_newquals := [73; 73];
                        sc_dict := []; sc_dict_rev := [] |})).
    2:{ symmetry. eval_score_step. conv_rewrite Had. conv_rewrite Ham.
        reflexivity. }
    cbn [bind].
    replace (score_step default_options 3 (lit "TGN") _ (chN, chN, 2))
      with (Ok (Continue {| sc_L_D := 1 * m_d * a_d; sc_L_M := 1 * m_m * a_m;
                            sc_quals := [73; 73]; sc_newquals := [73; 73];
                            sc_dict := []; sc_dict_rev := [] |}))
      by reflexivity.
    cbn [bind sc_L_D sc_L_M].
    assert (H := Hpos (1 * m_d * a_d)%R (1 * m_m * a_m)%R ltac:(nra) ltac:(nra)).
    unfold bind in H |- *.
    destruct (fdiv _ _); [|discriminate].
    destruct (math_log _); [|discriminate]. now injection H as ->.
  - unfold scoring_block.
    change (zip3 (lit "TGN") (lit "CGN"))
      with [(chT, chC, 0); (chG, chG, 1); (chN, chN, 2)].
    cbn [score_loop].
    replace (score_step o 3 (lit "TGN") _ (chT, chC, 0))
      with (Ok (Next {| sc_L_D := 1 * m_d; sc_L_M := 1 * m_m;
                        sc_quals := [nq; 73]; sc_newquals := [73; 73];
                        sc_dict := []; sc_dict_rev := [] |})).
    2:{ symmetry. eval_score_step. conv_rewrite Hmd. conv_rewrite Hmm.
        cbn [bind]. conv_rewrite Hnb. cbn [bind]. conv_rewrite Hres.
        reflexivity. }
    cbn [bind].
    replace (score_step o 3 (lit "TGN") _ (chG, chG, 1))
      with (Ok (Next {| sc_L_D := 1 * m_d * b_d; sc_L_M := 1 * m_m * b_m;
                        sc_quals := [nq; 73]; sc_newquals := [73; 73];
                        sc_dict := []; sc_dict_rev := [] |})).
    2:{ symmetry. eval_score_step. conv_rewrite Had'. conv_rewrite Ham'.
        reflexivity. }
    cbn [bind].
    replace (score_step o 3 (lit "TGN") _ (chN, chN, 2))
      with (Ok (Continue {| sc_L_D := 1 * m_d * b_d; sc_L_M := 1 * m_m * b_m;
                            sc_quals := [nq; 73]; sc_newquals := [73; 73];
                            sc_dict := []; sc_dict_rev := [] |}))
      by reflexivity.
    cbn [bind sc_L_D sc_L_M].
    assert (H := Hpos (1 * m_d * b_d)%R (1 * m_m * b_m)%R ltac:(nra) ltac:(nra)).
    unfold bind in H |- *.
    destruct (fdiv _ _); [|discriminate].
    destruct (math_log _); [|discriminate]. now injection H as ->.
  - intros Heq.
    assert (HY' : (0 < 1 * m_m * b_m)%R) by nra.
    assert (HY : (0 < 1 * m_m * a_m)%R) by nra.
    apply ln_inv in Heq;
      [| apply Rdiv_lt_0_compat; nra | apply Rdiv_lt_0_compat; nra].
    assert (Hx : (1 * m_d * b_d * (1 * m_m * a_m)
                  = 1 * m_d * a_d * (1 * m_m * b_m))%R).
    { replace (1 * m_d * b_d)%R
        with (1 * m_d * b_d / (1 * m_m * b_m) * (1 * m_m * b_m))%R
        by (field; lra).
      rewrite Heq. field. lra. }
    assert (Hy : (b_d * a_m = a_d * b_m)%R).
    { apply Rmult_eq_reg_l with (m_d * m_m)%R; [|apply Rgt_not_eq; nra].
      replace (m_d * m_m * (b_d * a_m))%R
        with (1 * m_d * b_d * (1 * m_m * a_m))%R by ring.
      rewrite Hx. ring. }
    unfold b_d, a_m, a_d, b_m in Hy. lra.
Qed.

(* ================================================================= *)
(** ** The loop header *)

(** Line 248 iterates over [sys.stdin], and line 28 imports names from
    [sys] without binding [sys] itself: [main] stops there.  The properties
    above are about the loop it would run, line by line. *)
Lemma main_needs_sys (o : options) (py_float : str -> result R)
    (str_round3 : R -> str) (lines : list str) :
  main o py_float str_round3 lines = Err (NameError (lit "sys")).
Proof. reflexivity. Qed.

(* ################################################################# *)
(** * Further properties *)

(* ================================================================= *)
(** ** The tokens of an MD string *)

Lemma findall_runs_concat (s cur : str) :
  List.concat (findall_runs s cur) = cur ++ s.
Proof.
  revert cur. induction s as [|c s IH]; intros cur.
  - destruct cur; simpl; now rewrite ?app_nil_r.
  - destruct cur as [|d cur]; cbn [findall_runs].
    + rewrite IH. reflexivity.
    + destruct (Bool.eqb (is_digit c) (is_digit d)).
      * rewrite IH, <- app_assoc. reflexivity.
      * cbn [List.concat]. rewrite IH. reflexivity.
Qed.

Lemma one_class_snoc (d c : char) (cur : str) :
  one_class (d :: cur) -> Bool.eqb (is_digit c) (is_digit d) = true ->
  one_class ((d :: cur) ++ [c]).
Proof.
  intros [_ H] E. apply eqb_prop in E. split; [discriminate|].
  destruct H as [H | H].
  - left. rewrite forallb_app, H. simpl in H |- *.
    apply andb_prop in H as [Hd _]. now rewrite E, Hd.
  - right. rewrite existsb_app, H. simpl in H |- *.
    apply orb_false_iff in H as [Hd _]. now rewrite E, Hd.
Qed.

Lemma one_class_single (c : char) : one_class [c].
Proof.
  split; [discriminate|]. simpl.
  destruct (is_digit c); [now left | now right].
Qed.

Lemma findall_runs_classes (s cur : str) :
  (cur = [] \/ one_class cur) -> Forall one_class (findall_runs s cur).
Proof.
  revert cur. induction s as [|c s IH]; intros cur Hcur.
  - destruct cur; simpl; [constructor|].
    destruct Hcur as [H|H]; [discriminate|].
    constructor; [exact H | constructor].
  - destruct cur as [|d cur]; cbn [findall_runs].
    + apply IH. right. apply one_class_single.
    + destruct Hcur as [H|H]; [discriminate|].
      destruct (Bool.eqb (is_digit c) (is_digit d)) eqn:E.
      * apply IH. right. now apply one_class_snoc.
      * constructor; [exact H|]. apply IH. right. apply one_class_single.
Qed.

(** X1. The tokens of [re.findall('(\d+|\D+)', MD)] put together give the
    MD string back: no character is lost; and each token is not empty and
    is made of digits only or of no digit at all. *)
Theorem MDlist_partition (MD : str) :
  List.concat (MDlist MD) = MD /\ Forall one_class (MDlist MD).
Proof.
  split.
  - apply (findall_runs_concat MD []).
  - apply findall_runs_classes. now left.
Qed.

(* ================================================================= *)
(** ** What the MD decoder builds *)

Lemma firstn_add_skipn {A} (n m : nat) (s : list A) :
  firstn n s ++ firstn m (skipn n s) = firstn (n + m) s.
Proof.
  revert s. induction n as [|n IH]; intros s; [reflexivity|].
  destruct s as [|a s]; simpl.
  - now rewrite firstn_nil.
  - now rewrite IH.
Qed.

Lemma clamp_index_nonneg {A} (s : list A) (i : Z) :
  0 <= i -> clamp_index s i = Nat.min (Z.to_nat i) (List.length s).
Proof.
  intros H. unfold clamp_index, len.
  destruct (i <? 0) eqn:E; [lia|]. lia.
Qed.

Lemma firstn_min_length {A} (n : nat) (s : list A) :
  firstn (Nat.min n (List.length s)) s = firstn n s.
Proof.
  destruct (Nat.le_ge_cases n (List.length s)) as [H|H].
  - now rewrite Nat.min_l.
  - rewrite Nat.min_r by exact H.
    now rewrite firstn_all, firstn_all2.
Qed.

Lemma slice_prefix {A} (s : list A) (c : Z) :
  0 <= c -> slice s 0 c = firstn (Z.to_nat c) s.
Proof.
  intros H. unfold slice.
  rewrite (clamp_index_nonneg s 0) by lia.
  rewrite (clamp_index_nonneg s c) by lia.
  simpl. rewrite Nat.sub_0_r. apply firstn_min_length.
Qed.

Lemma slice_mid {A} (s : list A) (c e : Z) :
  0 <= c -> 0 <= e ->
  slice s c (c + e) = firstn (Z.to_nat e) (skipn (Z.to_nat c) s).
Proof.
  intros Hc He. unfold slice.
  rewrite (clamp_index_nonneg s c) by lia.
  rewrite (clamp_index_nonneg s (c + e)) by lia.
  destruct (Nat.le_ge_cases (Z.to_nat c) (List.length s)) as [H|H].
  - rewrite (Nat.min_l (Z.to_nat c)) by exact H.
    rewrite <- (firstn_min_length (Z.to_nat e)).
    rewrite length_skipn. f_equal. lia.
  - rewrite (Nat.min_r (Z.to_nat c)) by exact H.
    rewrite skipn_all, (skipn_all2 s H). now rewrite !firstn_nil.
Qed.

Lemma firstn_snoc_nth {A} (n : nat) (s : list A) (a : A) :
  nth_error s n = Some a -> firstn n s ++ [a] = firstn (S n) s.
Proof.
  revert s. induction n as [|n IH]; intros [|b s] H; try discriminate.
  - simpl in H. now injection H as ->.
  - simpl in H |- *. now rewrite IH.
Qed.

Lemma getitem_Ok_nth {A} (s : list A) (i : Z) (a : A) :
  0 <= i -> getitem s i = Ok a -> nth_error s (Z.to_nat i) = Some a.
Proof.
  intros Hi. unfold getitem. destruct (i <? 0) eqn:E; [lia|]. rewrite E.
  destruct (nth_error s (Z.to_nat i)); [|discriminate].
  now intros H; injection H as ->.
Qed.

Lemma getitem_in_range {A} (s : list A) (i : Z) :
  0 <= i < len s -> exists a, getitem s i = Ok a.
Proof.
  intros H. destruct (nth_error s (Z.to_nat i)) as [a|] eqn:E.
  - exists a. now apply getitem_nth.
  - apply nth_error_None in E. unfold len in H. lia.
Qed.

Lemma read_consumed_nonneg (e : str) : 0 <= read_consumed e.
Proof.
  unfold read_consumed. destruct (isdigit e) eqn:Hd.
  - now apply digits_value_nonneg.
  - destruct (has_char chCaret e); [lia|].
    destruct (isalpha e); [apply len_nonneg | lia].
Qed.

Lemma sum_read_consumed_nonneg (l : list str) :
  0 <= sumZ (map read_consumed l).
Proof.
  induction l as [|e l IH]; simpl; [lia|].
  pose proof (read_consumed_nonneg e). lia.
Qed.

Lemma len_one {A} (e : list A) : len e = 1 -> exists a, e = [a].
Proof.
  unfold len. destruct e as [|a [|b e]]; simpl; try lia. now exists a.
Qed.

Lemma md_step_prefix (read : str) (st st' : md_state) (e : str) :
  md_step read st e = Ok st' ->
  (isdigit e || has_char chCaret e || negb (isalpha e) || (len e =? 1)) = true ->
  0 <= MDcounter st ->
  newread st = firstn (Z.to_nat (MDcounter st)) read ->
  len (ref_seq st) = len (newread st) ->
  0 <= MDcounter st' /\
  newread st' = firstn (Z.to_nat (MDcounter st')) read /\
  len (ref_seq st') = len (newread st').
Proof.
  unfold md_step. intros H Hone Hc Hnr Hlen.
  destruct (isdigit e) eqn:Hd.
  - pose proof (digits_value_nonneg e Hd) as He.
    injection H as <-. cbn [MDcounter newread ref_seq].
    split; [lia|]. split.
    + rewrite slice_mid, Hnr, firstn_add_skipn by lia. f_equal. lia.
    + rewrite !len_app. lia.
  - destruct (has_char chCaret e) eqn:Hdel.
    + injection H as <-. now cbn [MDcounter newread ref_seq].
    + destruct (isalpha e) eqn:Ha.
      * simpl in Hone. apply Z.eqb_eq in Hone.
        destruct (getitem read (MDcounter st)) as [r|] eqn:Hr; [|discriminate].
        injection H as <-. cbn [MDcounter newread ref_seq].
        split; [lia|]. split.
        -- rewrite Hnr, Hone.
           rewrite (firstn_snoc_nth _ _ r) by now apply getitem_Ok_nth.
           f_equal. lia.
        -- rewrite !len_app, Hone. unfold len at 3. simpl. lia.
      * injection H as <-. tauto.
Qed.

Lemma md_loop_prefix (read : str) (l : list str) (st st' : md_state) :
  md_loop read st l = Ok st' ->
  single_base_runs l = true ->
  0 <= MDcounter st ->
  newread st = firstn (Z.to_nat (MDcounter st)) read ->
  len (ref_seq st) = len (newread st) ->
  newread st' = firstn (Z.to_nat (MDcounter st')) read /\
  len (ref_seq st') = len (newread st') /\ 0 <= MDcounter st'.
Proof.
  revert st. induction l as [|e l IH]; intros st H Hall Hc Hnr Hlen.
  - injection H as <-. tauto.
  - cbn [md_loop] in H. simpl in Hall. apply andb_prop in Hall as [He Hall].
    destruct (md_step read st e) as [st1|] eqn:Hs; [|discriminate].
    cbn [bind] in H.
    destruct (md_step_prefix _ _ _ _ Hs He Hc Hnr Hlen) as (A & B & C).
    now apply (IH st1).
Qed.

(** X2. When every run of substituted bases in the MD string holds one
    base, the decoder's [newread] is the read up to the read cursor,
    [read[0:MDcounter]], and [ref_seq] has the same length. *)
Theorem md_decode_newread (read MD : str) (st : md_state) :
  md_decode read MD = Ok st ->
  single_base_runs (MDlist MD) = true ->
  newread st = slice read 0 (MDcounter st) /\
  len (ref_seq st) = len (newread st).
Proof.
  intros H Hall.
  destruct (md_loop_prefix read (MDlist MD) md_init st H Hall)
    as (A & B & C); try reflexivity.
  split; [|exact B]. now rewrite slice_prefix.
Qed.

Lemma md_decode_newread_witness :
  md_decode (lit "ACGTACG") (lit "2T1^GG3")
  = Ok {| MDcounter := 7; alignment := lit "..T.GG...";
          ref_seq := lit "ACTTACG"; newread := lit "ACGTACG" |} /\
  single_base_runs (MDlist (lit "2T1^GG3")) = true /\
  lit "ACGTACG" = slice (lit "ACGTACG") 0 7 /\
  len (lit "ACTTACG") = len (lit "ACGTACG").
Proof.
  assert (H : md_decode (lit "ACGTACG") (lit "2T1^GG3")
              = Ok {| MDcounter := 7; alignment := lit "..T.GG...";
                      ref_seq := lit "ACTTACG"; newread := lit "ACGTACG" |})
    by reflexivity.
  assert (Hall : single_base_runs (MDlist (lit "2T1^GG3")) = true)
    by reflexivity.
  split; [exact H|]. split; [exact Hall|].
  exact (md_decode_newread _ _ _ H Hall).
Defined.

Lemma combine_app_same {A B} (a a' : list A) (b b' : list B) :
  List.length a = List.length b ->
  combine (a ++ a') (b ++ b') = combine a b ++ combine a' b'.
Proof.
  revert b. induction a as [|x a IH]; intros [|y b] H; try discriminate.
  - reflexivity.
  - simpl. f_equal. apply IH. now injection H.
Qed.

Lemma trace_base_dots (sl : str) :
  map trace_base (combine (repeat chDot (List.length sl)) sl) = sl.
Proof. induction sl as [|r sl IH]; simpl; [reflexivity | now rewrite IH]. Qed.

Lemma is_alpha_not_dot (t : char) : is_alpha t = true -> (t =? chDot) = false.
Proof.
  unfold is_alpha, is_upper, is_lower, chDot. intros H.
  apply Z.eqb_neq. intros ->. discriminate.
Qed.

Lemma md_step_trace (read : str) (st st' : md_state) (e : str) :
  md_step read st e = Ok st' ->
  (isdigit e || has_char chCaret e || negb (isalpha e) || (len e =? 1)) = true ->
  negb (is_deletion_run e) = true ->
  0 <= MDcounter st -> MDcounter st' <= len read ->
  ref_seq st = map trace_base (combine (alignment st) (newread st)) ->
  List.length (alignment st) = List.length (newread st) ->
  ref_seq st' = map trace_base (combine (alignment st') (newread st')) /\
  List.length (alignment st') = List.length (newread st').
Proof.
  unfold md_step, is_deletion_run. intros H Hone Hdel Hc Hfit Href Hlen.
  destruct (isdigit e) eqn:Hd.
  - pose proof (digits_value_nonneg e Hd) as He.
    injection H as <-. cbn [MDcounter newread ref_seq alignment] in *.
    rewrite slice_mid by lia.
    set (sl := firstn (Z.to_nat (digits_value e))
                 (skipn (Z.to_nat (MDcounter st)) read)).
    assert (Hsl : List.length sl = Z.to_nat (digits_value e)).
    { unfold sl. rewrite length_firstn, length_skipn. unfold len in Hfit. lia. }
    rewrite <- Hsl. split.
    + rewrite combine_app_same by exact Hlen.
      now rewrite map_app, trace_base_dots, Href.
    + rewrite !length_app, repeat_length. lia.
  - simpl in Hdel. apply negb_true_iff in Hdel. rewrite Hdel in H.
    destruct (isalpha e) eqn:Ha.
    + simpl in Hone. rewrite Hdel in Hone. simpl in Hone.
      apply Z.eqb_eq in Hone. apply len_one in Hone as [t ->].
      destruct (getitem read (MDcounter st)) as [r|]; [|discriminate].
      injection H as <-. cbn [MDcounter newread ref_seq alignment] in *.
      split.
      * rewrite combine_app_same by exact Hlen.
        rewrite map_app, Href. simpl.
        simpl in Ha. rewrite andb_true_r in Ha.
        now rewrite (is_alpha_not_dot t Ha).
      * rewrite !length_app. simpl. lia.
    + injection H as <-. tauto.
Qed.

Lemma md_loop_trace (read : str) (l : list str) (st st' : md_state) :
  md_loop read st l = Ok st' ->
  single_base_runs l = true -> no_deletion_runs l = true ->
  0 <= MDcounter st -> MDcounter st' <= len read ->
  ref_seq st = map trace_base (combine (alignment st) (newread st)) ->
  List.length (alignment st) = List.length (newread st) ->
  ref_seq st' = map trace_base (combine (alignment st') (newread st')) /\
  List.length (alignment st') = List.length (newread st').
Proof.
  revert st. induction l as [|e l IH]; intros st H Hone Hdel Hc Hfit Href Hlen.
  - injection H as <-. tauto.
  - cbn [md_loop] in H. simpl in Hone, Hdel.
    apply andb_prop in Hone as [He Hone]. apply andb_prop in Hdel as [Hd Hdel].
    destruct (md_step read st e) as [st1|] eqn:Hs; [|discriminate].
    cbn [bind] in H.
    pose proof (md_step_counts _ _ _ _ Hs) as [Hc1 _].
    pose proof (read_consumed_nonneg e) as Hn.
    pose proof (md_loop_counts _ _ _ _ H) as [Hc2 _].
    pose proof (sum_read_consumed_nonneg l) as Hn2.
    destruct (md_step_trace _ _ _ _ Hs He Hd Hc ltac:(lia) Href Hlen) as [A B].
    apply (IH st1); try assumption. lia.
Qed.

(** X3. For an MD string without deletion runs, with one base per
    substitution run and a read cursor that ends inside the read, the two
    outputs of the decoder agree: reading the trace against the read the
    way lines 395-399 do (the read base under a dot, the trace letter
    otherwise) gives [ref_seq]. *)
Theorem md_trace_agrees (read MD : str) (st : md_state) :
  md_decode read MD = Ok st ->
  single_base_runs (MDlist MD) = true ->
  no_deletion_runs (MDlist MD) = true ->
  MDcounter st <= len read ->
  ref_seq st = map trace_base (combine (alignment st) (newread st)) /\
  len (alignment st) = len (newread st).
Proof.
  intros H Hone Hdel Hfit.
  destruct (md_loop_trace read (MDlist MD) md_init st H Hone Hdel)
    as [A B]; try reflexivity; try assumption.
  split; [exact A|]. unfold len. now rewrite B.
Qed.

Lemma md_trace_agrees_witness :
  md_decode (lit "ACGTACG") (lit "2T4")
  = Ok {| MDcounter := 7; alignment := lit "..T....";
          ref_seq := lit "ACTTACG"; newread := lit "ACGTACG" |} /\
  single_base_runs (MDlist (lit "2T4")) = true /\
  no_deletion_runs (MDlist (lit "2T4")) = true /\
  7 <= len (lit "ACGTACG") /\
  lit "ACTTACG"
  = map trace_base (combine (lit "..T....") (lit "ACGTACG")) /\
  len (lit "..T....") = len (lit "ACGTACG").
Proof.
  assert (H : md_decode (lit "ACGTACG") (lit "2T4")
              = Ok {| MDcounter := 7; alignment := lit "..T....";
                      ref_seq := lit "ACTTACG"; newread := lit "ACGTACG" |})
    by reflexivity.
  assert (H1 : single_base_runs (MDlist (lit "2T4")) = true) by reflexivity.
  assert (H2 : no_deletion_runs (MDlist (lit "2T4")) = true) by reflexivity.
  assert (H3 : 7 <= len (lit "ACGTACG")) by (vm_compute; discriminate).
  split; [exact H|]. split; [exact H1|]. split; [exact H2|].
  split; [exact H3|].
  exact (md_trace_agrees _ _ _ H H1 H2 H3).
Defined.

Lemma isalpha_len (e : str) : isalpha e = true -> 1 <= len e.
Proof. destruct e; [discriminate|]. unfold len. simpl. lia. Qed.

Lemma md_loop_fits (read : str) (l : list str) (st : md_state) :
  0 <= MDcounter st ->
  MDcounter st + sumZ (map read_consumed l) <= len read ->
  exists st', md_loop read st l = Ok st'.
Proof.
  revert st. induction l as [|e l IH]; intros st Hc Hfit.
  - now exists st.
  - cbn [md_loop].
    change (sumZ (map read_consumed (e :: l)))
      with (read_consumed e + sumZ (map read_consumed l)) in Hfit.
    pose proof (read_consumed_nonneg e) as Hn.
    pose proof (sum_read_consumed_nonneg l) as Hn2.
    assert (Hs : exists st1, md_step read st e = Ok st1).
    { unfold md_step. unfold read_consumed at 1 in Hfit.
      destruct (isdigit e); [eauto|].
      destruct (has_char chCaret e); [eauto|].
      destruct (isalpha e) eqn:Ha; [|eauto].
      apply isalpha_len in Ha.
      destruct (getitem_in_range read (MDcounter st)) as [r Hr]; [lia|].
      rewrite Hr. simpl. eauto. }
    destruct Hs as [st1 Hs]. rewrite Hs. cbn [bind].
    pose proof (md_step_counts _ _ _ _ Hs) as [Hc1 _].
    apply IH; lia.
Qed.



(* ================================================================= *)
(** ** What [revcomp] keeps *)

Lemma revcomp_single (c : char) :
  (in_alphabetb c = true /\ exists d, revcomp [c] = [d] /\ in_alphabet d) \/
  (in_alphabetb c = false /\ revcomp [c] = []).
Proof.
  unfold revcomp, in_alphabetb, in_alphabet. cbn [rev app fold_left].
  unfold revcomp_base.
  destruct (c =? chA) eqn:EA;
    [left; split; [reflexivity | exists chT; simpl; tauto]|].
  destruct (c =? chT) eqn:ET;
    [left; split; [now rewrite !orb_true_r | exists chA; simpl; tauto]|].
  destruct (c =? chG) eqn:EG;
    [left; split; [now rewrite !orb_true_r | exists chC; simpl; tauto]|].
  destruct (c =? chC) eqn:EC;
    [left; split; [reflexivity | exists chG; simpl; tauto]|].
  destruct (c =? chN) eqn:EN;
    [left; split; [now rewrite !orb_true_r | exists chN; simpl; tauto]|].
  destruct (c =? chGap) eqn:EGap;
    [left; split; [now rewrite !orb_true_r | exists chGap; simpl; tauto]|].
  right. split; reflexivity.
Qed.

Lemma revcomp_cons (c : char) (s : str) :
  revcomp (c :: s) = revcomp s ++ revcomp [c].
Proof. change (c :: s) with ([c] ++ s). apply revcomp_app. Qed.

(** X5. [revcomp] writes one base for each character of A, C, G, T, N, -
    and nothing for any other character: its result is over that alphabet,
    it is as long as the input has such characters, and it is the reverse
    complement of the input with the other characters taken out. *)
Theorem revcomp_keeps_alphabet (s : str) :
  Forall in_alphabet (revcomp s) /\
  len (revcomp s) = len (filter in_alphabetb s) /\
  revcomp s = revcomp (filter in_alphabetb s).
Proof.
  induction s as [|c s (IH1 & IH2 & IH3)].
  - repeat split. constructor.
  - rewrite revcomp_cons. cbn [filter].
    destruct (revcomp_single c) as [(Hc & d & Hd & Hin) | (Hc & Hd)];
      rewrite Hc, Hd.
    + split; [|split].
      * apply Forall_app. split; [exact IH1 | now constructor].
      * rewrite len_app, IH2. unfold len. simpl. lia.
      * rewrite revcomp_cons, <- IH3, Hd. reflexivity.
    + rewrite app_nil_r. tauto.
Qed.

(* ================================================================= *)
(** ** The damage curve *)

Lemma pow_unit_interval (x : R) (n : nat) :
  (0 <= x <= 1)%R -> (0 <= x ^ n <= 1)%R.
Proof.
  intros H. induction n as [|n IH]; simpl; [lra|]. nra.
Qed.

Lemma powerRZ_unit_interval (x : R) (k : Z) :
  (0 <= x <= 1)%R -> 0 <= k -> (0 <= powerRZ x k <= 1)%R.
Proof.
  intros Hx Hk. rewrite <- (Z2Nat.id k Hk), <- pow_powerRZ.
  now apply pow_unit_interval.
Qed.

Lemma powerRZ_succ_le (x : R) (k : Z) :
  (0 <= x <= 1)%R -> 0 <= k -> (powerRZ x (k + 1) <= powerRZ x k)%R.
Proof.
  intros Hx Hk. rewrite <- (Z2Nat.id k Hk).
  replace (Z.of_nat (Z.to_nat k) + 1) with (Z.of_nat (S (Z.to_nat k))) by lia.
  rewrite <- !pow_powerRZ. simpl.
  pose proof (pow_unit_interval x (Z.to_nat k) Hx). nra.
Qed.

Lemma geometric_bounds (p c : R) (k : Z) :
  (0 <= p <= 1)%R -> 1 <= k ->
  (c <= geometric p k c <= p + c)%R /\
  (geometric p (k + 1) c <= geometric p k c)%R.
Proof.
  intros Hp Hk. unfold geometric.
  assert (H1 : (0 <= 1 - p <= 1)%R) by lra.
  pose proof (powerRZ_unit_interval (1 - p) (k - 1) H1 ltac:(lia)) as H2.
  pose proof (powerRZ_succ_le (1 - p) (k - 1) H1 ltac:(lia)) as H3.
  replace (k + 1 - 1) with (k - 1 + 1) by lia. split; nra.
Qed.

Lemma getitem_adjustment o i :
  0 <= i < 999 ->
  getitem (adjustment_model_deam o) i = Ok (geometric (PMDpparam o) (i + 1) 0).
Proof.
  intros H. unfold adjustment_model_deam.
  rewrite (getitem_map _ _ i (1 + i)).
  - now rewrite Z.add_comm.
  - apply getitem_py_range. lia.
Qed.

(** X6. With a decay parameter [0 <= PMDpparam <= 1], the ancient damage
    table is non-increasing along the read, every entry lies between
    [PMDconstant] and [PMDpparam + PMDconstant] (the first entry is
    [PMDpparam + PMDconstant]), and the table used by [--adjustbaseq_all]
    is the same curve without the constant. *)
Theorem ancient_model_shape (o : options) (i : Z) :
  (0 <= PMDpparam o <= 1)%R -> 0 <= i -> i + 1 < 999 ->
  exists x y : R,
    getitem (ancient_model_deam o) i = Ok x /\
    getitem (ancient_model_deam o) (i + 1) = Ok y /\
    (PMDconstant o <= y <= x)%R /\ (x <= PMDpparam o + PMDconstant o)%R /\
    getitem (ancient_model_deam o) 0 = Ok (PMDpparam o + PMDconstant o)%R /\
    getitem (adjustment_model_deam o) i = Ok (x - PMDconstant o)%R.
Proof.
  intros Hp Hi Hn.
  exists (geometric (PMDpparam o) (i + 1) (PMDconstant o)),
         (geometric (PMDpparam o) (i + 1 + 1) (PMDconstant o)).
  destruct (geometric_bounds (PMDpparam o) (PMDconstant o) (i + 1) Hp ltac:(lia))
    as [H1 H2].
  destruct (geometric_bounds (PMDpparam o) (PMDconstant o) (i + 1 + 1) Hp
              ltac:(lia)) as [H3 _].
  repeat split; try lra.
  - apply getitem_ancient. lia.
  - apply getitem_ancient. lia.
  - rewrite getitem_ancient by lia. f_equal. unfold geometric.
    change (0 + 1 - 1) with 0. cbn [powerRZ]. lra.
  - rewrite getitem_adjustment by lia. f_equal. unfold geometric. lra.
Qed.

Lemma ancient_model_shape_witness :
  (0 <= PMDpparam default_options <= 1)%R /\ 0 <= 5 /\ 5 + 1 < 999 /\
  exists x y : R,
    getitem (ancient_model_deam default_options) 5 = Ok x /\
    getitem (ancient_model_deam default_options) (5 + 1) = Ok y /\
    (PMDconstant default_options <= y <= x)%R /\
    (x <= PMDpparam default_options + PMDconstant default_options)%R /\
    getitem (ancient_model_deam default_options) 0
    = Ok (PMDpparam default_options + PMDconstant default_options)%R /\
    getitem (adjustment_model_deam default_options) 5
    = Ok (x - PMDconstant default_options)%R.
Proof.
  assert (H1 : (0 <= PMDpparam default_options <= 1)%R) by (simpl; lra).
  assert (H2 : 0 <= 5) by lia.
  assert (H3 : 5 + 1 < 999) by lia.
  split; [exact H1|]. split; [exact H2|]. split; [exact H3|].
  exact (ancient_model_shape default_options 5 H1 H2 H3).
Defined.

(* ================================================================= *)
(** ** The likelihood of one base *)

Lemma bracket_bounds (D E Q : R) :
  (0 < D < 1)%R -> (0 < E <= / 3)%R -> (0 <= Q < 1)%R ->
  (0 < (1 - D) * (1 - E) * (1 - Q) + D * E * (1 - Q) + E * Q * (1 - D) < 1)%R.
Proof.
  intros HD HE HQ.
  assert (A : (0 < (1 - D) * (1 - E))%R) by nra.
  assert (B : (0 <= D * E)%R) by nra.
  assert (C : (0 <= E * Q)%R) by nra.
  assert (A' : ((1 - D) * (1 - E) + D * E < 1)%R) by nra.
  split.
  - assert ((0 < (1 - D) * (1 - E) * (1 - Q))%R) by nra.
    assert ((0 <= D * E * (1 - Q))%R) by nra.
    assert ((0 <= E * Q * (1 - D))%R) by nra. lra.
  - assert (((1 - D) * (1 - E) * (1 - Q) + D * E * (1 - Q)
             = ((1 - D) * (1 - E) + D * E) * (1 - Q))%R) by ring.
    assert ((((1 - D) * (1 - E) + D * E) * (1 - Q) < 1 - Q)%R) by nra.
    assert ((E * Q * (1 - D) <= Q * / 3)%R) by nra.
    lra.
Qed.

Lemma error_prob_bounds (q : char) :
  33 <= q -> (0 < phred2prob (q - 33) / 3 <= / 3)%R.
Proof.
  intros H. pose proof (phred2prob_le_1 (q - 33) ltac:(lia)). lra.
Qed.

(** X7. For a damage probability strictly between 0 and 1, a polymorphism
    prior in [0, 1) and a quality character not below '!' (Phred 0), the
    match and the mismatch likelihood of a base are both strictly between
    0 and 1. *)
Theorem likelihoods_are_probabilities (fposition : Z) (fmodel : list R)
    (fquals : str) (fpoly D : R) (q : char) :
  getitem fmodel fposition = Ok D ->
  getitem fquals fposition = Ok q ->
  (0 < D < 1)%R -> (0 <= fpoly < 1)%R -> 33 <= q ->
  exists P_match P_mismatch : R,
    L_match fposition fmodel fquals fpoly = Ok P_match /\
    L_mismatch fposition fmodel fquals fpoly = Ok P_mismatch /\
    (0 < P_match < 1)%R /\ (0 < P_mismatch < 1)%R.
Proof.
  intros HD Hq HDb HQ Hq33.
  rewrite (L_match_eq _ _ _ _ _ _ HD Hq), (L_mismatch_eq _ _ _ _ _ _ HD Hq).
  eexists. eexists. split; [reflexivity|]. split; [reflexivity|].
  pose proof (bracket_bounds D _ fpoly HDb (error_prob_bounds q Hq33) HQ).
  lra.
Qed.

Lemma likelihoods_are_probabilities_witness :
  getitem [0.31%R] 0 = Ok 0.31%R /\
  getitem (lit "I") 0 = Ok 73 /\
  (0 < 0.31 < 1)%R /\ (0 <= 0.001 < 1)%R /\ 33 <= 73 /\
  exists P_match P_mismatch : R,
    L_match 0 [0.31%R] (lit "I") 0.001 = Ok P_match /\
    L_mismatch 0 [0.31%R] (lit "I") 0.001 = Ok P_mismatch /\
    (0 < P_match < 1)%R /\ (0 < P_mismatch < 1)%R.
Proof.
  assert (H1 : getitem [0.31%R] 0 = Ok 0.31%R) by reflexivity.
  assert (H2 : getitem (lit "I") 0 = Ok 73) by reflexivity.
  assert (H3 : (0 < 0.31 < 1)%R) by lra.
  assert (H4 : (0 <= 0.001 < 1)%R) by lra.
  assert (H5 : 33 <= 73) by lia.
  repeat (split; [assumption|]).
  exact (likelihoods_are_probabilities 0 _ _ _ _ _ H1 H2 H3 H4 H5).
Defined.

(* ================================================================= *)
(** ** Rewriting one quality *)

Lemma slice_from_nonneg {A} (s : list A) (i : Z) :
  0 <= i -> slice_from s i = skipn (Z.to_nat i) s.
Proof.
  intros H. unfold slice_from. rewrite clamp_index_nonneg by exact H.
  destruct (Nat.le_ge_cases (Z.to_nat i) (List.length s)) as [L|L].
  - now rewrite Nat.min_l.
  - rewrite Nat.min_r by exact L. now rewrite skipn_all, skipn_all2.
Qed.

Lemma nth_error_replace {A} (s : list A) (n j : nat) (c : A) :
  (n < List.length s)%nat ->
  nth_error (firstn n s ++ [c] ++ skipn (S n) s) j
  = if Nat.eqb j n then Some c else nth_error s j.
Proof.
  revert n j. induction s as [|a s IH]; intros n j H; simpl in H; [lia|].
  destruct n as [|n]; destruct j as [|j]; simpl; try reflexivity.
  apply IH. lia.
Qed.

Lemma length_replace {A} (s : list A) (n : nat) (c : A) :
  (n < List.length s)%nat ->
  List.length (firstn n s ++ [c] ++ skipn (S n) s) = List.length s.
Proof.
  intros H. rewrite !length_app, length_firstn, length_skipn. simpl. lia.
Qed.

Lemma getitem_nonneg {A} (s : list A) (j : Z) :
  0 <= j ->
  getitem s j = match nth_error s (Z.to_nat j) with
                | Some a => Ok a
                | None => Err IndexError
                end.
Proof.
  intros H. unfold getitem. destruct (j <? 0) eqn:E; [lia|]. now rewrite E.
Qed.

Lemma rescale_shape (quals : str) (i : Z) (P : R) (s' : str) :
  rescale quals i P = Ok s' ->
  exists newqual,
    s' = slice quals 0 i ++ [newqual] ++ slice_from quals (i + 1) /\
    exists ph, prob2phred P = Ok ph /\ newqual = py_int_of_float ph + 33 /\
               0 <= newqual <= 1114111.
Proof.
  unfold rescale. destruct (prob2phred P) as [ph|]; [|discriminate].
  cbn [bind]. unfold py_chr.
  destruct ((py_int_of_float ph + 33 <? 0) || (1114111 <? py_int_of_float ph + 33))
    eqn:E; [discriminate|].
  cbn [bind]. intros H; injection H as <-.
  apply orb_false_iff in E as [E1 E2].
  apply Z.ltb_ge in E1, E2.
  eexists. split; [reflexivity|]. exists ph. repeat split; lia.
Qed.



(* ================================================================= *)
(** ** How far rescaling can move a quality *)

Lemma ln_3_lt_half_ln_10 : (2 * ln 3 < ln 10)%R.
Proof.
  replace (2 * ln 3)%R with (ln (3 * 3)) by (rewrite ln_mult by lra; lra).
  apply ln_increasing; lra.
Qed.

Lemma ln_error_prob (Q : Z) :
  ln (phred2prob Q / 3) = (- IZR Q / 10 * ln 10 - ln 3)%R.
Proof.
  unfold phred2prob, Rpower, Rdiv.
  rewrite ln_mult; [| apply exp_pos | lra].
  rewrite ln_exp, ln_Rinv by lra. lra.
Qed.

Lemma prob2phred_value (P : R) :
  (0 < P)%R -> prob2phred P = Ok (-10 * (ln P / ln 10))%R.
Proof.
  intros H. unfold prob2phred, math_log10.
  destruct (Rlt_dec 0 P); [reflexivity | contradiction].
Qed.

Lemma ln_le_compat (x y : R) : (0 < x)%R -> (x <= y)%R -> (ln x <= ln y)%R.
Proof.
  intros Hx [H | ->]; [left; now apply ln_increasing | lra].
Qed.

Lemma div_ln10_le (a b : R) : (a <= b * ln 10)%R -> (a / ln 10 <= b)%R.
Proof.
  intros H. pose proof ln_10_pos as H10.
  apply Rmult_le_reg_r with (ln 10); [exact H10|].
  unfold Rdiv. rewrite Rmult_assoc, Rinv_l by lra. lra.
Qed.

Lemma div_ln10_ge (a b : R) : (b * ln 10 <= a)%R -> (b <= a / ln 10)%R.
Proof.
  intros H. pose proof ln_10_pos as H10.
  apply Rmult_le_reg_r with (ln 10); [exact H10|].
  unfold Rdiv. rewrite Rmult_assoc, Rinv_l by lra. lra.
Qed.

Lemma div_ln10_gt (a b : R) : (b * ln 10 < a)%R -> (b < a / ln 10)%R.
Proof.
  intros H. pose proof ln_10_pos as H10.
  apply Rmult_lt_reg_r with (ln 10); [exact H10|].
  unfold Rdiv. rewrite Rmult_assoc, Rinv_l by lra. lra.
Qed.

(** The Phred value of [1 - (1-D)(1-E)] for [E] the error probability of
    Phred [Q]. *)
Lemma new_phred_bounds (D : R) (Q : Z) :
  (0 <= D <= 1)%R -> 0 <= Q ->
  let newprob := (1 - (1 - D) * (1 - phred2prob Q / 3))%R in
  (0 < newprob)%R /\
  (0 <= -10 * (ln newprob / ln 10) < IZR (Q + 5))%R /\
  ((/ 100 <= D)%R -> (-10 * (ln newprob / ln 10) <= 20)%R).
Proof.
  intros HD HQ newprob.
  pose proof (phred2prob_le_1 Q HQ) as HP.
  set (E := (phred2prob Q / 3)%R) in *.
  assert (HE : (0 < E <= / 3)%R) by (unfold E; lra).
  assert (Hnp : (E <= newprob <= 1)%R) by (unfold newprob; nra).
  assert (HnpD : (D <= newprob)%R) by (unfold newprob; nra).
  assert (Hpos : (0 < newprob)%R) by lra.
  split; [exact Hpos|].
  pose proof ln_10_pos as H10.
  pose proof ln_3_lt_half_ln_10 as H3.
  assert (Hup : (ln newprob <= 0)%R).
  { rewrite <- ln_1. apply ln_le_compat; lra. }
  assert (Hlo : (ln E <= ln newprob)%R) by (apply ln_le_compat; lra).
  unfold E in Hlo. rewrite ln_error_prob in Hlo.
  split; [split|].
  - assert (ln newprob / ln 10 <= 0)%R by (apply div_ln10_le; lra). lra.
  - rewrite plus_IZR.
    assert (- (IZR Q / 10) - / 2 < ln newprob / ln 10)%R
      by (apply div_ln10_gt; nra).
    lra.
  - intros HD100.
    assert (Hl : (ln (/ 100) <= ln newprob)%R) by (apply ln_le_compat; lra).
    rewrite ln_Rinv in Hl by lra.
    replace 100%R with (10 * 10)%R in Hl by lra.
    rewrite ln_mult in Hl by lra.
    assert (- 2 <= ln newprob / ln 10)%R by (apply div_ln10_ge; lra). lra.
Qed.

(** X9. Rescaling a C>T base (lines 497-500, 558-561): for a damage
    probability in [0, 1] and an original quality character [q] not below
    '!', the new quality character lies between '!' and [q + 4]: the
    adjusted Phred value is never negative and can exceed the original one
    by at most 4.  When the damage probability is at least 0.01, as under
    the default [PMDconstant], the new Phred value is at most 20. *)
Theorem rescaled_quality_bounds (fmodel : list R) (quals : str) (i : Z)
    (D : R) (q : char) (s' : str) :
  getitem fmodel i = Ok D ->
  getitem quals i = Ok q ->
  (0 <= D <= 1)%R -> 33 <= q -> 0 <= i ->
  (newprob <- Newbaseq i fmodel quals ;; rescale quals i newprob) = Ok s' ->
  exists newqual : char,
    getitem s' i = Ok newqual /\
    33 <= newqual <= q + 4 /\
    ((/ 100 <= D)%R -> newqual <= 53).
Proof.
  intros HD Hq HDb Hq33 Hi H.
  rewrite (Newbaseq_eq _ _ _ _ _ HD Hq) in H. cbn [bind] in H.
  destruct (new_phred_bounds D (q - 33) HDb ltac:(lia)) as (Hpos & Hph & H100).
  set (newprob := (1 - (1 - D) * (1 - phred2prob (q - 33) / 3))%R) in *.
  assert (Hlen : 0 <= i < len quals).
  { apply getitem_Ok_nth in Hq; [|exact Hi].
    assert (Hne : nth_error quals (Z.to_nat i) <> None) by congruence.
    apply nth_error_Some in Hne. unfold len. lia. }
  pose proof H as Hshape.
  apply rescale_shape in Hshape as (c & -> & ph & Hp & -> & _).
  rewrite prob2phred_value in Hp by exact Hpos. injection Hp as <-.
  exists (py_int_of_float (-10 * (ln newprob / ln 10)) + 33).
  split.
  - rewrite slice_prefix, slice_from_nonneg by lia.
    replace (Z.to_nat (i + 1)) with (S (Z.to_nat i)) by lia.
    rewrite getitem_nonneg, nth_error_replace by (unfold len in Hlen; lia).
    now rewrite Nat.eqb_refl.
  - unfold py_int_of_float.
    destruct (Rle_dec 0 (-10 * (ln newprob / ln 10))) as [_|C]; [|lra].
    pose proof (Int_part_bounds _ 0 (q - 33 + 5) Hph) as Hb.
    split; [lia|]. intros HD100. specialize (H100 HD100).
    destruct (base_Int_part (-10 * (ln newprob / ln 10))) as [B1 _].
    assert (Hz : (IZR (Int_part (-10 * (ln newprob / ln 10))) <= IZR 20)%R)
      by lra.
    apply le_IZR in Hz. lia.
Qed.

Lemma rescaled_quality_bounds_witness :
  exists s' : str,
    getitem [0.31%R] 0 = Ok 0.31%R /\
    getitem (lit "II") 0 = Ok 73 /\
    (0 <= 0.31 <= 1)%R /\ 33 <= 73 /\ 0 <= 0 /\
    (newprob <- Newbaseq 0 [0.31%R] (lit "II") ;;
     rescale (lit "II") 0 newprob) = Ok s' /\
    exists newqual : char,
      getitem s' 0 = Ok newqual /\ 33 <= newqual <= 73 + 4 /\
      ((/ 100 <= 0.31)%R -> newqual <= 53).
Proof.
  assert (H1 : getitem [0.31%R] 0 = Ok 0.31%R) by reflexivity.
  assert (H2 : getitem (lit "II") 0 = Ok 73) by reflexivity.
  assert (H3 : (0 <= 0.31 <= 1)%R) by lra.
  assert (H4 : 33 <= 73) by lia.
  assert (H5 : 0 <= 0) by lia.
  destruct (new_phred_bounds 0.31 (73 - 33) H3 ltac:(lia)) as (Hpos & Hph & _).
  assert (H6 : exists s', (newprob <- Newbaseq 0 [0.31%R] (lit "II") ;;
                           rescale (lit "II") 0 newprob) = Ok s').
  { rewrite (Newbaseq_eq _ _ _ _ _ H1 H2). cbn [bind].
    unfold rescale. rewrite prob2phred_value by exact Hpos. cbn [bind].
    unfold py_int_of_float.
    destruct (Rle_dec 0 _) as [_|C]; [|lra].
    pose proof (Int_part_bounds _ 0 (73 - 33 + 5) Hph) as Hb.
    unfold py_chr.
    destruct ((_ <? 0) || (1114111 <? _)) eqn:E.
    - apply orb_true_iff in E as [E|E]; apply Z.ltb_lt in E; lia.
    - cbn [bind]. eauto. }
  destruct H6 as [s' H6]. exists s'.
  repeat (split; [assumption|]).
  exact (rescaled_quality_bounds _ _ _ _ _ _ H1 H2 H3 H4 H5 H6).
Defined.

(* ================================================================= *)
(** ** The scoring loop under [--deamination] *)

Section DeaminationMode.

Variable o : options.
Variable readlen : Z.
Variable real_read : str.
Hypothesis Hdeam : deamination o = true.

(** The block of lines 513-541 ends in [continue] or [break]. *)
Lemma count_deamination_leaves (a b : char) (i z : Z) (st st' : score_state) :
  count_deamination o readlen real_read a b i z st <> Ok (Next st').
Proof.
  unfold count_deamination. rewrite Hdeam.
  destruct (if b =? chC then _ else _) as [[s1|s1|s1]|]; cbn [andthen];
    try discriminate.
  destruct (if b =? chG then _ else _) as [[s2|s2|s2]|]; cbn [andthen];
    discriminate.
Qed.

Lemma score_step_deamination (st : score_state) (abx : char * char * Z)
    (f : flow score_state) :
  score_step o readlen real_read st abx = Ok f ->
  same_score st (flow_state f).
Proof.
  destruct abx as [[a b] x]. unfold score_step.
  destruct ((a =? chN) || (b =? chN)).
  { intros H; injection H as <-. apply same_score_refl. }
  rewrite Z.sub_0_r.
  destruct (readlen <=? x).
  { intros H; injection H as <-. apply same_score_refl. }
  intros H.
  destruct (adjust_all o x (len real_read - 1 - x) st) as [g1|] eqn:H1;
    [|discriminate].
  pose proof (adjust_all_same _ _ _ _ _ H1) as S1.
  destruct g1 as [s1|s1|s1]; cbn [andthen] in H;
    try (injection H as <-; exact S1).
  destruct (low_quality o readlen real_read a b x _ _ s1) as [g2|] eqn:H2;
    [|discriminate].
  apply low_quality_same in H2 as [S2 _].
  destruct g2 as [s2|s2|s2]; cbn [andthen] in H;
    try (injection H as <-; eapply same_score_trans; eassumption).
  destruct (count_deamination o readlen real_read a b x _ s2) as [g3|] eqn:H3;
    [|discriminate].
  pose proof (count_deamination_leaves a b x (len real_read - 1 - x) s2) as L3.
  rewrite H3 in L3.
  apply count_deamination_same in H3 as [S3 _].
  destruct g3 as [s3|s3|s3]; cbn [andthen] in H.
  - exfalso. now apply (L3 s3).
  - injection H as <-. cbn [flow_state] in *.
    eapply same_score_trans; [exact S1|].
    eapply same_score_trans; eassumption.
  - injection H as <-. cbn [flow_state] in *.
    eapply same_score_trans; [exact S1|].
    eapply same_score_trans; eassumption.
Qed.

Lemma score_loop_deamination (l : list (char * char * Z))
    (st st' : score_state) :
  score_loop o readlen real_read st l = Ok st' -> same_score st st'.
Proof.
  revert st. induction l as [|abx l IH]; intros st H.
  - injection H as <-. apply same_score_refl.
  - cbn [score_loop] in H.
    destruct (score_step o readlen real_read st abx) as [g|] eqn:Hg;
      [|discriminate].
    cbn [bind] in H. apply score_step_deamination in Hg.
    destruct g as [s|s|s]; cbn [flow_state] in Hg.
    + eapply same_score_trans; [exact Hg|]. now apply IH.
    + eapply same_score_trans; [exact Hg|]. now apply IH.
    + now injection H as <-.
Qed.

End DeaminationMode.

(** X10. Under [--deamination] every pass of the scoring loop that reaches
    line 513 leaves it by [continue] or [break], so no likelihood is ever
    multiplied in: a record that is scored ends with [L_D = 1], [L_M = 1]
    and a PMD score [LR = 0], and its scored qualities are the ones it came
    with. *)
Theorem deamination_disables_scoring (o : options) (readlen : Z)
    (real_read quals real_ref_seq : str) (d d_rev : dict)
    (st : score_state) (LR : R) :
  deamination o = true ->
  scoring_block o readlen real_read quals real_ref_seq d d_rev = Ok (st, LR) ->
  sc_L_D st = 1%R /\ sc_L_M st = 1%R /\ LR = 0%R /\ sc_quals st = quals.
Proof.
  unfold scoring_block. intros Hdeam H.
  destruct (score_loop _ _ _ _ _) as [s|] eqn:Hloop; [|discriminate].
  cbn [bind] in H.
  apply score_loop_deamination in Hloop; [|exact Hdeam].
  destruct Hloop as (HD & HM & HQ). simpl in HD, HM, HQ.
  rewrite HD, HM in H. unfold fdiv in H.
  destruct (Req_dec_T 1 0) as [E|_]; [lra|].
  cbn [bind] in H. unfold math_log in H.
  replace (1 / 1)%R with 1%R in H by lra.
  destruct (Rlt_dec 0 1) as [_|E]; [|lra].
  cbn [bind] in H. injection H as <- <-.
  repeat split; [exact HD | exact HM | exact ln_1 | exact HQ].
Qed.

Lemma deamination_disables_scoring_witness :
  let o := set_deamination true default_options in
  let st := {| sc_L_D := 1; sc_L_M := 1; sc_quals := lit "II";
               sc_newquals := lit "II"; sc_dict := [(lit "CT0", 1)];
               sc_dict_rev := [] |} in
  deamination o = true /\
  scoring_block o 2 (lit "TA") (lit "II") (lit "CA") [] []
  = Ok (st, ln (1 / 1)) /\
  sc_L_D st = 1%R /\ sc_L_M st = 1%R /\ ln (1 / 1) = 0%R
  /\ sc_quals st = lit "II".
Proof.
  intros o st.
  assert (Hloop : score_loop o 2 (lit "TA")
                    {| sc_L_D := 1; sc_L_M := 1; sc_quals := lit "II";
                       sc_newquals := lit "II"; sc_dict := [];
                       sc_dict_rev := [] |}
                    (zip3 (lit "TA") (lit "CA")) = Ok st) by reflexivity.
  assert (H : scoring_block o 2 (lit "TA") (lit "II") (lit "CA") [] []
              = Ok (st, ln (1 / 1))).
  { unfold scoring_block. rewrite Hloop. cbn [bind]. unfold fdiv, st.
    cbn [sc_L_D sc_L_M].
    destruct (Req_dec_T 1 0) as [E|_]; [lra|]. cbn [bind].
    unfold math_log. destruct (Rlt_dec 0 (1 / 1)) as [_|E]; [|lra].
    reflexivity. }
  split; [reflexivity|]. split; [exact H|].
  exact (deamination_disables_scoring o 2 (lit "TA") (lit "II") (lit "CA")
           [] [] st (ln (1 / 1)) eq_refl H).
Defined.

(* ================================================================= *)
(** ** The scoring loop without [--adjustbaseq] *)

Lemma rescale_differs_at (quals : str) (i : Z) (P : R) (s' : str) :
  rescale quals i P = Ok s' -> 0 <= i < len quals -> differs_at quals s' i.
Proof.
  intros H Hi. apply rescale_shape in H as (c & -> & _).
  rewrite slice_prefix, slice_from_nonneg by lia.
  replace (Z.to_nat (i + 1)) with (S (Z.to_nat i)) by lia.
  assert (Hn : (Z.to_nat i < List.length quals)%nat)
    by (unfold len in Hi; lia).
  split.
  - unfold len. now rewrite length_replace.
  - intros j Hj Hne.
    rewrite !getitem_nonneg, nth_error_replace by lia.
    destruct (Nat.eqb_spec (Z.to_nat j) (Z.to_nat i)) as [E|E]; [lia|].
    reflexivity.
Qed.

Lemma differs_at_refl (s : str) (i : Z) : differs_at s s i.
Proof. now split. Qed.

Lemma getitem_Ok_range {A} (s : list A) (i : Z) (a : A) :
  0 <= i -> getitem s i = Ok a -> 0 <= i < len s.
Proof.
  intros Hi H. apply getitem_Ok_nth in H; [|exact Hi].
  assert (Hn : nth_error s (Z.to_nat i) <> None) by congruence.
  apply nth_error_Some in Hn. unfold len. lia.
Qed.

Lemma zip3_index_nonneg (real_read real_ref_seq : str) :
  Forall (fun abx : char * char * Z => 0 <= snd abx)
         (zip3 real_read real_ref_seq).
Proof.
  apply Forall_forall. intros [[a b] x] Hin. unfold zip3 in Hin.
  apply in_combine_r in Hin. unfold py_range in Hin.
  apply in_map_iff in Hin as (k & <- & _). simpl. lia.
Qed.

Lemma same_quals_refl (s : score_state) : same_quals s s.
Proof. now split. Qed.

Lemma same_quals_trans (s1 s2 s3 : score_state) :
  same_quals s1 s2 -> same_quals s2 s3 -> same_quals s1 s3.
Proof. unfold same_quals. intros [A B] [C D]. split; congruence. Qed.

Section NoAdjustbaseq.

Variable o : options.
Variable readlen : Z.
Variable real_read : str.
Hypothesis Hadj : adjustbaseq o = false.

Lemma low_quality_unchanged (a b : char) (i z : Z) (qualsrev : str)
    (st : score_state) (f : flow score_state) :
  low_quality o readlen real_read a b i z qualsrev st = Ok f ->
  flow_state f = st.
Proof.
  unfold low_quality. rewrite Hadj.
  destruct (getitem (sc_quals st) i) as [q|]; simpl; [|discriminate].
  destruct (q - 33 <? baseq o); intros H; injection H as <-; reflexivity.
Qed.

Lemma count_deamination_quals (a b : char) (i z : Z) (st : score_state)
    (f : flow score_state) :
  count_deamination o readlen real_read a b i z st = Ok f ->
  same_quals st (flow_state f).
Proof.
  unfold count_deamination. destruct (deamination o).
  - intros H.
    assert (H1 : forall g,
               (if b =? chC
                then st' <~ cpg_gate o readlen real_read i chG st ;;
                     (let thekey := [b] ++ [a] ++ py_str_int i in
                      Ok (Next (set_dict (dict_incr thekey (sc_dict st')) st')))
                else Ok (Next st)) = Ok g -> same_quals st (flow_state g)).
    { intros g. destruct (b =? chC).
      - destruct (cpg_gate _ _ _ _ _ _) as [g0|] eqn:Hg; [|discriminate].
        pose proof (cpg_gate_state _ _ _ _ _ _ _ Hg) as Hs.
        destruct g0 as [s|s|s]; simpl in Hs; subst s; cbn [andthen];
          intros E; injection E as <-; now split.
      - intros E; injection E as <-. now split. }
    destruct (if b =? chC then _ else _) as [g1|]; [|discriminate].
    specialize (H1 g1 eq_refl).
    destruct g1 as [s1|s1|s1]; cbn [andthen] in H; simpl in H1.
    + destruct (b =? chG).
      * destruct (cpg o).
        -- destruct (readlen <=? i + 1); cbn [andthen] in H; [|discriminate].
           injection H as <-. exact H1.
        -- cbn [andthen] in H. injection H as <-.
           eapply same_quals_trans; [exact H1 | now split].
      * cbn [andthen] in H. injection H as <-. exact H1.
    + injection H as <-. exact H1.
    + injection H as <-. exact H1.
  - intros H; injection H as <-. apply same_quals_refl.
Qed.

Lemma score_quals (a b : char) (i z : Z) (qualsrev : str) (st : score_state)
    (f : flow score_state) :
  score o readlen real_read a b i z qualsrev st = Ok f ->
  same_quals st (flow_state f).
Proof.
  unfold score. rewrite Hadj.
  destruct (readlen <=? i).
  { intros H; injection H as <-. apply same_quals_refl. }
  intros H.
  assert (H1 : forall g,
             (if b =? chC
              then st' <~ cpg_gate o readlen real_read i chG st ;;
                   (if a =? chT
                    then m_d <- L_mismatch i (ancient_model_deam o)
                                  (sc_quals st') (polymorphism_ancient o) ;;
                         m_m <- L_mismatch i modern_model_deam (sc_quals st')
                                  (polymorphism_contamination o) ;;
                         Ok (Next (set_L (sc_L_D st' * m_d)
                                     (sc_L_M st' * m_m) st'))
                    else if a =? chC
                    then m_d <- L_match i (ancient_model_deam o)
                                  (sc_quals st') (polymorphism_ancient o) ;;
                         m_m <- L_match i modern_model_deam (sc_quals st')
                                  (polymorphism_contamination o) ;;
                         Ok (Next (set_L (sc_L_D st' * m_d)
                                     (sc_L_M st' * m_m) st'))
                    else Ok (Next st'))
              else Ok (Next st)) = Ok g -> same_quals st (flow_state g)).
  { clear H. intros g. destruct (b =? chC).
    - destruct (cpg_gate _ _ _ _ _ _) as [g0|] eqn:Hg; [|discriminate].
      pose proof (cpg_gate_state _ _ _ _ _ _ _ Hg) as Hs.
      destruct g0 as [s|s|s]; simpl in Hs; subst s; cbn [andthen];
        try (intros E; injection E as <-; now split).
      destruct (a =? chT); [|destruct (a =? chC)].
      + destruct (L_mismatch _ _ _ _); simpl; [|discriminate].
        destruct (L_mismatch _ _ _ _); simpl; [|discriminate].
        intros E; injection E as <-; now split.
      + destruct (L_match _ _ _ _); simpl; [|discriminate].
        destruct (L_match _ _ _ _); simpl; [|discriminate].
        intros E; injection E as <-; now split.
      + intros E; injection E as <-; now split.
    - intros E; injection E as <-. now split. }
  destruct (if b =? chC then _ else _) as [g1|]; [|discriminate].
  specialize (H1 g1 eq_refl).
  destruct g1 as [s1|s1|s1]; cbn [andthen] in H; simpl in H1;
    try (injection H as <-; exact H1).
  eapply same_quals_trans; [exact H1|].
  destruct (b =? chG).
  - destruct (cpg_gate _ _ _ _ _ _) as [g0|] eqn:Hg; [|discriminate].
    pose proof (cpg_gate_state _ _ _ _ _ _ _ Hg) as Hs.
    destruct g0 as [s|s|s]; simpl in Hs; subst s; cbn [andthen] in H;
      try (injection H as <-; now split).
    destruct (a =? chA); [|destruct (a =? chG)].
    + destruct (L_mismatch _ _ _ _); simpl in H; [|discriminate].
      destruct (L_mismatch _ _ _ _); simpl in H; [|discriminate].
      injection H as <-; now split.
    + destruct (L_match _ _ _ _); simpl in H; [|discriminate].
      destruct (L_match _ _ _ _); simpl in H; [|discriminate].
      injection H as <-; now split.
    + injection H as <-; now split.
  - injection H as <-. now split.
Qed.

Lemma adjust_all_one_position (i z : Z) (st : score_state)
    (f : flow score_state) :
  adjust_all o i z st = Ok f -> 0 <= i ->
  sc_quals (flow_state f) = sc_quals st /\
  (sc_newquals (flow_state f) = sc_newquals st \/
   differs_at (sc_quals st) (sc_newquals (flow_state f)) i).
Proof.
  unfold adjust_all. intros H Hi. destruct (adjustbaseq_all o).
  - destruct (getitem (adjustment_model_deam o) i); simpl in H; [|discriminate].
    destruct (getitem (adjustment_model_deam o) z); simpl in H; [|discriminate].
    destruct (getitem (sc_quals st) i) as [q|] eqn:Hq; simpl in H;
      [|discriminate].
    destruct (rescale _ _ _) as [nq|] eqn:Hr; simpl in H; [|discriminate].
    injection H as <-. simpl. split; [reflexivity|]. right.
    eapply rescale_differs_at; [exact Hr|].
    eapply getitem_Ok_range; eassumption.
  - injection H as <-. simpl. now split; [|left].
Qed.

(** What the loop keeps true of [quals] and [newquals]. *)
Lemma score_step_one_position (quals : str) (st : score_state)
    (abx : char * char * Z) (f : flow score_state) :
  score_step o readlen real_read st abx = Ok f ->
  0 <= snd abx ->
  sc_quals st = quals ->
  (exists i, differs_at quals (sc_newquals st) i) ->
  sc_quals (flow_state f) = quals /\
  (exists i, differs_at quals (sc_newquals (flow_state f)) i).
Proof.
  destruct abx as [[a b] x]. unfold score_step. cbn [snd].
  intros H Hx Hq Hn.
  destruct ((a =? chN) || (b =? chN)).
  { injection H as <-. now split. }
  rewrite Z.sub_0_r in H.
  destruct (readlen <=? x).
  { injection H as <-. now split. }
  destruct (adjust_all o x (len real_read - 1 - x) st) as [g1|] eqn:H1;
    [|discriminate].
  apply adjust_all_one_position in H1 as [Q1 N1]; [|exact Hx].
  assert (I1 : sc_quals (flow_state g1) = quals /\
               exists i, differs_at quals (sc_newquals (flow_state g1)) i).
  { split; [congruence|]. destruct N1 as [N1|N1].
    - rewrite N1. exact Hn.
    - exists x. now rewrite <- Hq. }
  clear Q1 N1.
  destruct g1 as [s1|s1|s1]; cbn [andthen] in H; cbn [flow_state] in I1;
    try (injection H as <-; exact I1).
  destruct (low_quality o readlen real_read a b x _ _ s1) as [g2|] eqn:H2;
    [|discriminate].
  apply low_quality_unchanged in H2.
  destruct g2 as [s2|s2|s2]; cbn [andthen] in H; cbn [flow_state] in H2;
    subst s2; try (injection H as <-; exact I1).
  destruct (count_deamination o readlen real_read a b x _ s1) as [g3|] eqn:H3;
    [|discriminate].
  apply count_deamination_quals in H3 as [Q3 N3].
  assert (I3 : sc_quals (flow_state g3) = quals /\
               exists i, differs_at quals (sc_newquals (flow_state g3)) i).
  { rewrite Q3, N3. exact I1. }
  clear Q3 N3.
  destruct g3 as [s3|s3|s3]; cbn [andthen] in H; cbn [flow_state] in I3;
    try (injection H as <-; exact I3).
  apply score_quals in H as [Q4 N4]. rewrite Q4, N4. exact I3.
Qed.

Lemma score_loop_one_position (quals : str) (l : list (char * char * Z))
    (st st' : score_state) :
  score_loop o readlen real_read st l = Ok st' ->
  Forall (fun abx : char * char * Z => 0 <= snd abx) l ->
  sc_quals st = quals ->
  (exists i, differs_at quals (sc_newquals st) i) ->
  sc_quals st' = quals /\ (exists i, differs_at quals (sc_newquals st') i).
Proof.
  revert st. induction l as [|abx l IH]; intros st H Hall Hq Hn.
  - injection H as <-. now split.
  - cbn [score_loop] in H. apply Forall_cons_iff in Hall as [Hx Hall'].
    destruct (score_step o readlen real_read st abx) as [g|] eqn:Hg;
      [|discriminate].
    cbn [bind] in H.
    destruct (score_step_one_position quals _ _ _ Hg Hx Hq Hn) as [Q N].
    destruct g as [s|s|s]; cbn [flow_state] in Q, N.
    + now apply (IH s).
    + now apply (IH s).
    + injection H as <-. now split.
Qed.

End NoAdjustbaseq.

(** X11. Without [--adjustbaseq] the scoring loop never changes [quals], and
    every rescaling of [--adjustbaseq_all] (line 487) builds [newquals] anew
    from that unchanged [quals]: the qualities handed on after the loop have
    the length of the input qualities and differ from them in at most one
    position, whatever the number of positions that were rescaled. *)
Theorem adjustbaseq_all_one_position (o : options) (readlen : Z)
    (real_read quals real_ref_seq : str) (d d_rev : dict)
    (st : score_state) (LR : R) :
  adjustbaseq o = false ->
  scoring_block o readlen real_read quals real_ref_seq d d_rev = Ok (st, LR) ->
  sc_quals st = quals /\ exists i, differs_at quals (sc_newquals st) i.
Proof.
  unfold scoring_block. intros Hadj H.
  destruct (score_loop _ _ _ _ _) as [s|] eqn:Hloop; [|discriminate].
  cbn [bind] in H.
  destruct (fdiv _ _); [|discriminate]. cbn [bind] in H.
  destruct (math_log _); [|discriminate]. cbn [bind] in H.
  injection H as <- _.
  eapply score_loop_one_position in Hloop; try eassumption.
  - apply zip3_index_nonneg.
  - reflexivity.
  - exists 0. apply differs_at_refl.
Qed.

Lemma phred2prob_10 : phred2prob 10 = (/ 10)%R.
Proof.
  unfold phred2prob.
  assert (E : (- IZR 10 / 10 = - (1))%R) by lra.
  rewrite E, Rpower_Ropp, Rpower_1 by lra. reflexivity.
Qed.

Lemma adjustbaseq_all_one_position_witness :
  let o := set_adjustbaseq_all true default_options in
  exists (st : score_state) (LR : R),
    adjustbaseq o = false /\
    scoring_block o 2 (lit "AA") (lit "II") (lit "AA") [] [] = Ok (st, LR) /\
    sc_quals st = lit "II" /\
    exists i, differs_at (lit "II") (sc_newquals st) i.
Proof.
  intros o.
  assert (HP : (0 < phred2prob (73 - 33) < / 10)%R).
  { split; [apply phred2prob_bounds; lia|].
    rewrite <- phred2prob_10. apply phred2prob_decreasing. lia. }
  assert (HD0 : getitem (adjustment_model_deam o) 0 = Ok 0.3%R).
  { rewrite getitem_adjustment by lia. f_equal. unfold geometric.
    change (PMDpparam o) with 0.3%R. change (0 + 1 - 1) with 0.
    cbn [powerRZ]. lra. }
  assert (HD1 : getitem (adjustment_model_deam o) 1 = Ok 0.21%R).
  { rewrite getitem_adjustment by lia. f_equal. unfold geometric.
    change (PMDpparam o) with 0.3%R. change (1 + 1 - 1) with 1.
    rewrite powerRZ_1. lra. }
  set (P0 := (0.3 + 0.21 + phred2prob (73 - 33))%R).
  set (P1 := (0.21 + 0.3 + phred2prob (73 - 33))%R).
  destruct (rescale_bounds [73; 73] 0 P0 ltac:(unfold P0; lra))
    as (nq0 & Hr0 & _).
  destruct (rescale_bounds [73; 73] 1 P1 ltac:(unfold P1; lra))
    as (nq1 & Hr1 & _).
  change (slice [73; 73] 0 0 ++ [nq0] ++ slice_from [73; 73] (0 + 1))
    with [nq0; 73] in Hr0.
  change (slice [73; 73] 0 1 ++ [nq1] ++ slice_from [73; 73] (1 + 1))
    with [73; nq1] in Hr1.
  assert (Hstep : forall (x : Z) (nq nq' : str) (d dz : R),
            (x <? 2) = true ->
            getitem (adjustment_model_deam o) x = Ok d ->
            getitem (adjustment_model_deam o) (2 - 1 - x) = Ok dz ->
            @getitem char [73; 73] x = Ok 73 ->
            rescale [73; 73] x (d + dz + phred2prob (73 - 33)) = Ok nq' ->
            score_step o 2 (lit "AA")
              {| sc_L_D := 1; sc_L_M := 1; sc_quals := [73; 73];
                 sc_newquals := nq; sc_dict := []; sc_dict_rev := [] |}
              (chA, chA, x)
            = Ok (Next {| sc_L_D := 1; sc_L_M := 1; sc_quals := [73; 73];
                          sc_newquals := nq'; sc_dict := [];
                          sc_dict_rev := [] |})).
  { intros x nq nq' d dz Hx Hd Hdz Hq Hr.
    unfold score_step. change ((chA =? chN) || (chA =? chN)) with false.
    cbv iota. rewrite Z.sub_0_r. change (len (lit "AA")) with 2.
    assert (Hx' : (2 <=? x) = false)
      by (apply Z.leb_gt; apply Z.ltb_lt; exact Hx).
    rewrite Hx'.
    unfold adjust_all. change (adjustbaseq_all o) with true. cbv iota.
    rewrite Hd, Hdz. cbn [bind sc_quals]. rewrite Hq. cbn [bind].
    rewrite Hr. cbn [bind andthen].
    unfold low_quality. cbn [sc_quals set_newquals]. rewrite Hq. cbn [bind].
    change (73 - 33 <? baseq o) with false. cbv iota. cbn [andthen].
    unfold count_deamination. change (deamination o) with false.
    cbv iota. cbn [andthen].
    unfold score. rewrite Hx'. change (chA =? chC) with false.
    change (chA =? chG) with false. cbv iota. cbn [andthen]. reflexivity. }
  exists {| sc_L_D := 1; sc_L_M := 1; sc_quals := [73; 73];
            sc_newquals := [73; nq1]; sc_dict := []; sc_dict_rev := [] |},
         (ln (1 / 1)).
  assert (H : scoring_block o 2 (lit "AA") (lit "II") (lit "AA") [] []
              = Ok ({| sc_L_D := 1; sc_L_M := 1; sc_quals := [73; 73];
                       sc_newquals := [73; nq1]; sc_dict := [];
                       sc_dict_rev := [] |}, ln (1 / 1))).
  { unfold scoring_block.
    change (zip3 (lit "AA") (lit "AA")) with [(chA, chA, 0); (chA, chA, 1)].
    change (lit "II") with [73; 73].
    cbn [score_loop].
    rewrite (Hstep 0 [73; 73] [nq0; 73] 0.3%R 0.21%R eq_refl HD0 HD1
               eq_refl Hr0).
    cbn [bind].
    rewrite (Hstep 1 [nq0; 73] [73; nq1] 0.21%R 0.3%R eq_refl HD1 HD0
               eq_refl Hr1).
    cbn [bind sc_L_D sc_L_M]. unfold fdiv.
    destruct (Req_dec_T 1 0) as [E|_]; [lra|]. cbn [bind].
    unfold math_log. destruct (Rlt_dec 0 (1 / 1)) as [_|E]; [|lra].
    reflexivity. }
  split; [reflexivity|]. split; [exact H|].
  exact (adjustbaseq_all_one_position o 2 (lit "AA") (lit "II") (lit "AA")
           [] [] _ _ eq_refl H).
Defined.

(* ================================================================= *)
(** ** The divergence filter (lines 431-458) *)

Lemma pid_step_counts (acc : Z * Z * str) (ab : char * char) :
  let '(n_match, n_mismatch, ms) := acc in
  let '(n_match', n_mismatch', ms') := pid_step acc ab in
  n_match <= n_match' /\ n_mismatch <= n_mismatch' /\
  (damage_or_match ab = true -> n_mismatch' = n_mismatch) /\
  len ms' = len ms + (if skipped_N ab then 0 else 1).
Proof.
  destruct acc as [[n_match n_mismatch] ms]. destruct ab as [a b].
  unfold pid_step, damage_or_match, skipped_N, len.
  destruct ((a =? chGap) || (b =? chGap)) eqn:Eg.
  { cbn [negb andb orb]. rewrite length_app. cbn [List.length].
    repeat split; lia. }
  cbn [orb negb andb].
  destruct (a =? chN) eqn:EaN.
  { cbn [orb]. repeat split; lia. }
  destruct (b =? chN) eqn:EbN.
  { cbn [orb]. repeat split; lia. }
  cbn [orb].
  destruct (a =? b).
  { rewrite length_app. cbn [List.length lit list_ascii_of_string map].
    repeat split; lia. }
  cbn [orb].
  destruct ((b =? chC) && (a =? chT)).
  { rewrite length_app. cbn [List.length lit list_ascii_of_string map].
    repeat split; lia. }
  cbn [orb].
  destruct ((b =? chG) && (a =? chA)).
  { rewrite length_app. cbn [List.length lit list_ascii_of_string map].
    repeat split; lia. }
  rewrite length_app. cbn [List.length lit list_ascii_of_string map].
  repeat split; lia.
Qed.

Lemma pid_fold_counts (l : list (char * char)) (acc : Z * Z * str) :
  let '(n_match, n_mismatch, ms) := acc in
  let '(n_match', n_mismatch', ms') := fold_left pid_step l acc in
  n_match <= n_match' /\ n_mismatch <= n_mismatch' /\
  (forallb damage_or_match l = true -> n_mismatch' = n_mismatch) /\
  len ms' = len ms + len l - len (filter skipped_N l).
Proof.
  revert acc. induction l as [|ab l IH]; intros [[n_match n_mismatch] ms].
  - cbn [fold_left forallb filter]. unfold len. cbn [List.length].
    repeat split; lia.
  - cbn [fold_left forallb filter].
    pose proof (pid_step_counts (n_match, n_mismatch, ms) ab) as Hs.
    cbv beta iota in Hs.
    destruct (pid_step (n_match, n_mismatch, ms) ab) as [[m1 mm1] ms1].
    destruct Hs as (H1 & H2 & H3 & H4).
    specialize (IH (m1, mm1, ms1)). cbv beta iota in IH.
    destruct (fold_left pid_step l (m1, mm1, ms1)) as [[m2 mm2] ms2].
    destruct IH as (I1 & I2 & I3 & I4).
    split; [lia|]. split; [lia|]. split.
    + intros Hall. apply andb_prop in Hall as [Ha Hl].
      rewrite (I3 Hl). now apply H3.
    + rewrite I4, H4. unfold len.
      destruct (skipped_N ab); cbn [List.length]; lia.
Qed.

(** X12. Post-mortem damage is not divergence: when every aligned pair is a
    gap, an [N], a match, or a C>T or G>A substitution, and at least one
    pair is counted, the identity of line 455 is 1 and the record passes
    the filter for every [--perc_identity] up to 1. *)
Theorem damage_is_not_divergence (o : options) (st : state) (al : aligned) :
  forallb damage_or_match (combine (real_read al) (real_ref_seq al)) = true ->
  overlap al <> 0 ->
  (perc_identity o <= 1)%R ->
  exists mismatch_string, divergence_filter o st al = Go mismatch_string.
Proof.
  intros Hall Hov Hp. unfold divergence_filter. unfold overlap in Hov.
  pose proof (pid_fold_counts (combine (real_read al) (real_ref_seq al))
                (0, 0, [])) as Hc.
  cbv beta iota in Hc.
  destruct (fold_left pid_step _ _) as [[n_match n_mismatch] ms].
  destruct Hc as (H1 & _ & H3 & _).
  rewrite (H3 Hall) in *. rewrite Z.add_0_r in *.
  destruct (n_match =? 0) eqn:E; [apply Z.eqb_eq in E; contradiction|].
  assert (Hpos : (0 < IZR n_match)%R) by (apply IZR_lt; lia).
  replace (1 * IZR n_match / IZR n_match)%R with 1%R by (field; lra).
  unfold Rltb. destruct (Rlt_dec 1 (perc_identity o)); [lra|].
  now exists ms.
Qed.

Lemma damage_is_not_divergence_witness :
  let o := set_perc_identity 1 default_options in
  let al := {| real_read := lit "TAGA"; real_ref_seq := lit "CAGG";
               a_quals := lit "IIII" |} in
  forallb damage_or_match (combine (real_read al) (real_ref_seq al)) = true /\
  overlap al <> 0 /\
  (perc_identity o <= 1)%R /\
  exists mismatch_string,
    divergence_filter o initial_state al = Go mismatch_string.
Proof.
  intros o al.
  assert (H1 : forallb damage_or_match
                 (combine (real_read al) (real_ref_seq al)) = true)
    by reflexivity.
  assert (H2 : overlap al <> 0) by (vm_compute; discriminate).
  assert (H3 : (perc_identity o <= 1)%R)
    by (cbn [perc_identity o set_perc_identity]; lra).
  split; [exact H1|]. split; [exact H2|]. split; [exact H3|].
  exact (damage_is_not_divergence o initial_state al H1 H2 H3).
Defined.

(** X13. The string printed between read and reference under
    [--printalignments] has one character for every aligned pair except
    the pairs with an [N] and no gap, which lines 443-444 pass over: it
    lines up with the two sequences only when there is no such pair. *)
Theorem mismatch_string_length (o : options) (st : state) (al : aligned)
    (mismatch_string : str) :
  divergence_filter o st al = Go mismatch_string ->
  let pairs := combine (real_read al) (real_ref_seq al) in
  len mismatch_string = len pairs - len (filter skipped_N pairs).
Proof.
  intros H pairs. unfold divergence_filter in H. fold pairs in H.
  pose proof (pid_fold_counts pairs (0, 0, [])) as Hc. cbv beta iota in Hc.
  destruct (fold_left pid_step pairs (0, 0, [])) as [[n_match n_mismatch] ms].
  destruct Hc as (_ & _ & _ & H4).
  destruct (n_match + n_mismatch =? 0); [discriminate|].
  destruct (Rltb _ _); [discriminate|].
  injection H as <-. rewrite H4. unfold len at 1. cbn [List.length]. lia.
Qed.

Lemma mismatch_string_length_witness :
  let al := {| real_read := lit "TANA"; real_ref_seq := lit "CAGG";
               a_quals := lit "IIII" |} in
  let pairs := combine (real_read al) (real_ref_seq al) in
  divergence_filter default_options initial_state al = Go (lit "x|x") /\
  len (lit "x|x") = len pairs - len (filter skipped_N pairs).
Proof.
  intros al pairs.
  assert (H : divergence_filter default_options initial_state al
              = Go (lit "x|x")).
  { unfold divergence_filter.
    change (fold_left pid_step (combine (real_read al) (real_ref_seq al))
              (0, 0, [])) with (1, 0, lit "x|x").
    change (1 + 0 =? 0) with false. cbv iota.
    cbn [perc_identity default_options]. change (1 + 0) with 1.
    unfold Rltb. destruct (Rlt_dec _ _) as [E|_]; [lra | reflexivity]. }
  split; [exact H|].
  exact (mismatch_string_length default_options initial_state al _ H).
Defined.

(* ================================================================= *)
(** ** The basic filter (lines 414-428) *)

Lemma basic_loop_sound (o : options) (readlen start_position : Z)
    (quals : str) (l : list (char * char * Z)) :
  basic_loop o readlen start_position quals l = Ok true ->
  exists (x : Z) (q : char),
    In (chT, chC, x) l /\
    x - start_position < readlen /\ x - start_position <= basic o /\
    getitem quals (x - start_position) = Ok q /\ baseq o < q - 33.
Proof.
  induction l as [|[[a b] x] l IH]; cbn [basic_loop]; [discriminate|].
  intros H.
  assert (Hrest : basic_loop o readlen start_position quals l = Ok true ->
                  exists (x0 : Z) (q : char),
                    In (chT, chC, x0) ((a, b, x) :: l) /\
                    x0 - start_position < readlen /\
                    x0 - start_position <= basic o /\
                    getitem quals (x0 - start_position) = Ok q /\
                    baseq o < q - 33).
  { intros H'. destruct (IH H') as (x0 & q & Hin & Hrest).
    exists x0, q. split; [now right | exact Hrest]. }
  destruct (a =? chN); [now apply Hrest|].
  destruct (b =? chN); [now apply Hrest|].
  destruct (readlen <=? x - start_position) eqn:E1; [discriminate|].
  destruct (basic o <? x - start_position) eqn:E2; [discriminate|].
  destruct ((b =? chC) && (a =? chT)) eqn:E3; [|now apply Hrest].
  destruct (getitem quals (x - start_position)) as [q|] eqn:Hq;
    cbn [bind] in H; [|discriminate].
  destruct (baseq o <? q - 33) eqn:E4; [|now apply Hrest].
  apply andb_prop in E3 as [Eb Ea].
  apply Z.eqb_eq in Ea, Eb. subst a b.
  exists x, q. split; [now left|].
  apply Z.leb_gt in E1. apply Z.ltb_ge in E2. apply Z.ltb_lt in E4.
  repeat split; try assumption; lia.
Qed.

(** X14. The basic filter prints nothing but the line of the record, at
    most once, and only when the alignment has a T in the read over a C in
    the reference, at a position inside the read and not beyond [--basic],
    whose base quality is above [--requirebaseq]. *)
Theorem basic_filter_sound (o : options) (st st' : state) (line : str)
    (r : sam) (al : aligned) :
  basic_filter o st line r al = Ok st' ->
  st' = st \/
  (st' = emit (Print (rstrip chNL line)) st /\
   exists (x : Z) (q : char),
     let i := x - (len (real_read al) - len (lstrip chGap (real_read al))) in
     In (chT, chC, x) (zip3 (real_read al) (real_ref_seq al)) /\
     i < readlen r /\ i <= basic o /\
     getitem (a_quals al) i = Ok q /\ baseq o < q - 33).
Proof.
  unfold basic_filter. intros H.
  destruct (basic_loop _ _ _ _ _) as [[|]|] eqn:Hloop; cbn [bind] in H;
    [| |discriminate]; injection H as <-.
  - right. split; [reflexivity|]. now apply basic_loop_sound in Hloop.
  - now left.
Qed.

Lemma basic_filter_sound_witness :
  let o := set_basic 2 default_options in
  let al := {| real_read := lit "ATA"; real_ref_seq := lit "ACA";
               a_quals := lit "III" |} in
  let r := {| col := []; read := lit "ATA"; readlen := 3; quals := lit "III";
              cigar := lit "3M"; reverse := false |} in
  let st' := emit (Print (lit "r1")) initial_state in
  basic_filter o initial_state (lit "r1") r al = Ok st' /\
  (st' = initial_state \/
   (st' = emit (Print (rstrip chNL (lit "r1"))) initial_state /\
    exists (x : Z) (q : char),
      let i := x - (len (real_read al) - len (lstrip chGap (real_read al))) in
      In (chT, chC, x) (zip3 (real_read al) (real_ref_seq al)) /\
      i < readlen r /\ i <= basic o /\
      getitem (a_quals al) i = Ok q /\ baseq o < q - 33)).
Proof.
  intros o al r st'.
  assert (H : basic_filter o initial_state (lit "r1") r al = Ok st')
    by reflexivity.
  split; [exact H|].
  exact (basic_filter_sound o initial_state st' (lit "r1") r al H).
Defined.

(* ================================================================= *)
(** ** Lines with too few columns *)

Lemma getitem_Err {A} (s : list A) (i : Z) (e : exn) :
  getitem s i = Err e -> e = IndexError.
Proof.
  unfold getitem. destruct (_ <? 0); [congruence|].
  destruct (nth_error _ _); congruence.
Qed.

Lemma getitem_beyond {A} (s : list A) (i : Z) :
  len s <= i -> getitem s i = Err IndexError.
Proof.
  intros H. unfold getitem, len in *.
  destruct (i <? 0) eqn:E; [apply Z.ltb_lt in E; lia|].
  rewrite E.
  destruct (nth_error s (Z.to_nat i)) eqn:Hn; [|reflexivity].
  assert (Hs : nth_error s (Z.to_nat i) <> None) by congruence.
  apply nth_error_Some in Hs. lia.
Qed.

Lemma py_int_Err (s : str) (e : exn) : py_int s = Err e -> e = ValueError.
Proof.
  unfold py_int.
  destruct (match strip_ws s with
            | 43 :: r => (1, r)
            | 45 :: r => (-1, r)
            | _ => (1, strip_ws s)
            end) as [sign body].
  destruct (int_body body false); congruence.
Qed.

(** [s.split('\t')] has one piece more than [s] has tabs. *)
Lemma split_tab_length (s cur : str) :
  len (split_aux [chTab] s 0 cur) = 1 + count_char chTab s.
Proof.
  unfold count_char, len. revert cur.
  induction s as [|c s IH]; intros cur; [reflexivity|].
  cbn [split_aux is_prefix filter List.length Nat.sub].
  rewrite andb_true_r.
  destruct (chTab =? c); cbn [List.length];
    rewrite ?Nat2Z.inj_succ, ?IH; lia.
Qed.

Section ShortLines.

Variable o : options.
Variable py_float : str -> result R.
Variable str_round3 : R -> str.

Lemma admission_short (st : state) (line : str) (c : char) :
  getitem line 0 = Ok c -> c <> chAt ->
  chromosome o = [] ->
  count_char chTab line < 10 ->
  exists e, admission o st line = Err e /\ (e = IndexError \/ e = ValueError).
Proof.
  intros Hc Hat Hchr Hn. unfold admission. rewrite Hc. cbn [bind].
  destruct (c =? chAt) eqn:E; [apply Z.eqb_eq in E; contradiction|].
  cbv zeta.
  assert (H10 : getitem (split [chTab] line) 10 = Err IndexError).
  { apply getitem_beyond. unfold split. rewrite split_tab_length. lia. }
  rewrite H10, Hchr. change (negb (str_eqb [] [])) with false.
  cbn [andb].
  destruct (getitem (split [chTab] line) 0) eqn:H0; cbn [bind];
    [|eexists; split; [reflexivity | left; eapply getitem_Err; eassumption]].
  destruct (getitem (split [chTab] line) 3) as [c3|] eqn:H3; cbn [bind];
    [|eexists; split; [reflexivity | left; eapply getitem_Err; eassumption]].
  destruct (py_int c3) eqn:P3; cbn [bind];
    [|eexists; split; [reflexivity | right; eapply py_int_Err; eassumption]].
  destruct (getitem (split [chTab] line) 2) eqn:H2; cbn [bind];
    [|eexists; split; [reflexivity | left; eapply getitem_Err; eassumption]].
  destruct (getitem (split [chTab] line) 4) as [c4|] eqn:H4; cbn [bind];
    [|eexists; split; [reflexivity | left; eapply getitem_Err; eassumption]].
  destruct (py_int c4) eqn:P4; cbn [bind];
    [|eexists; split; [reflexivity | right; eapply py_int_Err; eassumption]].
  destruct (getitem (split [chTab] line) 9) eqn:H9; cbn [bind];
    [|eexists; split; [reflexivity | left; eapply getitem_Err; eassumption]].
  eexists; split; [reflexivity | now left].
Qed.

End ShortLines.

(** X15. A line that is not a header and has fewer than 11 tab-separated
    columns is not skipped: with no [--chromosome] given, reading its
    columns raises [IndexError] (or [ValueError], when column 4 or 5 is
    there and is no integer), which nothing catches: the run ends there
    and the lines that follow are not read. *)
Theorem short_line_aborts (o : options) (py_float : str -> result R)
    (str_round3 : R -> str) (st : state) (line : str) (lines : list str)
    (c : char) :
  getitem line 0 = Ok c -> c <> chAt ->
  chromosome o = [] ->
  count_char chTab line < 10 ->
  exists e,
    main_loop o py_float str_round3 st (line :: lines) = Err e /\
    (e = IndexError \/ e = ValueError).
Proof.
  intros Hc Hat Hchr Hn.
  destruct (admission_short o st line c Hc Hat Hchr Hn) as (e & He & Hcase).
  exists e. split; [|exact Hcase].
  cbn [main_loop]. unfold process_line. rewrite He. reflexivity.
Qed.

Lemma short_line_aborts_witness :
  let line := sam_line ["r1"; "0"; "chr1"; "100"; "30"; "10M"]%string in
  let next := sam_line ["r2"; "0"; "chr1"; "200"; "30"; "10M"; "*"; "0"; "0";
                        "ACGTACGTAC"; "IIIIIIIIII"; "MD:Z:10"]%string in
  getitem line 0 = Ok 114 /\ 114 <> chAt /\
  chromosome default_options = [] /\
  count_char chTab line < 10 /\
  exists e,
    main_loop default_options no_float no_repr initial_state [line; next]
    = Err e /\
    (e = IndexError \/ e = ValueError).
Proof.
  intros line next.
  assert (H1 : getitem line 0 = Ok 114) by reflexivity.
  assert (H2 : 114 <> chAt) by discriminate.
  assert (H3 : chromosome default_options = []) by reflexivity.
  assert (H4 : count_char chTab line < 10) by (vm_compute; reflexivity).
  split; [exact H1|]. split; [exact H2|]. split; [exact H3|].
  split; [exact H4|].
  exact (short_line_aborts default_options no_float no_repr initial_state
           line [next] 114 H1 H2 H3 H4).
Defined.

(* ================================================================= *)
(** ** What one line does to the counters and to the output *)

Lemma resolve_prin : resolve "prin" = Err (NameError (lit "prin")).
Proof. reflexivity. Qed.

Lemma same_output_refl (s : state) : same_output s s.
Proof. now repeat split. Qed.

Lemma same_output_trans (s1 s2 s3 : state) :
  same_output s1 s2 -> same_output s2 s3 -> same_output s1 s3.
Proof.
  unfold same_output. intros (A & B & C) (D & E & F).
  repeat split; congruence.
Qed.

Section LineEffects.

Variable o : options.
Variable py_float : str -> result R.
Variable str_round3 : R -> str.

(** A record dropped by lines 249-313 leaves no trace but a header line
    under [--header]. *)
Lemma admission_effect (st : state) (line : str)
    (adm : stage (state * sam)) :
  admission o st line = Ok adm ->
  match adm with
  | Skipped st1 =>
      same_output st st1 \/
      (header o = true /\ st1 = emit (Print (rstrip chNL line)) st)
  | Go (st1, _) => same_output st st1
  end.
Proof.
  unfold admission. intros H.
  destruct (getitem line 0) as [c0|]; cbn [bind] in H; [|discriminate].
  destruct (c0 =? chAt).
  { injection H as <-. destruct (header o); [right | left]; now repeat split. }
  cbv zeta in H.
  repeat match type of H with
         | bind (resolve _) _ = Ok _ => rewrite resolve_prin in H; discriminate
         | bind ?m _ = Ok _ =>
             destruct m; cbn [bind] in H; [|discriminate]
         | (if ?b then _ else _) = Ok _ => destruct b
         end;
    injection H as <-; try left; now repeat split.
Qed.

Lemma align_effect (st st1 : state) (line : str) (r : sam) :
  align st line r = Ok (Skipped st1) -> same_output st st1.
Proof.
  unfold align, read_MD.
  destruct (getitem (split tag_MD line) 1) as [rest|].
  - destruct (getitem (split_ws rest) 0) as [tok|].
    + destruct (md_decode _ _) as [md|]; cbn [bind]; [|discriminate].
      destruct (reconstruct _ _ _ _) as [[ref_seq nr]|]; cbn [bind];
        [|discriminate].
      destruct (reverse r); discriminate.
    + intros H; injection H as <-. now repeat split.
  - intros H; injection H as <-. now repeat split.
Qed.

Lemma divergence_filter_effect (st st1 : state) (al : aligned) :
  divergence_filter o st al = Skipped st1 -> st1 = st.
Proof.
  unfold divergence_filter.
  destruct (fold_left pid_step _ _) as [[n_match n_mismatch] ms].
  destruct (_ =? 0); [congruence|].
  destruct (Rltb _ _); [congruence | discriminate].
Qed.

Lemma basic_filter_effect (st st1 : state) (line : str) (r : sam)
    (al : aligned) :
  basic_filter o st line r al = Ok st1 ->
  st1 = st \/ st1 = emit (Print (rstrip chNL line)) st.
Proof.
  unfold basic_filter.
  destruct (basic_loop _ _ _ _ _) as [[|]|]; cbn [bind]; [| |discriminate];
    intros H; injection H as <-; [now right | now left].
Qed.

(** A line either is dropped, printing at most itself (a header line, or a
    record under [--basic]), or it reaches the output stage of line 624
    with [passed], [excluded_threshold] and the output as they were. *)
Lemma process_line_cases (st : state) (line : str) (f : flow state) :
  process_line o py_float str_round3 st line = Ok f ->
  (exists st1, f = Continue st1 /\
     (same_output st st1 \/
      (header o = true /\ st1 = emit (Print (rstrip chNL line)) st) \/
      (0 < basic o /\ exists st0, same_output st st0 /\
                        st1 = emit (Print (rstrip chNL line)) st0))) \/
  (basic o <= 0 /\
   exists st1 line' LR al ms quals,
     same_output st st1 /\
     output_stage o st1 line' LR al ms quals = Ok f).
Proof.
  unfold process_line. intros H.
  destruct (admission o st line) as [adm|] eqn:Hadm; cbn [bind] in H;
    [|discriminate].
  apply admission_effect in Hadm.
  destruct adm as [[st1 r]|st1].
  2:{ injection H as <-. left. exists st1. split; [reflexivity|].
      destruct Hadm as [Hs|Hh]; [now left | right; now left]. }
  destruct (read_DS py_float line) as [PMDS|]; cbn [bind] in H;
    [|discriminate].
  destruct (if needs_alignment o (is_Some PMDS) then _ else _)
    as [al|] eqn:Hal; cbn [bind] in H; [|discriminate].
  destruct al as [al|st2].
  2:{ injection H as <-. left. exists st2. split; [reflexivity|]. left.
      destruct (needs_alignment o (is_Some PMDS)); [|discriminate].
      destruct (align st1 line r) as [[a|s]|] eqn:Ha; cbn [bind] in Hal;
        try discriminate.
      injection Hal as <-. apply align_effect in Ha.
      eapply same_output_trans; eassumption. }
  destruct (0 <? basic o) eqn:Hb.
  { apply Z.ltb_lt in Hb. destruct al as [a|]; [|discriminate].
    destruct (basic_filter o st1 line r a) as [st2|] eqn:Hbf;
      cbn [bind] in H; [|discriminate].
    injection H as <-. left. exists st2. split; [reflexivity|].
    apply basic_filter_effect in Hbf as [-> | ->].
    - now left.
    - right. right. split; [exact Hb|]. now exists st1. }
  apply Z.ltb_ge in Hb.
  match type of H with
  | bind ?m _ = _ => destruct m as [d|] eqn:Hd
  end; cbn [bind] in H; [|discriminate].
  destruct d as [ms|st2].
  2:{ injection H as <-. left. exists st2. split; [reflexivity|]. left.
      destruct (Rltb 0.01 (perc_identity o) || printalignments o);
        [|discriminate].
      destruct al as [a|]; [|discriminate].
      destruct (divergence_filter o st1 a) as [m|s] eqn:Hdiv;
        [discriminate|].
      injection Hd as <-. apply divergence_filter_effect in Hdiv.
      now subst s. }
  match type of H with
  | bind ?m _ = _ => destruct m as [[[st3 LR] qs]|] eqn:Hsc
  end; cbn [bind] in H; [|discriminate].
  right. split; [exact Hb|].
  exists st3. do 5 eexists. split; [|exact H].
  eapply same_output_trans; [exact Hadm|].
  destruct (needs_score o (is_Some PMDS)).
  - destruct al as [a|]; [|discriminate].
    destruct (scoring_block _ _ _ _ _ _ _) as [[sc LR']|]; cbn [bind] in Hsc;
      [|discriminate].
    injection Hsc as <- _ _. now repeat split.
  - destruct PMDS as [LR'|]; [|discriminate].
    injection Hsc as <- _ _. apply same_output_refl.
Qed.

(** What the output stage does to [passed]. *)
Lemma output_stage_passed (st : state) (line : str) (LR : R)
    (al : option aligned) (ms : option str) (quals : str) (f : flow state) :
  output_stage o st line LR al ms quals = Ok f ->
  match f with
  | Next st' => passed st' = passed st + 1 /\ passed st' < maxreads o
  | Break st' => passed st' = passed st + 1 /\ maxreads o <= passed st'
  | Continue st' => passed st' = passed st
  end.
Proof.
  unfold output_stage. intros H.
  match type of H with
  | bind ?m _ = _ => destruct m as [st1|] eqn:H1
  end; cbn [bind] in H; [|discriminate].
  assert (P1 : passed st1 = passed st).
  { destruct (printDS o); [|now injection H1 as <-].
    destruct (L_D st); [|discriminate]. destruct (L_M st); [|discriminate].
    destruct (fdiv _ _); cbn [bind] in H1; [|discriminate].
    now injection H1 as <-. }
  destruct (dry o). { injection H as <-. exact P1. }
  cbv zeta in H.
  set (st2 := if threshold_given o then _ else st1) in H.
  assert (P2 : passed st2 = passed st).
  { unfold st2. destruct (threshold_given o); [|exact P1].
    destruct (_ && _); exact P1. }
  clearbody st2.
  match type of H with
  | andthen ?m _ = _ => destruct m as [g|] eqn:H3
  end; [|discriminate].
  assert (P3 : match g with
               | Break _ => False
               | Next s | Continue s => passed s = passed st
               end).
  { assert (Hpa : forall g',
              print_alignment st2 al ms quals = Ok g' ->
              match g' with
              | Break _ => False
              | Next s | Continue s => passed s = passed st
              end).
    { unfold print_alignment. intros g' Hg.
      destruct al; [|discriminate]. destruct ms; [|discriminate].
      injection Hg as <-. exact P2. }
    destruct (printalignments o); [|injection H3 as <-; exact P2].
    destruct (threshold_given o); [|now apply Hpa].
    destruct (LR_again st2); [|injection H3 as <-; exact P2].
    destruct (_ || _); [injection H3 as <-; exact P2 | now apply Hpa]. }
  destruct g as [s|s|s]; cbn [andthen] in H; [| |contradiction].
  2:{ injection H as <-. exact P3. }
  destruct (maxreads o <=? passed (set_passed (passed s + 1) s)) eqn:E;
    injection H as <-; cbn [passed set_passed] in *.
  - apply Z.leb_le in E. lia.
  - apply Z.leb_gt in E. lia.
Qed.

Lemma process_line_passed (st : state) (line : str) (f : flow state) :
  process_line o py_float str_round3 st line = Ok f ->
  match f with
  | Next st' => passed st' = passed st + 1 /\ passed st' < maxreads o
  | Break st' => passed st' = passed st + 1 /\ maxreads o <= passed st'
  | Continue st' => passed st' = passed st
  end.
Proof.
  intros H. apply process_line_cases in H as [(st1 & -> & Hc) | (_ & Hc)].
  - destruct Hc as [(P & _) | [(_ & ->) | (_ & st0 & (P & _) & ->)]];
      cbn [passed emit]; congruence.
  - destruct Hc as (st1 & line' & LR & al & ms & quals & (P & _) & Hout).
    apply output_stage_passed in Hout.
    destruct f; rewrite P in Hout; exact Hout.
Qed.

End LineEffects.

(** X16. [--number]: the loop over the lines never lowers [passed], and it
    stops at the record that brings [passed] to the limit: at its end
    [passed] is at most the limit, or one more than it was when the limit
    had been reached before (a limit of 0 lets one record through). *)
Theorem number_limits_passed (o : options) (py_float : str -> result R)
    (str_round3 : R -> str) (lines : list str) (st st' : state) :
  main_loop o py_float str_round3 st lines = Ok st' ->
  passed st <= passed st' <= Z.max (maxreads o) (passed st + 1).
Proof.
  revert st. induction lines as [|line rest IH]; intros st H.
  - injection H as <-. lia.
  - cbn [main_loop] in H.
    destruct (process_line o py_float str_round3 st line) as [f|] eqn:Hf;
      cbn [bind] in H; [|discriminate].
    apply process_line_passed in Hf.
    destruct f as [s|s|s].
    + apply IH in H. lia.
    + apply IH in H. lia.
    + injection H as <-. lia.
Qed.

(* ================================================================= *)
(** ** A record that reaches the output stage *)

Lemma Rltb_false (x y : R) : (y <= x)%R -> Rltb x y = false.
Proof.
  intros H. unfold Rltb. destruct (Rlt_dec x y); [lra | reflexivity].
Qed.

(** The read [AA] on the reference [AA]: no position is scored, [LR] is
    [ln (1/1)], and the line reaches line 624 as it came. *)
Lemma clean_record (n : Z) (t : R) (st : state) :
  let o := set_maxreads n (set_threshold t default_options) in
  let line := sam_line ["r1"; "0"; "chr1"; "100"; "30"; "2M"; "*"; "0"; "0";
                        "AA"; "II"; "MD:Z:2"]%string in
  process_line o no_float no_repr st line
  = output_stage o
      (set_scored 1 1 (mismatch_dict st) (mismatch_dict_rev st)
         (set_line_counter (line_counter st + 1) st))
      line (ln (1 / 1))
      (Some {| real_read := lit "AA"; real_ref_seq := lit "AA";
               a_quals := lit "II" |})
      None (lit "II").
Proof.
  intros o line. unfold process_line.
  set (st1 := set_line_counter (line_counter st + 1) st).
  set (r := {| col := split [chTab] line; read := lit "AA"; readlen := 2;
               quals := lit "II"; cigar := lit "2M"; reverse := false |}).
  assert (Hadm : admission o st line = Ok (Go (st1, r))) by reflexivity.
  rewrite Hadm. cbn [bind].
  assert (HDS : read_DS no_float line = Ok None) by reflexivity.
  rewrite HDS. cbn [bind is_Some].
  assert (Hna : needs_alignment o false = true) by reflexivity.
  rewrite Hna.
  assert (Hal : align st1 line r
                = Ok (Go {| real_read := lit "AA"; real_ref_seq := lit "AA";
                            a_quals := lit "II" |})) by reflexivity.
  rewrite Hal. cbn [bind].
  change (0 <? basic o) with false. cbv iota.
  change (perc_identity o) with 0%R. rewrite Rltb_false by lra.
  change (printalignments o) with false. cbn [orb]. cbv iota. cbn [bind].
  assert (Hns : needs_score o false = true) by reflexivity.
  rewrite Hns.
  cbn [real_read real_ref_seq a_quals readlen r].
  assert (Hsc : scoring_block o 2 (lit "AA") (lit "II") (lit "AA")
                  (mismatch_dict st1) (mismatch_dict_rev st1)
                = Ok ({| sc_L_D := 1; sc_L_M := 1; sc_quals := lit "II";
                         sc_newquals := lit "II";
                         sc_dict := mismatch_dict st1;
                         sc_dict_rev := mismatch_dict_rev st1 |},
                      ln (1 / 1))).
  { unfold scoring_block.
    assert (Hloop : score_loop o 2 (lit "AA")
                      {| sc_L_D := 1; sc_L_M := 1; sc_quals := lit "II";
                         sc_newquals := lit "II";
                         sc_dict := mismatch_dict st1;
                         sc_dict_rev := mismatch_dict_rev st1 |}
                      (zip3 (lit "AA") (lit "AA"))
                    = Ok {| sc_L_D := 1; sc_L_M := 1; sc_quals := lit "II";
                            sc_newquals := lit "II";
                            sc_dict := mismatch_dict st1;
                            sc_dict_rev := mismatch_dict_rev st1 |})
      by reflexivity.
    rewrite Hloop. cbn [bind sc_L_D sc_L_M]. unfold fdiv.
    destruct (Req_dec_T 1 0) as [E|_]; [lra|]. cbn [bind].
    unfold math_log. destruct (Rlt_dec 0 (1 / 1)) as [_|E]; [|lra].
    reflexivity. }
  rewrite Hsc. cbn [bind sc_L_D sc_L_M sc_dict sc_dict_rev sc_newquals].
  unfold rewrite_quals, write_DS.
  change (adjustbaseq o) with false. change (writesamfield o) with false.
  cbv iota. reflexivity.
Qed.

(** Two such records under [--number 1]: the first one ends the loop. *)
Lemma clean_run_limit :
  let o := set_maxreads 1 (set_threshold (-20000) default_options) in
  let line := sam_line ["r1"; "0"; "chr1"; "100"; "30"; "2M"; "*"; "0"; "0";
                        "AA"; "II"; "MD:Z:2"]%string in
  threshold_given o = false /\
  main_loop o no_float no_repr initial_state [line; line]
  = Ok (set_passed 1 (set_scored 1 1 [] []
                        (set_line_counter 1 initial_state))).
Proof.
  intros o line.
  assert (Ht : threshold_given o = false).
  { unfold threshold_given, o.
    cbn [threshold upperthreshold set_maxreads set_threshold default_options].
    now rewrite !Rltb_false by lra. }
  split; [exact Ht|].
  cbn [main_loop]. unfold line. unfold o at 1. rewrite clean_record.
  fold o. unfold output_stage. rewrite Ht.
  change (printDS o) with false. change (dry o) with false.
  change (printalignments o) with false.
  cbv iota zeta. cbn [bind andthen]. reflexivity.
Qed.

Lemma number_limits_passed_witness :
  let o := set_maxreads 1 (set_threshold (-20000) default_options) in
  let line := sam_line ["r1"; "0"; "chr1"; "100"; "30"; "2M"; "*"; "0"; "0";
                        "AA"; "II"; "MD:Z:2"]%string in
  let st' := set_passed 1 (set_scored 1 1 [] []
                             (set_line_counter 1 initial_state)) in
  main_loop o no_float no_repr initial_state [line; line] = Ok st' /\
  passed initial_state <= passed st'
  <= Z.max (maxreads o) (passed initial_state + 1).
Proof.
  intros o line st'.
  destruct clean_run_limit as [_ H]. split; [exact H|].
  exact (number_limits_passed o no_float no_repr [line; line] initial_state
           st' H).
Defined.

(* ================================================================= *)
(** ** The lines written and the summary *)

Lemma printed_lines_emit (x : out) (st : state) :
  printed_lines (emit x st)
  = printed_lines st + (if is_Print x then 1 else 0).
Proof.
  unfold printed_lines, len. cbn [stdout emit].
  rewrite filter_app, length_app. cbn [filter].
  destruct (is_Print x); cbn [List.length]; lia.
Qed.

Lemma same_output_printed (s s' : state) :
  same_output s s' ->
  passed s' = passed s /\ excluded_threshold s' = excluded_threshold s /\
  printed_lines s' = printed_lines s.
Proof.
  intros (A & B & C). unfold printed_lines. rewrite C. now repeat split.
Qed.

Section PrintedLines.

Variable o : options.
Variable py_float : str -> result R.
Variable str_round3 : R -> str.
Hypothesis Hheader : header o = false.
Hypothesis Hdry : dry o = false.
Hypothesis Hpa : printalignments o = false.
Hypothesis Hbasic : basic o <= 0.

(** [passed - excluded_threshold] moves with the number of lines written
    when a threshold is given; nothing is written when none is. *)
Lemma output_stage_printed (st : state) (line : str) (LR : R)
    (al : option aligned) (ms : option str) (quals : str) (f : flow state) :
  output_stage o st line LR al ms quals = Ok f ->
  printed_lines (flow_state f) - printed_lines st
  = if threshold_given o
    then (passed (flow_state f) - excluded_threshold (flow_state f))
         - (passed st - excluded_threshold st)
    else 0.
Proof.
  unfold output_stage. rewrite Hdry, Hpa. intros H.
  match type of H with
  | bind ?m _ = _ => destruct m as [st1|] eqn:H1
  end; cbn [bind] in H; [|discriminate].
  assert (P1 : passed st1 = passed st /\
               excluded_threshold st1 = excluded_threshold st /\
               printed_lines st1 = printed_lines st).
  { destruct (printDS o); [|injection H1 as <-; now repeat split].
    destruct (L_D st); [|discriminate]. destruct (L_M st); [|discriminate].
    destruct (fdiv _ _); cbn [bind] in H1; [|discriminate].
    injection H1 as <-. rewrite printed_lines_emit. cbn [is_Print].
    cbn [passed excluded_threshold emit]. repeat split; lia. }
  destruct P1 as (A & B & C). cbv zeta in H. cbn [andthen] in H.
  destruct (threshold_given o).
  - destruct (_ && _);
      destruct (maxreads o <=? _); injection H as <-;
      cbn [flow_state]; unfold printed_lines in *;
      cbn [passed excluded_threshold stdout set_passed emit
           set_excluded_threshold];
      rewrite ?filter_app, ?length_app; unfold len in *;
      rewrite ?length_app; cbn [filter is_Print List.length]; lia.
  - destruct (maxreads o <=? _); injection H as <-;
      cbn [flow_state]; unfold printed_lines in *;
      cbn [stdout set_passed]; lia.
Qed.

Lemma process_line_printed (st : state) (line : str) (f : flow state) :
  process_line o py_float str_round3 st line = Ok f ->
  printed_lines (flow_state f) - printed_lines st
  = if threshold_given o
    then (passed (flow_state f) - excluded_threshold (flow_state f))
         - (passed st - excluded_threshold st)
    else 0.
Proof.
  intros H. apply process_line_cases in H as [(st1 & -> & Hc) | (_ & Hc)].
  - destruct Hc as [Hs | [(Hh & _) | (Hb & _)]];
      [|congruence|lia].
    apply same_output_printed in Hs as (A & B & C). cbn [flow_state].
    destruct (threshold_given o); lia.
  - destruct Hc as (st1 & line' & LR & al & ms & quals & Hs & Hout).
    apply same_output_printed in Hs as (A & B & C).
    apply output_stage_printed in Hout. rewrite A, B, C in Hout. exact Hout.
Qed.

Lemma main_loop_printed (lines : list str) (st st' : state) :
  main_loop o py_float str_round3 st lines = Ok st' ->
  printed_lines st' - printed_lines st
  = if threshold_given o
    then (passed st' - excluded_threshold st')
         - (passed st - excluded_threshold st)
    else 0.
Proof.
  revert st. induction lines as [|line rest IH]; intros st H.
  - injection H as <-. destruct (threshold_given o); lia.
  - cbn [main_loop] in H.
    destruct (process_line o py_float str_round3 st line) as [f|] eqn:Hf;
      cbn [bind] in H; [|discriminate].
    apply process_line_printed in Hf.
    destruct f as [s|s|s]; cbn [flow_state] in Hf.
    + apply IH in H. destruct (threshold_given o); lia.
    + apply IH in H. destruct (threshold_given o); lia.
    + injection H as <-. exact Hf.
Qed.

End PrintedLines.


(** X18. Without a score threshold (and none of [--header], [--dry],
    [--printalignments], [--basic]) the run writes no line at all,
    whatever it reads. *)
Theorem no_threshold_no_output (o : options)
    (py_float : str -> result R) (str_round3 : R -> str)
    (lines : list str) (st st' : state) :
  header o = false -> dry o = false -> printalignments o = false ->
  basic o <= 0 ->
  threshold_given o = false ->
  main_loop o py_float str_round3 st lines = Ok st' ->
  printed_lines st' = printed_lines st.
Proof.
  intros Hh Hd Hp Hb Ht H.
  apply (main_loop_printed o py_float str_round3 Hh Hd Hp Hb) in H.
  rewrite Ht in H. lia.
Qed.

Lemma no_threshold_no_output_witness :
  let o := set_maxreads 1 (set_threshold (-20000) default_options) in
  let line := sam_line ["r1"; "0"; "chr1"; "100"; "30"; "2M"; "*"; "0"; "0";
                        "AA"; "II"; "MD:Z:2"]%string in
  let st' := set_passed 1 (set_scored 1 1 [] []
                             (set_line_counter 1 initial_state)) in
  header o = false /\ dry o = false /\ printalignments o = false /\
  basic o <= 0 /\ threshold_given o = false /\
  main_loop o no_float no_repr initial_state [line; line] = Ok st' /\
  printed_lines st' = printed_lines initial_state.
Proof.
  intros o line st'.
  destruct clean_run_limit as [Ht H].
  assert (Hb : basic o <= 0) by (cbn; lia).
  repeat (split; [first [reflexivity | assumption]|]).
  exact (no_threshold_no_output o no_float no_repr [line; line] initial_state
           st' eq_refl eq_refl eq_refl Hb Ht H).
Defined.

(** Two such records above the threshold: both lines are written. *)
Lemma clean_run_threshold :
  let o := set_maxreads 5 (set_threshold (-1) default_options) in
  let line := sam_line ["r1"; "0"; "chr1"; "100"; "30"; "2M"; "*"; "0"; "0";
                        "AA"; "II"; "MD:Z:2"]%string in
  threshold_given o = true /\
  main_loop o no_float no_repr initial_state [line; line]
  = Ok (set_passed 2
          (emit (Print (rstrip chNL line))
             (set_scored 1 1 [] []
                (set_line_counter 2
                   (set_passed 1
                      (emit (Print (rstrip chNL line))
                         (set_scored 1 1 [] []
                            (set_line_counter 1 initial_state)))))))).
Proof.
  intros o line.
  assert (Ht : threshold_given o = true).
  { unfold threshold_given, o.
    cbn [threshold upperthreshold set_maxreads set_threshold default_options].
    now rewrite Rltb_true by lra. }
  assert (Hln : ln (1 / 1) = 0%R)
    by (replace (1 / 1)%R with 1%R by lra; exact ln_1).
  assert (Hin : Rleb (threshold o) (ln (1 / 1))
                && Rltb (ln (1 / 1)) (upperthreshold o) = true).
  { rewrite Hln. unfold o.
    cbn [threshold upperthreshold set_maxreads set_threshold default_options].
    rewrite Rleb_true, Rltb_true by lra. reflexivity. }
  split; [exact Ht|].
  pose proof (clean_record 5 (-1)) as Hrec. cbv zeta in Hrec.
  change (forall st : state,
            process_line o no_float no_repr st line
            = output_stage o
                (set_scored 1 1 (mismatch_dict st) (mismatch_dict_rev st)
                   (set_line_counter (line_counter st + 1) st))
                line (ln (1 / 1))
                (Some {| real_read := lit "AA"; real_ref_seq := lit "AA";
                         a_quals := lit "II" |})
                None (lit "II")) in Hrec.
  assert (Hout : forall st : state,
            (maxreads o <=? passed st + 1) = false ->
            process_line o no_float no_repr st line
            = Ok (Next (set_passed (passed st + 1)
                          (emit (Print (rstrip chNL line))
                             (set_scored 1 1 (mismatch_dict st)
                                (mismatch_dict_rev st)
                                (set_line_counter (line_counter st + 1)
                                   st)))))).
  { intros st Hmax. rewrite Hrec. unfold output_stage. rewrite Ht, Hin.
    change (printDS o) with false. change (dry o) with false.
    change (printalignments o) with false.
    cbv iota zeta. cbn [bind andthen].
    cbn [passed set_passed emit set_scored set_line_counter].
    now rewrite Hmax. }
  cbn [main_loop].
  rewrite Hout by reflexivity. cbn [bind].
  rewrite Hout by reflexivity. cbn [bind].
  reflexivity.
Qed.


(* ================================================================= *)
(** ** The tables of [--deamination] and the frequency table *)

Lemma counts_from_incr (c : char) (thekey : str) (d : dict) :
  counts_from c d -> (exists rest, thekey = c :: rest) ->
  counts_from c (dict_incr thekey d).
Proof.
  unfold counts_from. intros Hd Hk. induction d as [|[k v] r IH].
  - cbn [dict_incr]. constructor; [|constructor]. cbn [fst snd]. split; [lia|].
    exact Hk.
  - apply Forall_cons_iff in Hd as [[Hv Hp] Hr]. cbn [fst snd] in Hv, Hp.
    cbn [dict_incr]. destruct (str_eqb k thekey).
    + constructor; [|exact Hr]. cbn [fst snd]. split; [lia | exact Hp].
    + constructor; [|now apply IH]. cbn [fst snd]. now split.
Qed.

Lemma dict_get_In (thekey : str) (d : dict) (v : Z) :
  dict_get thekey d = Some v -> In (thekey, v) d.
Proof.
  induction d as [|[k v'] r IH]; cbn [dict_get]; [discriminate|].
  unfold str_eqb. destruct (list_eq_dec Z.eq_dec k thekey) as [->|_].
  - intros H; injection H as ->. now left.
  - intros H. right. now apply IH.
Qed.

Lemma counts_from_get (c : char) (d : dict) (thekey : str) (v : Z) :
  counts_from c d -> dict_get thekey d = Some v ->
  1 <= v /\ exists rest, thekey = c :: rest.
Proof.
  intros Hd Hg. apply dict_get_In in Hg.
  unfold counts_from in Hd. rewrite Forall_forall in Hd.
  exact (Hd _ Hg).
Qed.

Section ScoringTables.

Variable o : options.
Variable readlen : Z.
Variable real_read : str.

(** Takes a hypothesis on the result of a block of the loop body apart. *)
Ltac split_block H :=
  repeat match type of H with
         | bind ?m _ = Ok _ =>
             destruct m; cbn [bind] in H; [|discriminate]
         | (if ?b then _ else _) = Ok _ => destruct b
         | Err _ = Ok _ => discriminate
         end.

Lemma cpg_gate_cases (seq : str) (i : Z) (want : char) (st : score_state)
    (f : flow score_state) :
  cpg_gate o readlen seq i want st = Ok f ->
  f = Next st \/ f = Continue st \/ f = Break st.
Proof.
  unfold cpg_gate. intros H. split_block H; injection H as <-; tauto.
Qed.

Lemma adjust_all_tables (i z : Z) (st : score_state) (f : flow score_state) :
  adjust_all o i z st = Ok f ->
  sc_dict (flow_state f) = sc_dict st /\
  sc_dict_rev (flow_state f) = sc_dict_rev st.
Proof.
  unfold adjust_all. intros H. split_block H; injection H as <-; now split.
Qed.

Lemma rescale_block_tables (seq : str) (i pos : Z) (want : char)
    (qs : score_state -> str) (st : score_state) (f : flow score_state) :
  (st' <~ cpg_gate o readlen seq i want st ;;
   newprob <- Newbaseq pos (ancient_model_deam o) (qs st') ;;
   nq <- rescale (sc_quals st') i newprob ;;
   Ok (Next (set_newquals nq st'))) = Ok f ->
  sc_dict (flow_state f) = sc_dict st /\
  sc_dict_rev (flow_state f) = sc_dict_rev st.
Proof.
  destruct (cpg_gate o readlen seq i want st) as [g|] eqn:Hg; [|discriminate].
  apply cpg_gate_cases in Hg as [-> | [-> | ->]]; cbn [andthen]; intros H;
    split_block H; injection H as <-; now split.
Qed.

Lemma low_quality_tables (a b : char) (i z : Z) (qualsrev : str)
    (st : score_state) (f : flow score_state) :
  low_quality o readlen real_read a b i z qualsrev st = Ok f ->
  sc_dict (flow_state f) = sc_dict st /\
  sc_dict_rev (flow_state f) = sc_dict_rev st.
Proof.
  unfold low_quality. intros H.
  destruct (getitem (sc_quals st) i) as [q|]; cbn [bind] in H; [|discriminate].
  destruct (q - 33 <? baseq o); [|injection H as <-; now split].
  destruct (adjustbaseq o); [|injection H as <-; now split].
  assert (H1 : forall g,
             (if (b =? chC) && (a =? chT)
              then st' <~ cpg_gate o readlen real_read i chG st ;;
                   newprob <- Newbaseq i (ancient_model_deam o) (sc_quals st') ;;
                   nq <- rescale (sc_quals st') i newprob ;;
                   Ok (Next (set_newquals nq st'))
              else Ok (Next st)) = Ok g ->
             sc_dict (flow_state g) = sc_dict st /\
             sc_dict_rev (flow_state g) = sc_dict_rev st).
  { intros g. destruct ((b =? chC) && (a =? chT)).
    - apply (rescale_block_tables real_read i i chG sc_quals).
    - intros E; injection E as <-. now split. }
  destruct (if (b =? chC) && (a =? chT) then _ else _) as [g1|];
    [|discriminate].
  specialize (H1 g1 eq_refl).
  destruct g1 as [s1|s1|s1]; cbn [andthen flow_state] in H, H1;
    try (injection H as <-; exact H1).
  destruct H1 as [<- <-].
  assert (H2 : forall g,
             (if (b =? chG) && (a =? chA)
              then st' <~ cpg_gate o readlen (rev real_read) i chC s1 ;;
                   newprob <- Newbaseq z (ancient_model_deam o) qualsrev ;;
                   nq <- rescale (sc_quals st') i newprob ;;
                   Ok (Next (set_newquals nq st'))
              else Ok (Next s1)) = Ok g ->
             sc_dict (flow_state g) = sc_dict s1 /\
             sc_dict_rev (flow_state g) = sc_dict_rev s1).
  { intros g. destruct ((b =? chG) && (a =? chA)).
    - apply (rescale_block_tables (rev real_read) i z chC (fun _ => qualsrev)).
    - intros E; injection E as <-. now split. }
  destruct (if (b =? chG) && (a =? chA) then _ else _) as [g2|];
    [|discriminate].
  specialize (H2 g2 eq_refl).
  destruct g2 as [s2|s2|s2]; cbn [andthen flow_state] in H, H2;
    injection H as <-; exact H2.
Qed.

Lemma count_deamination_tables (a b : char) (i z : Z) (st : score_state)
    (f : flow score_state) :
  count_deamination o readlen real_read a b i z st = Ok f ->
  counts_from chC (sc_dict st) -> counts_from chG (sc_dict_rev st) ->
  counts_from chC (sc_dict (flow_state f)) /\
  counts_from chG (sc_dict_rev (flow_state f)).
Proof.
  unfold count_deamination. intros H HC HG.
  destruct (deamination o); [|injection H as <-; now split].
  assert (H1 : forall g,
             (if b =? chC
              then st' <~ cpg_gate o readlen real_read i chG st ;;
                   (let thekey := [b] ++ [a] ++ py_str_int i in
                    Ok (Next (set_dict (dict_incr thekey (sc_dict st')) st')))
              else Ok (Next st)) = Ok g ->
             counts_from chC (sc_dict (flow_state g)) /\
             counts_from chG (sc_dict_rev (flow_state g))).
  { intros g. destruct (b =? chC) eqn:Eb.
    - apply Z.eqb_eq in Eb. subst b.
      destruct (cpg_gate _ _ _ _ _ _) as [g0|] eqn:Hg; [|discriminate].
      apply cpg_gate_cases in Hg as [-> | [-> | ->]]; cbn [andthen];
        intros E; injection E as <-; cbn [flow_state];
        try (now split).
      cbn [sc_dict sc_dict_rev set_dict]. split; [|exact HG].
      apply counts_from_incr; [exact HC|]. now eexists.
    - intros E; injection E as <-. now split. }
  destruct (if b =? chC then _ else _) as [g1|]; [|discriminate].
  specialize (H1 g1 eq_refl).
  destruct g1 as [s1|s1|s1]; cbn [andthen flow_state] in H, H1;
    try (injection H as <-; exact H1).
  destruct H1 as [HC1 HG1].
  destruct (b =? chG) eqn:Eb.
  - apply Z.eqb_eq in Eb. subst b.
    destruct (cpg o).
    + destruct (readlen <=? i + 1); cbn [andthen] in H; [|discriminate].
      injection H as <-. now split.
    + cbn [andthen] in H. injection H as <-.
      cbn [flow_state sc_dict sc_dict_rev set_dict_rev]. split; [exact HC1|].
      apply counts_from_incr; [exact HG1|]. now eexists.
  - cbn [andthen] in H. injection H as <-. now split.
Qed.

Lemma score_tables (a b : char) (i z : Z) (qualsrev : str) (st : score_state)
    (f : flow score_state) :
  score o readlen real_read a b i z qualsrev st = Ok f ->
  sc_dict (flow_state f) = sc_dict st /\
  sc_dict_rev (flow_state f) = sc_dict_rev st.
Proof.
  unfold score. intros H.
  destruct (readlen <=? i); [injection H as <-; now split|].
  match type of H with
  | andthen ?m _ = _ =>
      assert (H1 : forall g, m = Ok g ->
                     sc_dict (flow_state g) = sc_dict st /\
                     sc_dict_rev (flow_state g) = sc_dict_rev st);
      [|destruct m as [g1|]; [|discriminate]]
  end.
  { intros g. destruct (b =? chC); [|intros E; injection E as <-; now split].
    destruct (cpg_gate _ _ _ _ _ _) as [g0|] eqn:Hg; [|discriminate].
    apply cpg_gate_cases in Hg as [-> | [-> | ->]]; cbn [andthen]; intros E;
      split_block E; injection E as <-; now split. }
  specialize (H1 g1 eq_refl).
  destruct g1 as [s1|s1|s1]; cbn [andthen flow_state] in H, H1;
    try (injection H as <-; exact H1).
  destruct H1 as [<- <-].
  destruct (b =? chG); [|injection H as <-; now split].
  destruct (cpg_gate _ _ _ _ _ _) as [g0|] eqn:Hg; [|discriminate].
  apply cpg_gate_cases in Hg as [-> | [-> | ->]]; cbn [andthen] in H;
    split_block H; injection H as <-; now split.
Qed.

Lemma score_step_tables (st : score_state) (abx : char * char * Z)
    (f : flow score_state) :
  score_step o readlen real_read st abx = Ok f ->
  counts_from chC (sc_dict st) -> counts_from chG (sc_dict_rev st) ->
  counts_from chC (sc_dict (flow_state f)) /\
  counts_from chG (sc_dict_rev (flow_state f)).
Proof.
  destruct abx as [[a b] x]. unfold score_step. intros H HC HG.
  destruct ((a =? chN) || (b =? chN)); [injection H as <-; now split|].
  destruct (readlen <=? x - 0); [injection H as <-; now split|].
  destruct (adjust_all o (x - 0) _ st) as [g1|] eqn:H1; [|discriminate].
  apply adjust_all_tables in H1 as [D1 R1].
  destruct g1 as [s1|s1|s1]; cbn [andthen flow_state] in H, D1, R1;
    try (injection H as <-; cbn [flow_state]; rewrite D1, R1; now split).
  destruct (low_quality o readlen real_read a b _ _ _ s1) as [g2|] eqn:H2;
    [|discriminate].
  apply low_quality_tables in H2 as [D2 R2].
  destruct g2 as [s2|s2|s2]; cbn [andthen flow_state] in H, D2, R2;
    try (injection H as <-; cbn [flow_state]; rewrite D2, R2, D1, R1;
         now split).
  destruct (count_deamination o readlen real_read a b _ _ s2) as [g3|] eqn:H3;
    [|discriminate].
  apply count_deamination_tables in H3 as [D3 R3];
    [| rewrite D2, D1; exact HC | rewrite R2, R1; exact HG].
  destruct g3 as [s3|s3|s3]; cbn [andthen flow_state] in H, D3, R3;
    try (injection H as <-; now split).
  apply score_tables in H as [-> ->]. now split.
Qed.

Lemma score_loop_tables (l : list (char * char * Z)) (st st' : score_state) :
  score_loop o readlen real_read st l = Ok st' ->
  counts_from chC (sc_dict st) -> counts_from chG (sc_dict_rev st) ->
  counts_from chC (sc_dict st') /\ counts_from chG (sc_dict_rev st').
Proof.
  revert st. induction l as [|abx l IH]; intros st H HC HG.
  - injection H as <-. now split.
  - cbn [score_loop] in H.
    destruct (score_step o readlen real_read st abx) as [g|] eqn:Hg;
      [|discriminate].
    cbn [bind] in H.
    destruct (score_step_tables _ _ _ Hg HC HG) as [HC' HG'].
    destruct g as [s|s|s]; cbn [flow_state] in HC', HG'.
    + now apply (IH s).
    + now apply (IH s).
    + injection H as <-. now split.
Qed.

Lemma scoring_block_tables (quals real_ref_seq : str) (d d_rev : dict)
    (st : score_state) (LR : R) :
  scoring_block o readlen real_read quals real_ref_seq d d_rev = Ok (st, LR) ->
  counts_from chC d -> counts_from chG d_rev ->
  counts_from chC (sc_dict st) /\ counts_from chG (sc_dict_rev st).
Proof.
  unfold scoring_block. intros H HC HG.
  destruct (score_loop _ _ _ _ _) as [s|] eqn:Hloop; [|discriminate].
  cbn [bind] in H.
  destruct (fdiv _ _); [|discriminate]. cbn [bind] in H.
  destruct (math_log _); [|discriminate]. cbn [bind] in H.
  injection H as <- _.
  apply score_loop_tables in Hloop; assumption.
Qed.

End ScoringTables.

Section TablesOfARun.

Variable o : options.
Variable py_float : str -> result R.
Variable str_round3 : R -> str.

Lemma admission_tables (st : state) (line : str)
    (adm : stage (state * sam)) :
  admission o st line = Ok adm ->
  let st1 := match adm with Skipped s => s | Go (s, _) => s end in
  mismatch_dict st1 = mismatch_dict st /\
  mismatch_dict_rev st1 = mismatch_dict_rev st.
Proof.
  unfold admission. intros H.
  destruct (getitem line 0) as [c0|]; cbn [bind] in H; [|discriminate].
  destruct (c0 =? chAt).
  { injection H as <-. destruct (header o); now split. }
  cbv zeta in H.
  repeat match type of H with
         | bind (resolve _) _ = Ok _ => rewrite resolve_prin in H; discriminate
         | bind ?m _ = Ok _ =>
             destruct m; cbn [bind] in H; [|discriminate]
         | (if ?b then _ else _) = Ok _ => destruct b
         end;
    injection H as <-; now split.
Qed.

Lemma align_tables (st st1 : state) (line : str) (r : sam) :
  align st line r = Ok (Skipped st1) ->
  mismatch_dict st1 = mismatch_dict st /\
  mismatch_dict_rev st1 = mismatch_dict_rev st.
Proof.
  unfold align, read_MD.
  destruct (getitem (split tag_MD line) 1) as [rest|].
  - destruct (getitem (split_ws rest) 0) as [tok|].
    + destruct (md_decode _ _) as [md|]; cbn [bind]; [|discriminate].
      destruct (reconstruct _ _ _ _) as [[ref_seq nr]|]; cbn [bind];
        [|discriminate].
      destruct (reverse r); discriminate.
    + intros H; injection H as <-. now split.
  - intros H; injection H as <-. now split.
Qed.

Lemma output_stage_tables (st : state) (line : str) (LR : R)
    (al : option aligned) (ms : option str) (quals : str) (f : flow state) :
  output_stage o st line LR al ms quals = Ok f ->
  mismatch_dict (flow_state f) = mismatch_dict st /\
  mismatch_dict_rev (flow_state f) = mismatch_dict_rev st.
Proof.
  unfold output_stage. intros H.
  match type of H with
  | bind ?m _ = _ => destruct m as [st1|] eqn:H1
  end; cbn [bind] in H; [|discriminate].
  assert (P1 : mismatch_dict st1 = mismatch_dict st /\
               mismatch_dict_rev st1 = mismatch_dict_rev st).
  { destruct (printDS o); [|now injection H1 as <-].
    destruct (L_D st); [|discriminate]. destruct (L_M st); [|discriminate].
    destruct (fdiv _ _); cbn [bind] in H1; [|discriminate].
    now injection H1 as <-. }
  destruct (dry o). { injection H as <-. exact P1. }
  cbv zeta in H.
  set (st2 := if threshold_given o then _ else st1) in H.
  assert (P2 : mismatch_dict st2 = mismatch_dict st /\
               mismatch_dict_rev st2 = mismatch_dict_rev st).
  { unfold st2. destruct (threshold_given o); [|exact P1].
    destruct (_ && _); exact P1. }
  clearbody st2.
  match type of H with
  | andthen ?m _ = _ => destruct m as [g|] eqn:H3
  end; [|discriminate].
  assert (P3 : mismatch_dict (flow_state g) = mismatch_dict st /\
               mismatch_dict_rev (flow_state g) = mismatch_dict_rev st).
  { assert (Hpa : forall g',
              print_alignment st2 al ms quals = Ok g' ->
              mismatch_dict (flow_state g') = mismatch_dict st /\
              mismatch_dict_rev (flow_state g') = mismatch_dict_rev st).
    { unfold print_alignment. intros g' Hg.
      destruct al; [|discriminate]. destruct ms; [|discriminate].
      injection Hg as <-. exact P2. }
    destruct (printalignments o); [|injection H3 as <-; exact P2].
    destruct (threshold_given o); [|now apply Hpa].
    destruct (LR_again st2); [|injection H3 as <-; exact P2].
    destruct (_ || _); [injection H3 as <-; exact P2 | now apply Hpa]. }
  destruct g as [s|s|s]; cbn [andthen flow_state] in H, P3;
    try (injection H as <-; exact P3).
  destruct (maxreads o <=? _); injection H as <-; exact P3.
Qed.

(** Every line keeps the two tables tables of counts. *)
Lemma process_line_tables (st : state) (line : str) (f : flow state) :
  process_line o py_float str_round3 st line = Ok f ->
  tables_wf st -> tables_wf (flow_state f).
Proof.
  unfold process_line, tables_wf. intros H [HC HG].
  destruct (admission o st line) as [adm|] eqn:Hadm; cbn [bind] in H;
    [|discriminate].
  apply admission_tables in Hadm. cbv zeta in Hadm.
  destruct adm as [[st1 r]|st1].
  2:{ injection H as <-. cbn [flow_state]. destruct Hadm as [-> ->].
      now split. }
  destruct Hadm as [D1 R1]. rewrite <- D1 in HC. rewrite <- R1 in HG.
  clear D1 R1.
  destruct (read_DS py_float line) as [PMDS|]; cbn [bind] in H;
    [|discriminate].
  destruct (if needs_alignment o (is_Some PMDS) then _ else _)
    as [al|] eqn:Hal; cbn [bind] in H; [|discriminate].
  destruct al as [al|st2].
  2:{ injection H as <-. cbn [flow_state].
      destruct (needs_alignment o (is_Some PMDS)); [|discriminate].
      destruct (align st1 line r) as [[a|s]|] eqn:Ha; cbn [bind] in Hal;
        try discriminate.
      injection Hal as <-. apply align_tables in Ha as [-> ->]. now split. }
  destruct (0 <? basic o).
  { destruct al as [a|]; [|discriminate].
    destruct (basic_filter o st1 line r a) as [st2|] eqn:Hbf;
      cbn [bind] in H; [|discriminate].
    injection H as <-. cbn [flow_state].
    apply basic_filter_effect in Hbf as [-> | ->]; now split. }
  match type of H with
  | bind ?m _ = _ => destruct m as [dv|] eqn:Hd
  end; cbn [bind] in H; [|discriminate].
  destruct dv as [ms|st2].
  2:{ injection H as <-. cbn [flow_state].
      destruct (Rltb 0.01 (perc_identity o) || printalignments o);
        [|discriminate].
      destruct al as [a|]; [|discriminate].
      destruct (divergence_filter o st1 a) as [m|s] eqn:Hdiv;
        [discriminate|].
      injection Hd as <-. apply divergence_filter_effect in Hdiv.
      subst s. now split. }
  match type of H with
  | bind ?m _ = _ => destruct m as [[[st3 LR] qs]|] eqn:Hsc
  end; cbn [bind] in H; [|discriminate].
  apply output_stage_tables in H as [-> ->].
  destruct (needs_score o (is_Some PMDS)).
  - destruct al as [a|]; [|discriminate].
    destruct (scoring_block _ _ _ _ _ _ _) as [[sc LR']|] eqn:Hblock;
      cbn [bind] in Hsc; [|discriminate].
    injection Hsc as <- _ _. cbn [mismatch_dict mismatch_dict_rev set_scored].
    eapply scoring_block_tables; eassumption.
  - destruct PMDS as [LR'|]; [|discriminate].
    injection Hsc as <- _ _. now split.
Qed.

Lemma main_loop_tables (lines : list str) (st st' : state) :
  main_loop o py_float str_round3 st lines = Ok st' ->
  tables_wf st -> tables_wf st'.
Proof.
  revert st. induction lines as [|line rest IH]; intros st H Hwf.
  - now injection H as <-.
  - cbn [main_loop] in H.
    destruct (process_line o py_float str_round3 st line) as [f|] eqn:Hf;
      cbn [bind] in H; [|discriminate].
    apply process_line_tables in Hf; [|exact Hwf].
    destruct f as [s|s|s]; cbn [flow_state] in Hf.
    + now apply (IH s).
    + now apply (IH s).
    + now injection H as <-.
Qed.

End TablesOfARun.

(* ================================================================= *)
(** ** The frequency table *)

Lemma table_total_sum (d : dict) (i : Z) :
  table_total d i
  = sumZ (map (fun p => count_of d (p ++ py_str_int i)) pairs).
Proof.
  unfold table_total.
  assert (H : forall l acc,
             fold_left (fun total p =>
                          match dict_get (p ++ py_str_int i) d with
                          | Some v => total + v
                          | None => total
                          end) l acc
             = acc + sumZ (map (fun p => count_of d (p ++ py_str_int i)) l)).
  { induction l as [|p l IH]; intros acc; cbn [fold_left map sumZ fold_right].
    - lia.
    - rewrite IH. unfold count_of, sumZ.
      destruct (dict_get (p ++ py_str_int i) d); lia. }
  rewrite H. lia.
Qed.

Lemma count_of_nonneg (c : char) (d : dict) (thekey : str) :
  counts_from c d -> 0 <= count_of d thekey.
Proof.
  intros Hd. unfold count_of.
  destruct (dict_get thekey d) as [v|] eqn:Hg; [|lia].
  destruct (counts_from_get _ _ _ _ Hd Hg). lia.
Qed.

Lemma count_of_other (c c' : char) (d : dict) (rest : str) :
  counts_from c d -> c' <> c -> count_of d (c' :: rest) = 0.
Proof.
  intros Hd Hne. unfold count_of.
  destruct (dict_get (c' :: rest) d) as [v|] eqn:Hg; [|reflexivity].
  destruct (counts_from_get _ _ _ _ Hd Hg) as [_ [r E]]. congruence.
Qed.

Lemma sumZ_member (g : str -> Z) (l : list str) (p : str) :
  (forall q, 0 <= g q) -> In p l -> g p <= sumZ (map g l).
Proof.
  intros Hg. induction l as [|q l IH]; cbn [In map sumZ fold_right];
    [tauto|].
  intros [->|Hin].
  - assert (H : 0 <= sumZ (map g l)).
    { clear IH. induction l as [|r l IH]; cbn [map sumZ fold_right]; [lia|].
      specialize (Hg r). unfold sumZ in IH. lia. }
    unfold sumZ in H. lia.
  - specialize (IH Hin). specialize (Hg q). unfold sumZ in IH. lia.
Qed.

Lemma pairs_first (p : str) :
  In p pairs -> getitem p 0 = Ok chC \/ getitem p 0 = Ok chG.
Proof.
  unfold pairs. cbn [map In].
  intros H. repeat destruct H as [<-|H]; try contradiction;
    (now left) || (now right).
Qed.

Section Cells.

Variable d d_rev : dict.
Hypothesis HC : counts_from chC d.
Hypothesis HG : counts_from chG d_rev.

Lemma total_covers (c : char) (t : dict) (i : Z) (p : str) (v : Z) :
  counts_from c t -> In p pairs ->
  dict_get (p ++ py_str_int i) t = Some v ->
  1 <= v <= table_total t i.
Proof.
  intros Ht Hin Hg. destruct (counts_from_get _ _ _ _ Ht Hg) as [Hv _].
  split; [exact Hv|]. rewrite table_total_sum.
  pose proof (sumZ_member (fun q => count_of t (q ++ py_str_int i)) pairs p
                (fun q => count_of_nonneg c t _ Ht) Hin) as H.
  cbv beta in H. unfold count_of at 1 in H. rewrite Hg in H. exact H.
Qed.

(** What a cell of the table holds: the count under its key over the
    total of its row, in the table of its reference base. *)
Lemma table_cell_value (i : Z) (frac : option R) (p : str) :
  In p pairs ->
  exists (c : cell) (fr : option R),
    table_cell d d_rev i frac p = Ok (c, fr) /\
    cell_spec d d_rev i p c.
Proof.
  intros Hin. unfold table_cell, cell_spec. cbv zeta.
  assert (Hfrac : forall (c : char) (t : dict) (v : Z),
             counts_from c t ->
             dict_get (p ++ py_str_int i) t = Some v ->
             fdiv (1 * IZR v) (IZR (table_total t i))
             = Ok (1 * IZR v / IZR (table_total t i))%R /\
             (0 <= 1 * IZR v / IZR (table_total t i) <= 1)%R).
  { intros c t v Ht Hg.
    destruct (total_covers c t i p v Ht Hin Hg) as [Hv Htot].
    assert (H1 : (1 <= IZR v)%R) by (apply IZR_le; exact Hv).
    assert (H2 : (IZR v <= IZR (table_total t i))%R)
      by (apply IZR_le; exact Htot).
    split.
    - unfold fdiv. destruct (Req_dec_T _ 0) as [E|_]; [lra | reflexivity].
    - split.
      + apply Rmult_le_pos; [lra|]. left. apply Rinv_0_lt_compat. lra.
      + apply Rmult_le_reg_r with (IZR (table_total t i)); [lra|].
        unfold Rdiv. rewrite Rmult_assoc, Rinv_l by lra. lra. }
  destruct (pairs_first p Hin) as [Hp | Hp]; rewrite Hp; cbn [bind].
  - change (chC =? chC) with true. change (chC =? chG) with false.
    cbv iota. unfold count_of.
    destruct (dict_get (p ++ py_str_int i) d) as [v|] eqn:Hg.
    + destruct (Hfrac chC d v HC Hg) as [Hf Hb]. rewrite Hf.
      cbn [bind andthen]. do 2 eexists. split; [reflexivity|].
      cbn [cell_value]. split; [intros _; lra|].
      split; [discriminate | exact Hb].
    + cbn [andthen bind]. do 2 eexists. split; [reflexivity|].
      cbn [cell_value]. split; [intros _; lra|].
      split; [discriminate | lra].
  - change (chG =? chC) with false. change (chG =? chG) with true.
    cbv iota. cbn [andthen]. unfold count_of.
    destruct (dict_get (p ++ py_str_int i) d_rev) as [v|] eqn:Hg.
    + destruct (Hfrac chG d_rev v HG Hg) as [Hf Hb]. rewrite Hf.
      cbn [bind]. do 2 eexists. split; [reflexivity|].
      cbn [cell_value]. split; [discriminate|].
      split; [intros _; lra | exact Hb].
    + cbn [bind]. do 2 eexists. split; [reflexivity|].
      cbn [cell_value]. split; [discriminate|].
      split; [intros _; lra | lra].
Qed.

Lemma table_row_values (i : Z) (ps : list str) (frac : option R) :
  incl ps pairs ->
  exists (cs : list cell) (fr : option R),
    table_row d d_rev i frac ps = Ok (cs, fr) /\
    Forall2 (cell_spec d d_rev i) ps cs.
Proof.
  revert frac. induction ps as [|p ps IH]; intros frac Hincl.
  - exists [], frac. split; [reflexivity | constructor].
  - cbn [table_row].
    destruct (table_cell_value i frac p (Hincl p (or_introl eq_refl)))
      as (c & fr1 & Hc & Hv).
    rewrite Hc. cbn [bind].
    destruct (IH fr1 (fun q Hq => Hincl q (or_intror Hq)))
      as (cs & fr2 & Hr & Hvs).
    rewrite Hr. cbn [bind].
    exists (c :: cs), fr2. split; [reflexivity|]. now constructor.
Qed.

Lemma table_rows_values (l : list Z) (frac : option R) :
  exists rows : list (Z * list cell),
    table_rows d d_rev frac l = Ok rows /\
    map fst rows = l /\
    Forall (fun row => Forall2 (cell_spec d d_rev (fst row)) pairs (snd row))
           rows.
Proof.
  revert frac. induction l as [|i l IH]; intros frac.
  - exists []. repeat split. constructor.
  - cbn [table_rows].
    destruct (table_row_values i pairs frac (incl_refl _))
      as (cs & fr1 & Hr & Hv).
    rewrite Hr. cbn [bind].
    destruct (IH fr1) as (rows & Hrows & Hfst & Hall).
    rewrite Hrows. cbn [bind].
    exists ((i, cs) :: rows). split; [reflexivity|]. split.
    + cbn [map fst]. now rewrite Hfst.
    + constructor; [exact Hv | exact Hall].
Qed.

End Cells.

Lemma initial_tables_wf : tables_wf initial_state.
Proof. split; constructor. Qed.

Lemma Forall2_length_eq {A B} (P : A -> B -> Prop) (l : list A) (l' : list B) :
  Forall2 P l l' -> List.length l' = List.length l.
Proof. induction 1; cbn [List.length]; congruence. Qed.

Lemma Forall2_right {A B} (P : A -> B -> Prop) (Q : B -> Prop)
    (l : list A) (l' : list B) :
  (forall a b, P a b -> Q b) -> Forall2 P l l' -> Forall Q l'.
Proof. intros H. induction 1; constructor; eauto. Qed.

(** X19. After any run of the loop over the lines that ends normally, the
    frequency table of [--deamination] is computed without an exception:
    no count that is found is divided by a total of 0 (lines 724, 732).
    It has one row for each position below [--range], each row has a cell
    for each of the eight pairs, and every cell holds a fraction between
    0 and 1. *)
Theorem frequency_table_defined (o : options) (py_float : str -> result R)
    (str_round3 : R -> str) (lines : list str) (st : state) :
  main_loop o py_float str_round3 initial_state lines = Ok st ->
  exists rows : list (Z * list cell),
    deamination_table o st = Ok rows /\
    (deamination o = true -> map fst rows = py_range 0 (range o)) /\
    Forall (fun row =>
              len (snd row) = 8 /\
              Forall (fun c => (0 <= cell_value c <= 1)%R) (snd row)) rows.
Proof.
  intros H. apply main_loop_tables in H; [|exact initial_tables_wf].
  destruct H as [HC HG]. unfold deamination_table.
  destruct (deamination o).
  - destruct (table_rows_values _ _ HC HG (py_range 0 (range o)) None)
      as (rows & Hrows & Hfst & Hall).
    exists rows. split; [exact Hrows|]. split; [intros _; exact Hfst|].
    eapply Forall_impl; [|exact Hall]. intros [i cs] Hrow. cbn [fst snd] in *.
    split.
    + unfold len. now rewrite (Forall2_length_eq _ _ _ Hrow).
    + eapply Forall2_right; [|exact Hrow]. intros p c Hs. apply Hs.
  - exists []. split; [reflexivity|]. split; [discriminate | constructor].
Qed.

Lemma Forall2_cons_inv {A B} (P : A -> B -> Prop) (a : A) (l : list A)
    (l' : list B) :
  Forall2 P (a :: l) l' ->
  exists b l'', l' = b :: l'' /\ P a b /\ Forall2 P l l''.
Proof. intros H. inversion H; subst. eauto. Qed.

Lemma fractions_sum (a b c e : Z) :
  0 <= a -> 0 <= b -> 0 <= c -> 0 <= e ->
  (IZR a / IZR (a + b + c + e) + (IZR b / IZR (a + b + c + e)
   + (IZR c / IZR (a + b + c + e) + (IZR e / IZR (a + b + c + e) + 0))))%R
  = if a + b + c + e =? 0 then 0%R else 1%R.
Proof.
  intros Ha Hb Hc He. destruct (a + b + c + e =? 0) eqn:E.
  - apply Z.eqb_eq in E.
    assert (a = 0 /\ b = 0 /\ c = 0 /\ e = 0) as (-> & -> & -> & ->) by lia.
    cbn [Z.add]. unfold Rdiv. lra.
  - apply Z.eqb_neq in E.
    assert (HT : (IZR (a + b + c + e) <> 0)%R).
    { intros H. apply eq_IZR_R0 in H. contradiction. }
    rewrite !plus_IZR in *. field. exact HT.
Qed.

(** X20. In every row of the table the four cells of the pairs with
    reference base C hold fractions of one total, and so do the four cells
    of the pairs with reference base G: each group adds up to 1, or to 0
    when the run has counted nothing at that position for that base. *)
Theorem frequency_table_rows_sum (o : options) (py_float : str -> result R)
    (str_round3 : R -> str) (lines : list str) (st : state)
    (rows : list (Z * list cell)) (i : Z) (cs : list cell) :
  main_loop o py_float str_round3 initial_state lines = Ok st ->
  deamination_table o st = Ok rows ->
  In (i, cs) rows ->
  sumR (map cell_value (firstn 4 cs))
  = (if table_total (mismatch_dict st) i =? 0 then 0 else 1)%R /\
  sumR (map cell_value (skipn 4 cs))
  = (if table_total (mismatch_dict_rev st) i =? 0 then 0 else 1)%R.
Proof.
  intros H Htab Hin. apply main_loop_tables in H; [|exact initial_tables_wf].
  destruct H as [HC HG]. unfold deamination_table in Htab.
  destruct (deamination o); [|injection Htab as <-; contradiction].
  destruct (table_rows_values _ _ HC HG (py_range 0 (range o)) None)
    as (rows' & Hrows & _ & Hall).
  rewrite Hrows in Htab. injection Htab as ->.
  rewrite Forall_forall in Hall. specialize (Hall _ Hin).
  cbn [fst snd] in Hall. unfold pairs in Hall. cbn [map] in Hall.
  apply Forall2_cons_inv in Hall as (c1 & r1 & -> & (V1 & _) & Hall).
  apply Forall2_cons_inv in Hall as (c2 & r2 & -> & (V2 & _) & Hall).
  apply Forall2_cons_inv in Hall as (c3 & r3 & -> & (V3 & _) & Hall).
  apply Forall2_cons_inv in Hall as (c4 & r4 & -> & (V4 & _) & Hall).
  apply Forall2_cons_inv in Hall as (c5 & r5 & -> & (_ & V5 & _) & Hall).
  apply Forall2_cons_inv in Hall as (c6 & r6 & -> & (_ & V6 & _) & Hall).
  apply Forall2_cons_inv in Hall as (c7 & r7 & -> & (_ & V7 & _) & Hall).
  apply Forall2_cons_inv in Hall as (c8 & r8 & -> & (_ & V8 & _) & Hall).
  inversion Hall; subst r8. clear Hall.
  specialize (V1 eq_refl). specialize (V2 eq_refl). specialize (V3 eq_refl).
  specialize (V4 eq_refl). specialize (V5 eq_refl). specialize (V6 eq_refl).
  specialize (V7 eq_refl). specialize (V8 eq_refl).
  cbn [firstn skipn map sumR fold_right].
  set (s := py_str_int i) in *.
  assert (HsumC : table_total (mismatch_dict st) i
                  = count_of (mismatch_dict st) (lit "CT" ++ s)
                    + count_of (mismatch_dict st) (lit "CA" ++ s)
                    + count_of (mismatch_dict st) (lit "CG" ++ s)
                    + count_of (mismatch_dict st) (lit "CC" ++ s)).
  { rewrite table_total_sum. unfold pairs. cbn [map sumZ fold_right]. fold s.
    change (lit "GA" ++ s) with (chG :: 65 :: s).
    change (lit "GT" ++ s) with (chG :: 84 :: s).
    change (lit "GC" ++ s) with (chG :: 67 :: s).
    change (lit "GG" ++ s) with (chG :: 71 :: s).
    rewrite (count_of_other chC chG _ (65 :: s) HC) by discriminate.
    rewrite (count_of_other chC chG _ (84 :: s) HC) by discriminate.
    rewrite (count_of_other chC chG _ (67 :: s) HC) by discriminate.
    rewrite (count_of_other chC chG _ (71 :: s) HC) by discriminate.
    lia. }
  assert (HsumG : table_total (mismatch_dict_rev st) i
                  = count_of (mismatch_dict_rev st) (lit "GA" ++ s)
                    + count_of (mismatch_dict_rev st) (lit "GT" ++ s)
                    + count_of (mismatch_dict_rev st) (lit "GC" ++ s)
                    + count_of (mismatch_dict_rev st) (lit "GG" ++ s)).
  { rewrite table_total_sum. unfold pairs. cbn [map sumZ fold_right]. fold s.
    change (lit "CT" ++ s) with (chC :: 84 :: s).
    change (lit "CA" ++ s) with (chC :: 65 :: s).
    change (lit "CG" ++ s) with (chC :: 71 :: s).
    change (lit "CC" ++ s) with (chC :: 67 :: s).
    rewrite (count_of_other chG chC _ (84 :: s) HG) by discriminate.
    rewrite (count_of_other chG chC _ (65 :: s) HG) by discriminate.
    rewrite (count_of_other chG chC _ (71 :: s) HG) by discriminate.
    rewrite (count_of_other chG chC _ (67 :: s) HG) by discriminate.
    lia. }
  rewrite V1, V2, V3, V4, V5, V6, V7, V8, HsumC, HsumG.
  split; apply fractions_sum; eapply count_of_nonneg; eassumption.
Qed.

(** The read [TA] on the reference [CA] under [--deamination]: the pair
    C>T is counted at position 0. *)
Lemma deamination_run :
  let o := set_deamination true default_options in
  let line := sam_line ["r1"; "0"; "chr1"; "100"; "30"; "2M"; "*"; "0"; "0";
                        "TA"; "II"; "MD:Z:0C1"]%string in
  main_loop o no_float no_repr initial_state [line]
  = Ok (set_passed 1 (set_scored 1 1 [(lit "CT0", 1)] []
                        (set_line_counter 1 initial_state))).
Proof.
  intros o line. cbn [main_loop]. unfold process_line.
  set (st1 := set_line_counter 1 initial_state).
  set (r := {| col := split [chTab] line; read := lit "TA"; readlen := 2;
               quals := lit "II"; cigar := lit "2M"; reverse := false |}).
  assert (Hadm : admission o initial_state line = Ok (Go (st1, r)))
    by reflexivity.
  rewrite Hadm. cbn [bind].
  assert (HDS : read_DS no_float line = Ok None) by reflexivity.
  rewrite HDS. cbn [bind is_Some].
  assert (Hna : needs_alignment o false = true) by reflexivity.
  rewrite Hna.
  assert (Hal : align st1 line r
                = Ok (Go {| real_read := lit "TA"; real_ref_seq := lit "CA";
                            a_quals := lit "II" |})) by reflexivity.
  rewrite Hal. cbn [bind].
  change (0 <? basic o) with false. cbv iota.
  change (perc_identity o) with 0%R. rewrite Rltb_false by lra.
  change (printalignments o) with false. cbn [orb]. cbv iota. cbn [bind].
  assert (Hns : needs_score o false = true) by reflexivity.
  rewrite Hns.
  cbn [real_read real_ref_seq a_quals readlen r].
  assert (Hsc : scoring_block o 2 (lit "TA") (lit "II") (lit "CA")
                  (mismatch_dict st1) (mismatch_dict_rev st1)
                = Ok ({| sc_L_D := 1; sc_L_M := 1; sc_quals := lit "II";
                         sc_newquals := lit "II";
                         sc_dict := [(lit "CT0", 1)];
                         sc_dict_rev := [] |},
                      ln (1 / 1))).
  { unfold scoring_block.
    assert (Hloop : score_loop o 2 (lit "TA")
                      {| sc_L_D := 1; sc_L_M := 1; sc_quals := lit "II";
                         sc_newquals := lit "II";
                         sc_dict := mismatch_dict st1;
                         sc_dict_rev := mismatch_dict_rev st1 |}
                      (zip3 (lit "TA") (lit "CA"))
                    = Ok {| sc_L_D := 1; sc_L_M := 1; sc_quals := lit "II";
                            sc_newquals := lit "II";
                            sc_dict := [(lit "CT0", 1)];
                            sc_dict_rev := [] |})
      by reflexivity.
    rewrite Hloop. cbn [bind sc_L_D sc_L_M]. unfold fdiv.
    destruct (Req_dec_T 1 0) as [E|_]; [lra|]. cbn [bind].
    unfold math_log. destruct (Rlt_dec 0 (1 / 1)) as [_|E]; [|lra].
    reflexivity. }
  rewrite Hsc. cbn [bind sc_L_D sc_L_M sc_dict sc_dict_rev sc_newquals].
  unfold rewrite_quals, write_DS.
  change (adjustbaseq o) with false. change (writesamfield o) with false.
  cbv iota. unfold output_stage.
  change (printDS o) with false. change (dry o) with false.
  change (printalignments o) with false. cbv iota. cbn [bind].
  unfold threshold_given.
  change (threshold o) with (-20000)%R.
  change (upperthreshold o) with 1000000%R.
  rewrite !Rltb_false by lra. cbn [orb]. cbv iota zeta. cbn [andthen].
  reflexivity.
Qed.

Lemma frequency_table_defined_witness :
  let o := set_deamination true default_options in
  let line := sam_line ["r1"; "0"; "chr1"; "100"; "30"; "2M"; "*"; "0"; "0";
                        "TA"; "II"; "MD:Z:0C1"]%string in
  let st := set_passed 1 (set_scored 1 1 [(lit "CT0", 1)] []
                            (set_line_counter 1 initial_state)) in
  main_loop o no_float no_repr initial_state [line] = Ok st /\
  exists rows : list (Z * list cell),
    deamination_table o st = Ok rows /\
    (deamination o = true -> map fst rows = py_range 0 (range o)) /\
    Forall (fun row =>
              len (snd row) = 8 /\
              Forall (fun c => (0 <= cell_value c <= 1)%R) (snd row)) rows.
Proof.
  intros o line st. pose proof deamination_run as Hrun. cbv zeta in Hrun.
  split; [exact Hrun|].
  exact (frequency_table_defined o no_float no_repr [line] st Hrun).
Defined.

Lemma frequency_table_rows_sum_witness :
  let o := set_deamination true default_options in
  let line := sam_line ["r1"; "0"; "chr1"; "100"; "30"; "2M"; "*"; "0"; "0";
                        "TA"; "II"; "MD:Z:0C1"]%string in
  exists (st : state) (rows : list (Z * list cell)) (cs : list cell),
    main_loop o no_float no_repr initial_state [line] = Ok st /\
    deamination_table o st = Ok rows /\
    In (0, cs) rows /\
    sumR (map cell_value (firstn 4 cs)) = 1%R /\
    sumR (map cell_value (skipn 4 cs)) = 0%R.
Proof.
  intros o line. pose proof deamination_run as Hrun. cbv zeta in Hrun.
  fold o line in Hrun.
  set (st := set_passed 1 (set_scored 1 1 [(lit "CT0", 1)] []
                             (set_line_counter 1 initial_state))) in *.
  assert (HC : counts_from chC (mismatch_dict st)).
  { constructor; [|constructor]. cbn [fst snd]. split; [lia|]. now eexists. }
  assert (HG : counts_from chG (mismatch_dict_rev st)) by constructor.
  destruct (table_rows_values _ _ HC HG (py_range 0 (range o)) None)
    as (rows & Hrows & Hfst & _).
  assert (Htab : deamination_table o st = Ok rows) by exact Hrows.
  destruct rows as [|[i cs] rows]; [discriminate|].
  assert (Hi : i = 0) by (injection Hfst as Hi _; exact Hi). subst i.
  assert (Hin : In (0, cs) ((0, cs) :: rows)) by now left.
  exists st, ((0, cs) :: rows), cs.
  split; [exact Hrun|]. split; [exact Htab|]. split; [exact Hin|].
  exact (frequency_table_rows_sum o no_float no_repr [line] st _ 0 cs
           Hrun Htab Hin).
Defined.

(* ================================================================= *)
(** ** The plain scoring loop runs to its end *)

Lemma getitem_Forall {A} (P : A -> Prop) (s : list A) (i : Z) (a : A) :
  0 <= i -> getitem s i = Ok a -> Forall P s -> P a.
Proof.
  intros Hi Hg Hall. apply getitem_Ok_nth in Hg; [|exact Hi].
  apply nth_error_In in Hg. rewrite Forall_forall in Hall. now apply Hall.
Qed.

Lemma len_rev {A} (s : list A) : len (rev s) = len s.
Proof. unfold len. now rewrite length_rev. Qed.

Lemma zip_range_bound {A} (l : list A) (s n : nat) :
  Forall (fun p : A * Z => Z.of_nat s <= snd p < Z.of_nat s + len l)
         (combine l (map (fun k => 0 + Z.of_nat k) (seq s n))).
Proof.
  revert s n. induction l as [|a l IH]; intros s n; [constructor|].
  destruct n as [|n]; [constructor|].
  cbn [seq map combine]. constructor.
  - cbn [snd]. unfold len. cbn [List.length]. lia.
  - eapply Forall_impl; [|apply (IH (S s) n)].
    intros p. unfold len. cbn [List.length]. lia.
Qed.

Lemma zip3_index_bound (real_read real_ref_seq : str) :
  Forall (fun abx : char * char * Z => 0 <= snd abx < len real_read)
         (zip3 real_read real_ref_seq).
Proof.
  unfold zip3, py_range.
  eapply Forall_impl; [|apply zip_range_bound].
  intros p. cbn beta.
  assert (H : len (combine real_read real_ref_seq) <= len real_read).
  { unfold len. rewrite length_combine. lia. }
  lia.
Qed.

Lemma L_match_prob (p : Z) (fmodel : list R) (fquals : str) (fpoly D : R) :
  getitem fmodel p = Ok D -> (0 < D < 1)%R -> (0 <= fpoly < 1)%R ->
  0 <= p < len fquals -> Forall (fun q => 33 <= q) fquals ->
  exists v, L_match p fmodel fquals fpoly = Ok v /\ (0 < v < 1)%R.
Proof.
  intros HD HDb HQ Hp Hall.
  destruct (getitem_in_range fquals p Hp) as [q Hq].
  assert (Hq33 : 33 <= q)
    by (eapply getitem_Forall; [| eassumption |]; [lia | exact Hall]).
  rewrite (L_match_eq _ _ _ _ _ _ HD Hq). eexists. split; [reflexivity|].
  pose proof (bracket_bounds D _ fpoly HDb (error_prob_bounds q Hq33) HQ).
  lra.
Qed.

Lemma L_mismatch_prob (p : Z) (fmodel : list R) (fquals : str) (fpoly D : R) :
  getitem fmodel p = Ok D -> (0 < D < 1)%R -> (0 <= fpoly < 1)%R ->
  0 <= p < len fquals -> Forall (fun q => 33 <= q) fquals ->
  exists v, L_mismatch p fmodel fquals fpoly = Ok v /\ (0 < v < 1)%R.
Proof.
  intros HD HDb HQ Hp Hall.
  destruct (getitem_in_range fquals p Hp) as [q Hq].
  assert (Hq33 : 33 <= q)
    by (eapply getitem_Forall; [| eassumption |]; [lia | exact Hall]).
  rewrite (L_mismatch_eq _ _ _ _ _ _ HD Hq). eexists. split; [reflexivity|].
  pose proof (bracket_bounds D _ fpoly HDb (error_prob_bounds q Hq33) HQ).
  lra.
Qed.

Lemma ancient_prob (o : options) (p : Z) :
  model_in_range o -> 0 <= p < 999 ->
  exists D, getitem (ancient_model_deam o) p = Ok D /\ (0 < D < 1)%R.
Proof.
  intros (Hp & Hc & Hpc & _) Hi.
  exists (geometric (PMDpparam o) (p + 1) (PMDconstant o)).
  split; [now apply getitem_ancient|].
  destruct (geometric_bounds (PMDpparam o) (PMDconstant o) (p + 1) Hp
              ltac:(lia)) as [H _].
  lra.
Qed.

Lemma modern_prob (p : Z) :
  0 <= p < 999 ->
  exists D, getitem modern_model_deam p = Ok D /\ (0 < D < 1)%R.
Proof.
  intros Hi. exists 0.001%R. split; [apply getitem_modern; lia | lra].
Qed.

Section PlainScoring.

Variable o : options.
Variable real_read quals : str.
Hypothesis Hplain : plain_scoring o.
Hypothesis Hmodel : model_in_range o.
Hypothesis Hlen : len quals = len real_read.
Hypothesis Hmax : len real_read <= 999.
Hypothesis Hq33 : Forall (fun q => 33 <= q) quals.

Lemma cpg_gate_total (seq : str) (i : Z) (want : char) (st : score_state) :
  len seq = len real_read -> 0 <= i ->
  cpg_gate o (len real_read) seq i want st = Ok (Next st) \/
  cpg_gate o (len real_read) seq i want st = Ok (Continue st) \/
  cpg_gate o (len real_read) seq i want st = Ok (Break st).
Proof.
  intros Hs Hi. unfold cpg_gate. destruct (cpg o); [|now left].
  destruct (len real_read <=? i + 1) eqn:E; [right; now right|].
  apply Z.leb_gt in E.
  destruct (getitem_in_range seq (i + 1) ltac:(lia)) as [c Hc].
  rewrite Hc. cbn [bind]. destruct (c =? want); [now left | right; now left].
Qed.

(** Multiplying both likelihoods by probabilities keeps the invariant. *)
Lemma scoring_inv_mult (st : score_state) (m_d m_m : R) :
  scoring_inv quals st -> (0 < m_d < 1)%R -> (0 < m_m < 1)%R ->
  scoring_inv quals (set_L (sc_L_D st * m_d) (sc_L_M st * m_m) st).
Proof.
  intros (Q & N & D & M) Hd Hm. unfold scoring_inv.
  cbn [sc_quals sc_newquals sc_L_D sc_L_M set_L].
  repeat split; try assumption; nra.
Qed.

(** One half of lines 549-593: the reference base [C] with the read bases
    [T] and [C], or [G] with [A] and [G]. *)
Lemma score_half_total (seq : str) (i pos : Z) (want sub same a : char)
    (qs : str) (st : score_state) :
  scoring_inv quals st ->
  len seq = len real_read -> 0 <= i ->
  0 <= pos < len qs -> len qs <= 999 -> Forall (fun q => 33 <= q) qs ->
  exists f,
    (st' <~ cpg_gate o (len real_read) seq i want st ;;
     if a =? sub then
       m_d <- L_mismatch pos (ancient_model_deam o) qs
                (polymorphism_ancient o) ;;
       m_m <- L_mismatch pos modern_model_deam qs
                (polymorphism_contamination o) ;;
       Ok (Next (set_L (sc_L_D st' * m_d) (sc_L_M st' * m_m) st'))
     else if a =? same then
       m_d <- L_match pos (ancient_model_deam o) qs
                (polymorphism_ancient o) ;;
       m_m <- L_match pos modern_model_deam qs
                (polymorphism_contamination o) ;;
       Ok (Next (set_L (sc_L_D st' * m_d) (sc_L_M st' * m_m) st'))
     else Ok (Next st')) = Ok f /\
    scoring_inv quals (flow_state f).
Proof.
  intros Hinv Hs Hi Hpos Hqs Hall.
  destruct Hmodel as (_ & _ & _ & Hpa & Hpc).
  destruct (ancient_prob o pos Hmodel ltac:(lia)) as (Da & HDa & HDab).
  destruct (modern_prob pos ltac:(lia)) as (Dm & HDm & HDmb).
  destruct (cpg_gate_total seq i want st Hs Hi) as [-> | [-> | ->]];
    cbn [andthen]; try (eexists; split; [reflexivity | exact Hinv]).
  destruct (a =? sub); [|destruct (a =? same)].
  - destruct (L_mismatch_prob pos _ qs _ Da HDa HDab Hpa Hpos Hall)
      as (m_d & -> & Hd).
    destruct (L_mismatch_prob pos _ qs _ Dm HDm HDmb Hpc Hpos Hall)
      as (m_m & -> & Hm).
    cbn [bind]. eexists. split; [reflexivity|]. cbn [flow_state].
    now apply scoring_inv_mult.
  - destruct (L_match_prob pos _ qs _ Da HDa HDab Hpa Hpos Hall)
      as (m_d & -> & Hd).
    destruct (L_match_prob pos _ qs _ Dm HDm HDmb Hpc Hpos Hall)
      as (m_m & -> & Hm).
    cbn [bind]. eexists. split; [reflexivity|]. cbn [flow_state].
    now apply scoring_inv_mult.
  - eexists. split; [reflexivity | exact Hinv].
Qed.

Lemma score_step_total (st : score_state) (abx : char * char * Z) :
  scoring_inv quals st -> 0 <= snd abx < len real_read ->
  exists f,
    score_step o (len real_read) real_read st abx = Ok f /\
    scoring_inv quals (flow_state f).
Proof.
  destruct abx as [[a b] x]. cbn [snd]. intros Hinv Hx.
  destruct Hplain as (Hadj & Hall & Hdeam).
  pose proof Hinv as (HQ & _).
  unfold score_step.
  destruct ((a =? chN) || (b =? chN)).
  { eexists. split; [reflexivity | exact Hinv]. }
  rewrite Z.sub_0_r.
  assert (E : (len real_read <=? x) = false) by (apply Z.leb_gt; lia).
  rewrite E.
  unfold adjust_all. rewrite Hall. cbn [andthen].
  unfold low_quality. rewrite HQ, Hadj.
  destruct (getitem_in_range quals x ltac:(lia)) as [q Hq]. rewrite Hq.
  cbn [bind].
  destruct (q - 33 <? baseq o).
  { cbn [andthen]. eexists. split; [reflexivity | exact Hinv]. }
  cbn [andthen].
  unfold count_deamination. rewrite Hdeam. cbn [andthen].
  unfold score. rewrite E, Hadj.
  destruct (b =? chC).
  - destruct (score_half_total real_read x x chG chT chC a quals st Hinv
                eq_refl ltac:(lia) ltac:(lia) ltac:(lia) Hq33)
      as (f1 & Hf1 & Hinv1).
    match goal with
    | |- exists f, andthen ?m _ = _ /\ _ =>
        replace m with (Ok (A:=flow score_state) f1)
    end.
    2:{ rewrite <- Hf1.
        destruct (cpg_gate _ _ _ _ _ _) as [[s|s|s]|] eqn:Hg;
          cbn [andthen]; try reflexivity.
        apply cpg_gate_state in Hg. cbn [flow_state] in Hg. subst s.
        rewrite HQ. reflexivity. }
    destruct f1 as [s1|s1|s1]; cbn [andthen flow_state] in *;
      try (eexists; split; [reflexivity | exact Hinv1]).
    destruct (b =? chG).
    + destruct (score_half_total (rev real_read) x (len real_read - 1 - x)
                  chC chA chG a (rev quals) s1 Hinv1 (len_rev _) ltac:(lia)
                  ltac:(rewrite len_rev; lia) ltac:(rewrite len_rev; lia)
                  ltac:(apply Forall_rev; exact Hq33))
        as (f2 & Hf2 & Hinv2).
      exists f2. split; [|exact Hinv2]. rewrite <- Hf2. reflexivity.
    + eexists. split; [reflexivity | exact Hinv1].
  - cbn [andthen]. destruct (b =? chG).
    + destruct (score_half_total (rev real_read) x (len real_read - 1 - x)
                  chC chA chG a (rev quals) st Hinv (len_rev _) ltac:(lia)
                  ltac:(rewrite len_rev; lia) ltac:(rewrite len_rev; lia)
                  ltac:(apply Forall_rev; exact Hq33))
        as (f2 & Hf2 & Hinv2).
      exists f2. split; [|exact Hinv2]. rewrite <- Hf2. reflexivity.
    + eexists. split; [reflexivity | exact Hinv].
Qed.

Lemma score_loop_total (l : list (char * char * Z)) (st : score_state) :
  scoring_inv quals st ->
  Forall (fun abx : char * char * Z => 0 <= snd abx < len real_read) l ->
  exists st',
    score_loop o (len real_read) real_read st l = Ok st' /\
    scoring_inv quals st'.
Proof.
  revert st. induction l as [|abx l IH]; intros st Hinv Hall.
  - exists st. now split.
  - apply Forall_cons_iff in Hall as [Hx Hall]. cbn [score_loop].
    destruct (score_step_total st abx Hinv Hx) as (f & -> & Hinv').
    cbn [bind].
    destruct f as [s|s|s]; cbn [flow_state] in Hinv'.
    + now apply IH.
    + now apply IH.
    + exists s. now split.
Qed.

End PlainScoring.



(* ================================================================= *)
(** ** Phred scores and error probabilities *)

Lemma prob2phred_phred2prob (Q : Z) :
  prob2phred (phred2prob Q) = Ok (IZR Q).
Proof.
  assert (Hpos : (0 < phred2prob Q)%R)
    by (unfold phred2prob, Rpower; apply exp_pos).
  rewrite prob2phred_value by exact Hpos. f_equal.
  unfold phred2prob, Rpower. rewrite ln_exp.
  pose proof ln_10_pos as H10. field. lra.
Qed.

Lemma py_int_of_float_IZR (n : Z) : py_int_of_float (IZR n) = n.
Proof.
  unfold py_int_of_float. destruct (Rle_dec 0 (IZR n)) as [_|_].
  - assert (H : n <= Int_part (IZR n) < n + 1).
    { apply Int_part_bounds. rewrite plus_IZR. lra. }
    lia.
  - assert (H : - n <= Int_part (- IZR n) < - n + 1).
    { apply Int_part_bounds. rewrite plus_IZR, opp_IZR. lra. }
    lia.
Qed.

Lemma replace_same {A} (s : list A) (n : nat) (c : A) :
  nth_error s n = Some c -> firstn n s ++ [c] ++ skipn (S n) s = s.
Proof.
  revert n. induction s as [|a s IH]; intros [|n] H; cbn in H;
    try discriminate.
  - injection H as ->. reflexivity.
  - cbn [firstn skipn app]. f_equal. now apply IH.
Qed.

(** X22. [prob2phred] inverts [phred2prob], and the rewriting of lines
    485-487 composed with them is the identity: rescaling position [i] to
    the error probability of the quality that is there gives the quality
    string back (floats taken as real numbers). *)
Theorem rescale_round_trip (quals : str) (i : Z) (q : char) :
  getitem quals i = Ok q -> 0 <= i -> 0 <= q <= 1114111 ->
  prob2phred (phred2prob (q - 33)) = Ok (IZR (q - 33)) /\
  rescale quals i (phred2prob (q - 33)) = Ok quals.
Proof.
  intros Hq Hi Hc. split; [apply prob2phred_phred2prob|].
  unfold rescale. rewrite prob2phred_phred2prob. cbn [bind].
  rewrite py_int_of_float_IZR. replace (q - 33 + 33) with q by lia.
  unfold py_chr.
  destruct ((q <? 0) || (1114111 <? q)) eqn:E.
  { apply orb_true_iff in E as [E|E]; apply Z.ltb_lt in E; lia. }
  cbn [bind]. f_equal.
  pose proof (getitem_Ok_range _ _ _ Hi Hq) as Hr.
  apply getitem_Ok_nth in Hq; [|exact Hi].
  rewrite slice_prefix, slice_from_nonneg by lia.
  replace (Z.to_nat (i + 1)) with (S (Z.to_nat i)) by lia.
  now apply replace_same.
Qed.

Lemma rescale_round_trip_witness :
  getitem (lit "I5#") 1 = Ok 53 /\ 0 <= 1 /\ 0 <= 53 <= 1114111 /\
  prob2phred (phred2prob (53 - 33)) = Ok (IZR (53 - 33)) /\
  rescale (lit "I5#") 1 (phred2prob (53 - 33)) = Ok (lit "I5#").
Proof.
  assert (H1 : getitem (lit "I5#") 1 = Ok 53) by reflexivity.
  assert (H2 : 0 <= 1) by lia.
  assert (H3 : 0 <= 53 <= 1114111) by lia.
  repeat (split; [assumption|]).
  exact (rescale_round_trip (lit "I5#") 1 53 H1 H2 H3).
Defined.
